(** * emticketen: ticket reservation over a transactional store

    A shallow embedding of [src/emticketen/utils.py] and
    [src/emticketen/models.py].  The Python code is a thin layer of SQL
    statements; every statement the code sends is given here as a state
    transformer on an explicit model of the storage engine (committed tables,
    one open transaction per connection holding its uncommitted rows and its
    row locks).  The functions of the two modules are then written on top of
    these statements in a small exception monad, line by line.

    The engine model in short:
    - isolation is read committed: a connection sees the committed rows and
      its own uncommitted rows and row versions, never those of another
      connection;
    - an update keeps its row locked until the transaction ends, as does
      [for update]; [skip locked] passes over rows locked by another
      transaction, never over the transaction's own;
    - a connection has at most one open transaction, begun implicitly by its
      first statement and ended by commit or rollback (savepoints are not
      modelled);
    - in an interleaving a call of the API is one step: its statements see no
      other connection's work in between. *)

From Stdlib Require Import ZArith List String Bool Lia.
From stdpp Require Import gmap strings list.
Import ListNotations.

Local Open Scope string_scope.
Local Open Scope list_scope.
Local Open Scope Z_scope.

(** ** Rows of the four tables (the DDL in the class docstrings) *)

Record events_row := mk_event_row { ev_id : Z; ev_slug : string }.

Record products_row := mk_product_row
  { pr_id : Z; pr_event_id : Z; pr_slug : string; pr_quota : Z }.

Record orders_row := mk_order_row { or_id : Z; or_event_id : Z }.

(** [order_id int] is the only nullable column. *)
Record tickets_row := mk_ticket_row
  { tk_id : Z; tk_product_id : Z; tk_order_id : option Z }.

(** ** Storage engine state *)

(** What one open transaction holds: the rows it inserted, the new versions
    of the ticket rows it updated (each keeps the row locked until the
    transaction ends) and the ticket rows it locked with [for update] without
    changing them.  Inserted rows are kept in insertion order, row versions
    newest first. *)
Record Tx := mk_tx
  { tx_events : list events_row;
    tx_products : list products_row;
    tx_orders : list orders_row;
    tx_tickets : list tickets_row;
    tx_updated : list tickets_row;
    tx_locked : list Z }.

Definition empty_tx : Tx := mk_tx [] [] [] [] [] [].

(** Connections are numbered.  A connection with no entry in [db_tx] has no
    open transaction.  The [seq_*] fields are the identity sequences of the
    [id] columns; a sequence is never rolled back. *)
Record DB := mk_db
  { db_events : list events_row;
    db_products : list products_row;
    db_orders : list orders_row;
    db_tickets : list tickets_row;
    seq_events : Z;
    seq_products : Z;
    seq_orders : Z;
    seq_tickets : Z;
    db_tx : gmap nat Tx }.

Definition init_db : DB := mk_db [] [] [] [] 1 1 1 1 ∅.

Definition tx_of (c : nat) (s : DB) : Tx := default empty_tx (db_tx s !! c).

Definition with_txs (m : gmap nat Tx) (s : DB) : DB :=
  mk_db (db_events s) (db_products s) (db_orders s) (db_tickets s)
        (seq_events s) (seq_products s) (seq_orders s) (seq_tickets s) m.

(** psycopg opens a transaction implicitly before the first statement of a
    connection that has none. *)
Definition autobegin (c : nat) (s : DB) : DB :=
  match db_tx s !! c with
  | Some _ => s
  | None => with_txs (<[c := empty_tx]> (db_tx s)) s
  end.

(** The transactions of the other connections. *)
Definition others (c : nat) (s : DB) : list Tx :=
  List.map snd
    (List.filter (fun ct => negb (Nat.eqb (fst ct) c)) (map_to_list (db_tx s))).

(** *** What a connection sees (read committed, plus its own changes) *)

Definition new_version (upd : list tickets_row) (t : tickets_row) : tickets_row :=
  match List.find (fun u => tk_id u =? tk_id t) upd with
  | Some u => u
  | None => t
  end.

Definition view_events (c : nat) (s : DB) : list events_row :=
  db_events s ++ tx_events (tx_of c s).

Definition view_products (c : nat) (s : DB) : list products_row :=
  db_products s ++ tx_products (tx_of c s).

Definition view_orders (c : nat) (s : DB) : list orders_row :=
  db_orders s ++ tx_orders (tx_of c s).

Definition view_tickets (c : nat) (s : DB) : list tickets_row :=
  List.map (new_version (tx_updated (tx_of c s)))
           (db_tickets s ++ tx_tickets (tx_of c s)).

(** *** Row locks *)

Definition tx_locks (t : Tx) : list Z :=
  List.map tk_id (tx_updated t) ++ tx_locked t.

Definition locked_elsewhere (c : nat) (s : DB) (tid : Z) : bool :=
  existsb (fun t => existsb (Z.eqb tid) (tx_locks t)) (others c s).

Definition is_free (t : tickets_row) : bool :=
  match tk_order_id t with None => true | Some _ => false end.

(** The rows a [where product_id = .. and order_id is null .. for update skip
    locked] scan of connection [c] can lock, in scan order. *)
Definition free_unlocked (c : nat) (s : DB) (pid : Z) : list tickets_row :=
  List.filter
    (fun t => (tk_product_id t =? pid) && is_free t
              && negb (locked_elsewhere c s (tk_id t)))
    (view_tickets c s).

(** *** Transaction end *)

Definition commit (c : nat) (s : DB) : DB :=
  match db_tx s !! c with
  | None => s
  | Some t =>
      mk_db (db_events s ++ tx_events t)
            (db_products s ++ tx_products t)
            (db_orders s ++ tx_orders t)
            (List.map (new_version (tx_updated t)) (db_tickets s ++ tx_tickets t))
            (seq_events s) (seq_products s) (seq_orders s) (seq_tickets s)
            (delete c (db_tx s))
  end.

Definition rollback (c : nat) (s : DB) : DB :=
  with_txs (delete c (db_tx s)) s.

(** ** Exceptions and the monad of a call on a connection *)

Inductive Exn :=
| TypeError
| ValueError
| KeyError
| AssertionError
| NotImplementedError
| MultipleRowsReturned
| NotEnoughTickets
| ForeignKeyViolation
| InvalidRowCountInLimitClause
| ProgrammingError.

(** [Blocked]: the statement waits for another transaction to end; nothing
    has been done yet. *)
Inductive Result (A : Type) :=
| Ok (a : A)
| Raise (e : Exn)
| Blocked.
Arguments Ok {A} a.
Arguments Raise {A} e.
Arguments Blocked {A}.

Definition M (A : Type) : Type := DB -> Result A * DB.

Definition ret {A} (a : A) : M A := fun s => (Ok a, s).

Definition raise {A} (e : Exn) : M A := fun s => (Raise e, s).

Definition bind {A B} (m : M A) (k : A -> M B) : M B :=
  fun s =>
    match m s with
    | (Ok a, s') => k a s'
    | (Raise e, s') => (Raise e, s')
    | (Blocked, s') => (Blocked, s')
    end.

Notation "x <- m ;; k" := (bind m (fun x => k))
  (at level 100, m at next level, right associativity).

(** Every statement goes through [acur.execute] on a connection. *)
Definition execute {A} (c : nat) (stmt : nat -> DB -> Result A * DB) : M A :=
  fun s => stmt c (autobegin c s).

(** ** Python values crossing the [utils.py] interface *)

#[local] Unset Elimination Schemes.
Inductive Value :=
| VInt (z : Z)
| VStr (s : string)
| VNone
| VRecord (fields : list Value).
#[local] Set Elimination Schemes.

Definition Tuple := list Value.
Definition Kwargs := list (string * Value).

Inductive TableName := events | products | orders | tickets.

Definition columns (t : TableName) : list string :=
  match t with
  | events => ["id"; "slug"]
  | products => ["id"; "event_id"; "slug"; "quota"]
  | orders => ["id"; "event_id"]
  | tickets => ["id"; "product_id"; "order_id"]
  end.

Definition events_tuple (r : events_row) : Tuple :=
  [VInt (ev_id r); VStr (ev_slug r)].

Definition products_tuple (r : products_row) : Tuple :=
  [VInt (pr_id r); VInt (pr_event_id r); VStr (pr_slug r); VInt (pr_quota r)].

Definition orders_tuple (r : orders_row) : Tuple :=
  [VInt (or_id r); VInt (or_event_id r)].

Definition tickets_tuple (r : tickets_row) : Tuple :=
  [VInt (tk_id r); VInt (tk_product_id r);
   match tk_order_id r with Some o => VInt o | None => VNone end].

Definition select_star (c : nat) (t : TableName) (s : DB) : list Tuple :=
  match t with
  | events => List.map events_tuple (view_events c s)
  | products => List.map products_tuple (view_products c s)
  | orders => List.map orders_tuple (view_orders c s)
  | tickets => List.map tickets_tuple (view_tickets c s)
  end.

(** SQL [=] on the values the code passes; a comparison with null selects
    nothing. *)
Definition sql_eqb (a b : Value) : bool :=
  match a, b with
  | VInt x, VInt y => x =? y
  | VStr x, VStr y => String.eqb x y
  | _, _ => false
  end.

Fixpoint field (cols : list string) (row : Tuple) (k : string) : option Value :=
  match cols, row with
  | col :: cols', v :: row' => if String.eqb col k then Some v else field cols' row' k
  | _, _ => None
  end.

Definition kwarg (kwargs : Kwargs) (k : string) : option Value :=
  option_map snd (List.find (fun kv => String.eqb (fst kv) k) kwargs).

Definition where_matches (cols : list string) (kwargs : Kwargs) (row : Tuple) : bool :=
  forallb (fun kv => match field cols row (fst kv) with
                     | Some v => sql_eqb v (snd kv)
                     | None => false
                     end) kwargs.

Definition known_columns (cols : list string) (ks : list string) : bool :=
  forallb (fun k => existsb (String.eqb k) cols) ks.

(** ** The statements the code sends

    Modelled from the spec: the storage engine is an external collaborator
    (spec section 1: transactions with caller-controlled boundaries, unique
    and foreign-key constraints, and the lock-skipping row-lock primitive);
    each definition below gives the effect of one SQL text of the source on
    the state above. *)

(** Modelled from the spec: [select * from {table_name} where {k = v and ..}
    limit 2] of [get_row]; the cursor holds at most two rows. *)
Definition select_where_limit_2 (table_name : TableName) (kwargs : Kwargs)
    (c : nat) (s : DB) : Result (list Tuple) * DB :=
  if negb (known_columns (columns table_name) (List.map fst kwargs))
     || (Nat.eqb (length kwargs) 0)
  then (Raise ProgrammingError, s)
  else (Ok (firstn 2 (List.filter (where_matches (columns table_name) kwargs)
                                  (select_star c table_name s))), s).

(** The columns of [returning (..)]: psycopg delivers one composite field
    when several columns are listed between the parentheses, and the bare
    column when there is one. *)
Definition returning_row (cols : list string) (returning : list string)
    (row : Tuple) : option Tuple :=
  match mapM (field cols row) returning with
  | Some fields =>
      match returning with
      | [] => None
      | [_] => Some fields
      | _ => Some [VRecord fields]
      end
  | None => None
  end.

(** The general form of a change made by connection [c] that leaves the
    committed tables alone: its transaction becomes [t] and the sequences
    move on. *)
Definition put (c : nat) (t : Tx) (se sp so st : Z) (s : DB) : DB :=
  mk_db (db_events s) (db_products s) (db_orders s) (db_tickets s)
        se sp so st (<[c := t]> (db_tx s)).

Definition tx_add_event (r : events_row) (t : Tx) : Tx :=
  mk_tx (tx_events t ++ [r]) (tx_products t) (tx_orders t)
        (tx_tickets t) (tx_updated t) (tx_locked t).

Definition tx_add_product (r : products_row) (t : Tx) : Tx :=
  mk_tx (tx_events t) (tx_products t ++ [r]) (tx_orders t)
        (tx_tickets t) (tx_updated t) (tx_locked t).

Definition tx_add_order (r : orders_row) (t : Tx) : Tx :=
  mk_tx (tx_events t) (tx_products t) (tx_orders t ++ [r])
        (tx_tickets t) (tx_updated t) (tx_locked t).

Definition tx_add_tickets (rs : list tickets_row) (t : Tx) : Tx :=
  mk_tx (tx_events t) (tx_products t) (tx_orders t)
        (tx_tickets t ++ rs) (tx_updated t) (tx_locked t).

Definition tx_add_updated (rs : list tickets_row) (t : Tx) : Tx :=
  mk_tx (tx_events t) (tx_products t) (tx_orders t)
        (tx_tickets t) (rs ++ tx_updated t) (tx_locked t).

Definition tx_add_locked (ids : list Z) (t : Tx) : Tx :=
  mk_tx (tx_events t) (tx_products t) (tx_orders t)
        (tx_tickets t) (tx_updated t) (tx_locked t ++ ids).

Definition add_event (c : nat) (r : events_row) (s : DB) : DB :=
  put c (tx_add_event r (tx_of c s))
      (seq_events s + 1) (seq_products s) (seq_orders s) (seq_tickets s) s.

Definition add_product (c : nat) (r : products_row) (s : DB) : DB :=
  put c (tx_add_product r (tx_of c s))
      (seq_events s) (seq_products s + 1) (seq_orders s) (seq_tickets s) s.

Definition add_order (c : nat) (r : orders_row) (s : DB) : DB :=
  put c (tx_add_order r (tx_of c s))
      (seq_events s) (seq_products s) (seq_orders s + 1) (seq_tickets s) s.

Definition add_tickets (c : nat) (rs : list tickets_row) (s : DB) : DB :=
  put c (tx_add_tickets rs (tx_of c s))
      (seq_events s) (seq_products s) (seq_orders s)
      (seq_tickets s + Z.of_nat (length rs)) s.

Definition add_updated (c : nat) (rs : list tickets_row) (s : DB) : DB :=
  put c (tx_add_updated rs (tx_of c s))
      (seq_events s) (seq_products s) (seq_orders s) (seq_tickets s) s.

Definition add_locked (c : nat) (ids : list Z) (s : DB) : DB :=
  put c (tx_add_locked ids (tx_of c s))
      (seq_events s) (seq_products s) (seq_orders s) (seq_tickets s) s.

Definition same_event_key (slug : string) (r : events_row) : bool :=
  String.eqb (ev_slug r) slug.

Definition same_product_key (event_id : Z) (slug : string) (r : products_row) : bool :=
  (pr_event_id r =? event_id) && String.eqb (pr_slug r) slug.

(** Modelled from the spec: [insert into {table_name} ({fields}) values (..)
    on conflict ({unique_fields}) do nothing returning ({returning})] of
    [ensure_row].  A row with the same key that this connection sees makes
    the statement do nothing and return no row; a row with the same key that
    another open transaction has inserted makes it wait for that
    transaction; otherwise the row is inserted with the next identity value.
    The foreign key of [products.event_id] is checked on insertion. *)
Definition insert_on_conflict_do_nothing (table_name : TableName)
    (kwargs : Kwargs) (unique_fields returning : list string)
    (c : nat) (s : DB) : Result (option Tuple) * DB :=
  match table_name with
  | events =>
      match List.map fst kwargs, kwarg kwargs "slug" with
      | ["slug"], Some (VStr slug) =>
          if negb (bool_decide (unique_fields = ["slug"])) then (Raise ProgrammingError, s)
          else if existsb (same_event_key slug) (view_events c s) then (Ok None, s)
          else if existsb (fun t => existsb (same_event_key slug) (tx_events t)) (others c s)
          then (Blocked, s)
          else
            let r := mk_event_row (seq_events s) slug in
            match returning_row (columns events) returning (events_tuple r) with
            | Some row => (Ok (Some row), add_event c r s)
            | None => (Raise ProgrammingError, s)
            end
      | _, _ => (Raise ProgrammingError, s)
      end
  | products =>
      match List.map fst kwargs,
            kwarg kwargs "event_id", kwarg kwargs "slug", kwarg kwargs "quota" with
      | ["event_id"; "slug"; "quota"],
        Some (VInt event_id), Some (VStr slug), Some (VInt quota) =>
          if negb (bool_decide (unique_fields = ["event_id"; "slug"]))
          then (Raise ProgrammingError, s)
          else if existsb (same_product_key event_id slug) (view_products c s)
          then (Ok None, s)
          else if existsb (fun t => existsb (same_product_key event_id slug) (tx_products t))
                          (others c s)
          then (Blocked, s)
          else if negb (existsb (fun e => ev_id e =? event_id) (view_events c s))
          then (Raise ForeignKeyViolation, s)
          else
            let r := mk_product_row (seq_products s) event_id slug quota in
            match returning_row (columns products) returning (products_tuple r) with
            | Some row => (Ok (Some row), add_product c r s)
            | None => (Raise ProgrammingError, s)
            end
      | _, _, _, _ => (Raise ProgrammingError, s)
      end
  | _ => (Raise ProgrammingError, s)
  end.

(** Modelled from the spec: [insert into orders (event_id) values (%s)
    returning id] of [Order.create]. *)
Definition insert_order_returning_id (event_id : Z)
    (c : nat) (s : DB) : Result (option Z) * DB :=
  if negb (existsb (fun e => ev_id e =? event_id) (view_events c s))
  then (Raise ForeignKeyViolation, s)
  else (Ok (Some (seq_orders s)),
        add_order c (mk_order_row (seq_orders s) event_id) s).

(** Modelled from the spec: [select count( * ) from tickets where product_id
    = %s] of [Product.ensure_tickets]. *)
Definition select_count_tickets (product_id : Z)
    (c : nat) (s : DB) : Result (option Z) * DB :=
  (Ok (Some (Z.of_nat (length (List.filter (fun t => tk_product_id t =? product_id)
                                           (view_tickets c s))))), s).

Definition fresh_tickets (product_id first : Z) (n : nat) : list tickets_row :=
  List.map (fun i => mk_ticket_row (first + Z.of_nat i) product_id None) (seq 0 n).

(** Modelled from the spec: [insert into tickets (product_id) select %s from
    generate_series(1, %s) as _] of [Product.ensure_tickets]: one free ticket
    row per element of the series, which is empty when its bound is below 1. *)
Definition insert_tickets_generate_series (product_id n : Z)
    (c : nat) (s : DB) : Result unit * DB :=
  let rows := fresh_tickets product_id (seq_tickets s) (Z.to_nat n) in
  match rows with
  | [] => (Ok tt, s)
  | _ :: _ =>
      if negb (existsb (fun p => pr_id p =? product_id) (view_products c s))
      then (Raise ForeignKeyViolation, s)
      else (Ok tt, add_tickets c rows s)
  end.

(** Modelled from the spec: the query of
    [Product.get_products_with_availability]: for every product of the event,
    the sub-select locks the first free ticket of the product that no other
    transaction has locked, if there is one; the lock is held by the calling
    connection's transaction. *)
Definition select_products_available (event_id : Z)
    (c : nat) (s : DB) : Result (list (Z * string * Z * bool)) * DB :=
  let prods := List.filter (fun p => pr_event_id p =? event_id) (view_products c s) in
  let probe := List.map (fun p => (p, hd_error (free_unlocked c s (pr_id p)))) prods in
  (Ok (List.map (fun pt => (pr_id (fst pt), pr_slug (fst pt), pr_quota (fst pt),
                            match snd pt with Some _ => true | None => false end))
                probe),
   add_locked c (flat_map (fun pt => match snd pt with
                                     | Some t => [tk_id t]
                                     | None => []
                                     end) probe) s).

Definition set_order (order_id : Z) (t : tickets_row) : tickets_row :=
  mk_ticket_row (tk_id t) (tk_product_id t) (Some order_id).

(** Modelled from the spec: the statement of [Ticket.reserve] ([with reserved
    as (select id from tickets where product_id = %s and order_id is null
    limit %s for update skip locked) update tickets set order_id = %s from
    reserved where tickets.id = reserved.id returning tickets.id]): lock up
    to [limit] free tickets of the product that no other transaction has
    locked, set their order id in the same step and return their ids.  A
    negative limit is rejected; the foreign key of [tickets.order_id] is
    checked when a row is updated. *)
Definition update_reserved_returning_id (product_id limit order_id : Z)
    (c : nat) (s : DB) : Result (list Z) * DB :=
  if limit <? 0 then (Raise InvalidRowCountInLimitClause, s)
  else
    let reserved := firstn (Z.to_nat limit) (free_unlocked c s product_id) in
    match reserved with
    | [] => (Ok [], s)
    | _ :: _ =>
        if negb (existsb (fun o => or_id o =? order_id) (view_orders c s))
        then (Raise ForeignKeyViolation, s)
        else (Ok (List.map tk_id reserved),
              add_updated c (List.map (set_order order_id) reserved) s)
    end.

(** Modelled from the spec: [select count( * ) from tickets where product_id
    = %s and order_id is null] of [Ticket.count_free]. *)
Definition select_count_free (product_id : Z)
    (c : nat) (s : DB) : Result (option Z) * DB :=
  (Ok (Some (Z.of_nat (length (List.filter
                                 (fun t => (tk_product_id t =? product_id) && is_free t)
                                 (view_tickets c s))))), s).

(** Modelled from the spec: transaction control is the caller's (spec
    sections 4.3 and 6): [begin], [commit] and [rollback] on a connection. *)
Definition begin_ (c : nat) : M unit := fun s => (Ok tt, autobegin c s).

Definition commit_ (c : nat) : M unit := fun s => (Ok tt, commit c s).

Definition rollback_ (c : nat) : M unit := fun s => (Ok tt, rollback c s).

(** ** utils.py *)

(** A row or a tuple of Python values is a [VRecord].  Unpacking
    [a, b = value] raises [TypeError] on a value that is no tuple and
    [ValueError] on a tuple of another length. *)
Definition item0 (row : Tuple) : M Value :=
  match row with
  | v :: _ => ret v
  | [] => raise ValueError
  end.

Definition get_row (c : nat) (table_name : TableName) (kwargs : Kwargs) : M Value :=
  rows <- execute c (select_where_limit_2 table_name kwargs) ;;
  if (1 <? length rows)%nat then raise MultipleRowsReturned
  else
    match rows with
    | [] => raise KeyError
    | row :: _ => ret (VRecord row)
    end.

(** The binding of a call [get_row(aconn, table_name, *args, **kwargs)]:
    [get_row] declares two positional parameters and [**kwargs], so any
    further positional argument is a [TypeError] raised by the call itself. *)
Definition call_get_row (c : nat) (table_name : TableName)
    (args : list string) (kwargs : Kwargs) : M Value :=
  match args with
  | [] => get_row c table_name kwargs
  | _ :: _ => raise TypeError
  end.

(** [{key: kwargs[key] for key in unique_fields}] *)
Fixpoint dict_of_keys (unique_fields : list string) (kwargs : Kwargs) : M Kwargs :=
  match unique_fields with
  | [] => ret []
  | key :: rest =>
      match kwarg kwargs key with
      | Some v => d <- dict_of_keys rest kwargs ;; ret ((key, v) :: d)
      | None => raise KeyError
      end
  end.

(** [ensure_row]: the dictionary of the key fields is passed to [get_row]
    with a single star, which spreads its keys as positional arguments. *)
Definition ensure_row (c : nat) (table_name : TableName)
    (returning unique_fields : list string) (kwargs : Kwargs) : M Value :=
  row <- execute c (insert_on_conflict_do_nothing table_name kwargs
                      unique_fields returning) ;;
  match row with
  | Some row =>
      if (1 <? length returning)%nat then item0 row else ret (VRecord row)
  | None =>
      d <- dict_of_keys unique_fields kwargs ;;
      row <- call_get_row c table_name (List.map fst d) [] ;;
      ret row
  end.

(** ** models.py *)

Module Event.

Record t := mk { id : Z; slug : string }.

Definition of_row (row : Value) : M t :=
  match row with
  | VRecord [VInt id; VStr slug] => ret (mk id slug)
  | VRecord _ => raise ValueError
  | _ => raise TypeError
  end.

Definition ensure (c : nat) (slug : string) : M t :=
  row <- ensure_row c events ["id"; "slug"] ["slug"] [("slug", VStr slug)] ;;
  of_row row.

Definition get (c : nat) (slug : string) : M t :=
  row <- get_row c events [("slug", VStr slug)] ;;
  of_row row.

End Event.

Module Order.

Record t := mk { id : Z; event_id : Z }.

Definition create (c : nat) (event : Event.t) : M t :=
  row <- execute c (insert_order_returning_id (Event.id event)) ;;
  match row with
  | None => raise AssertionError
  | Some id => ret (mk id (Event.id event))
  end.

End Order.

Module Product.

Record t := mk { id : Z; event_id : Z; slug : string; quota : Z }.

Definition of_row (row : Value) : M t :=
  match row with
  | VRecord [VInt id; VInt event_id; VStr slug; VInt quota] =>
      ret (mk id event_id slug quota)
  | VRecord _ => raise ValueError
  | _ => raise TypeError
  end.

Definition ensure_tickets (c : nat) (self : t) : M unit :=
  row <- execute c (select_count_tickets (id self)) ;;
  let count := match row with Some n => n | None => 0 end in
  if count =? quota self then ret tt
  else if count >? quota self then raise NotImplementedError
  else execute c (insert_tickets_generate_series (id self) (quota self - count)).

Definition ensure (c : nat) (event : Event.t) (slug : string) (quota : Z) : M t :=
  row <- ensure_row c products ["id"; "event_id"; "slug"; "quota"]
           ["event_id"; "slug"]
           [("event_id", VInt (Event.id event)); ("slug", VStr slug);
            ("quota", VInt quota)] ;;
  product <- of_row row ;;
  _ <- ensure_tickets c product ;;
  ret product.

Definition get (c : nat) (event : Event.t) (slug : string) : M t :=
  row <- get_row c products
           [("event_id", VInt (Event.id event)); ("slug", VStr slug)] ;;
  of_row row.

Definition get_products_with_availability (c : nat) (event : Event.t)
    : M (list (t * bool)) :=
  rows <- execute c (select_products_available (Event.id event)) ;;
  ret (List.map (fun row => match row with
                            | (id, slug, quota, available) =>
                                (mk id (Event.id event) slug quota, available)
                            end) rows).

End Product.

Module Ticket.

Record t := mk { id : Z; product_id : Z; order_id : Z }.

Definition reserve (c : nat) (order : Order.t) (product : Product.t)
    (quantity : Z) : M (list t) :=
  rows <- execute c (update_reserved_returning_id (Product.id product) quantity
                       (Order.id order)) ;;
  if Z.of_nat (length rows) <? quantity then raise NotEnoughTickets
  else ret (List.map (fun id => mk id (Product.id product) (Order.id order)) rows).

Definition count_free (c : nat) (product : Product.t) : M Z :=
  row <- execute c (select_count_free (Product.id product)) ;;
  ret (match row with Some n => n | None => 0 end).

End Ticket.

(** ** Calls, interleavings and reachable states *)

(** What a caller can do on a connection.  The arguments are the Python
    objects the caller holds. *)
Inductive Call :=
| Begin
| Commit
| Rollback
| EventEnsure (slug : string)
| EventGet (slug : string)
| OrderCreate (event : Event.t)
| ProductEnsure (event : Event.t) (slug : string) (quota : Z)
| ProductGet (event : Event.t) (slug : string)
| EnsureTickets (product : Product.t)
| Availability (event : Event.t)
| Reserve (order : Order.t) (product : Product.t) (quantity : Z)
| CountFree (product : Product.t).

Inductive Outcome :=
| Returned
| Raised (e : Exn)
| Waiting.

Definition outcome {A} (r : Result A * DB) : Outcome * DB :=
  match r with
  | (Ok _, s) => (Returned, s)
  | (Raise e, s) => (Raised e, s)
  | (Blocked, s) => (Waiting, s)
  end.

Definition call (c : nat) (k : Call) (s : DB) : Outcome * DB :=
  match k with
  | Begin => outcome (begin_ c s)
  | Commit => outcome (commit_ c s)
  | Rollback => outcome (rollback_ c s)
  | EventEnsure slug => outcome (Event.ensure c slug s)
  | EventGet slug => outcome (Event.get c slug s)
  | OrderCreate event => outcome (Order.create c event s)
  | ProductEnsure event slug quota => outcome (Product.ensure c event slug quota s)
  | ProductGet event slug => outcome (Product.get c event slug s)
  | EnsureTickets product => outcome (Product.ensure_tickets c product s)
  | Availability event => outcome (Product.get_products_with_availability c event s)
  | Reserve order product quantity => outcome (Ticket.reserve c order product quantity s)
  | CountFree product => outcome (Ticket.count_free c product s)
  end.

Definition product_row (p : Product.t) : products_row :=
  mk_product_row (Product.id p) (Product.event_id p) (Product.slug p) (Product.quota p).

(** A [Product] object on which [ensure_tickets] is called is one that
    [Product.ensure] or [Product.get] built from a row the connection sees. *)
Definition held (c : nat) (k : Call) (s : DB) : Prop :=
  match k with
  | EnsureTickets product => In (product_row product) (view_products c s)
  | _ => True
  end.

Definition Label : Type := nat * Call * Outcome.

(** One call of one connection completes; the calls of different connections
    interleave freely, a call that would wait is not taken. *)
Inductive step (s : DB) : Label -> DB -> Prop :=
| step_call (c : nat) (k : Call) (o : Outcome) (s' : DB) :
    call c k s = (o, s') -> o <> Waiting -> held c k s ->
    step s (c, k, o) s'.

Inductive run (s0 : DB) : list Label -> DB -> Prop :=
| run_nil : run s0 [] s0
| run_snoc (tr : list Label) (l : Label) (s s' : DB) :
    run s0 tr s -> step s l s' -> run s0 (tr ++ [l]) s'.

Definition reachable (s : DB) : Prop := exists tr, run init_db tr s.

(** No transaction is open. *)
Definition quiescent (s : DB) : Prop := db_tx s = ∅.

(** ** Counting tickets *)

Definition count_tickets (product_id : Z) (l : list tickets_row) : Z :=
  Z.of_nat (length (List.filter (fun t => tk_product_id t =? product_id) l)).

Definition count_sold (product_id : Z) (l : list tickets_row) : Z :=
  Z.of_nat (length (List.filter
                      (fun t => (tk_product_id t =? product_id) && negb (is_free t)) l)).

Definition count_free (product_id : Z) (l : list tickets_row) : Z :=
  Z.of_nat (length (List.filter
                      (fun t => (tk_product_id t =? product_id) && is_free t) l)).

(** ** Accounting of reservations along an interleaving

    [credit pid tr] adds up the quantities of the [Ticket.reserve] calls on
    product [pid] that returned, transaction by transaction: the quantities
    of a connection are pending while its transaction is open, are credited
    when it commits and dropped when it rolls back. *)
Record Ledger := mk_ledger { credited : Z; pending : gmap nat Z }.

Definition ledger0 : Ledger := mk_ledger 0 ∅.

Definition post (pid : Z) (g : Ledger) (l : Label) : Ledger :=
  match l with
  | (c, Reserve _ product quantity, Returned) =>
      if Product.id product =? pid
      then mk_ledger (credited g)
                     (<[c := default 0 (pending g !! c) + quantity]> (pending g))
      else g
  | (c, Commit, _) =>
      mk_ledger (credited g + default 0 (pending g !! c)) (delete c (pending g))
  | (c, Rollback, _) => mk_ledger (credited g) (delete c (pending g))
  | _ => g
  end.

Definition ledger (pid : Z) (tr : list Label) : Ledger :=
  fold_left (post pid) tr ledger0.

Definition credit (pid : Z) (tr : list Label) : Z := credited (ledger pid tr).

(** The caller's duty after a failed [reserve] (spec sections 4.3 and 7): a
    transaction in which a [reserve] call raised is rolled back, not
    committed.  [failed_in] is the set of connections whose open transaction
    has seen a [reserve] call raise; [kept] turns false when one of them
    commits. *)
Record Duty := mk_duty { failed_in : gset nat; kept : bool }.

Definition duty_step (d : Duty) (l : Label) : Duty :=
  match l with
  | (c, Reserve _ _ _, Raised _) => mk_duty ({[c]} ∪ failed_in d) (kept d)
  | (c, Commit, _) =>
      mk_duty (failed_in d ∖ {[c]}) (kept d && negb (bool_decide (c ∈ failed_in d)))
  | (c, Rollback, _) => mk_duty (failed_in d ∖ {[c]}) (kept d)
  | _ => d
  end.

Definition duty (tr : list Label) : Duty := fold_left duty_step tr (mk_duty ∅ true).

Definition disciplined (tr : list Label) : bool := kept (duty tr).

(** ** Well-formedness of the store *)

Definition disjoint {A} (l1 l2 : list A) : Prop := forall x, In x l1 -> ~ In x l2.

Record tx_ok (s : DB) (t : Tx) : Prop := mk_tx_ok
  { ok_ids : List.NoDup (List.map tk_id (db_tickets s ++ tx_tickets t));
    ok_upd_ids : List.NoDup (List.map tk_id (tx_updated t));
    ok_upd_base : forall u, In u (tx_updated t) ->
        tk_order_id u <> None /\
        In (mk_ticket_row (tk_id u) (tk_product_id u) None)
           (db_tickets s ++ tx_tickets t);
    ok_new_free : forall r, In r (tx_tickets t) -> tk_order_id r = None;
    ok_owner : forall r, In r (tx_tickets t) ->
        exists p, In p (tx_products t) /\ pr_id p = tk_product_id r;
    ok_balance : forall p, In p (tx_products t) ->
        count_tickets (pr_id p) (tx_tickets t) = Z.max 0 (pr_quota p);
    ok_products : disjoint (List.map pr_id (db_products s))
                           (List.map pr_id (tx_products t));
    ok_seq_tickets : forall r, In r (tx_tickets t) -> tk_id r < seq_tickets s;
    ok_seq_products : forall p, In p (tx_products t) -> pr_id p < seq_products s }.

Record Inv (s : DB) : Prop := mk_inv
  { inv_tx : forall c t, db_tx s !! c = Some t -> tx_ok s t;
    inv_sep : forall c1 c2 t1 t2, c1 <> c2 ->
        db_tx s !! c1 = Some t1 -> db_tx s !! c2 = Some t2 ->
        disjoint (List.map tk_id (tx_tickets t1)) (List.map tk_id (tx_tickets t2)) /\
        disjoint (List.map pr_id (tx_products t1)) (List.map pr_id (tx_products t2)) /\
        disjoint (List.map tk_id (tx_updated t1)) (tx_locks t2);
    inv_ids : List.NoDup (List.map tk_id (db_tickets s));
    inv_owner : forall r, In r (db_tickets s) ->
        exists p, In p (db_products s) /\ pr_id p = tk_product_id r;
    inv_balance : forall p, In p (db_products s) ->
        count_tickets (pr_id p) (db_tickets s) = Z.max 0 (pr_quota p);
    inv_seq_tickets : forall r, In r (db_tickets s) -> tk_id r < seq_tickets s;
    inv_seq_products : forall p, In p (db_products s) -> pr_id p < seq_products s }.

(** ** Abbreviations used in the statements, scripts of calls, scenarios *)

Definition order_known (c : nat) (order_id : Z) (s : DB) : bool :=
  existsb (fun o => or_id o =? order_id) (view_orders c s).

Definition claimed (c : nat) (order_id : Z) (R : list tickets_row) (s : DB) : DB :=
  put c (tx_add_updated (List.map (set_order order_id) R) (tx_of c s))
      (seq_events s) (seq_products s) (seq_orders s) (seq_tickets s) s.

Definition ticket_of (order : Order.t) (product : Product.t) (id : Z) : Ticket.t :=
  Ticket.mk id (Product.id product) (Order.id order).

Definition event_pending_elsewhere (c : nat) (slug : string) (s : DB) : bool :=
  existsb (fun t => existsb (same_event_key slug) (tx_events t)) (others c s).

Definition product_pending_elsewhere (c : nat) (event_id : Z) (slug : string)
    (s : DB) : bool :=
  existsb (fun t => existsb (same_product_key event_id slug) (tx_products t)) (others c s).

Definition event_known (c : nat) (event_id : Z) (s : DB) : bool :=
  existsb (fun e => ev_id e =? event_id) (view_events c s).

Definition product_known (c : nat) (product_id : Z) (s : DB) : bool :=
  existsb (fun p => pr_id p =? product_id) (view_products c s).

Definition probe (c : nat) (event_id : Z) (s : DB)
    : list (products_row * option tickets_row) :=
  List.map (fun p => (p, hd_error (free_unlocked c s (pr_id p))))
           (List.filter (fun p => pr_event_id p =? event_id) (view_products c s)).

Definition probe_locks (l : list (products_row * option tickets_row)) : list Z :=
  flat_map (fun pt => match snd pt with Some t => [tk_id t] | None => [] end) l.

(** All rows and row versions are the same in both states, committed and
    pending; only row locks and the mere fact that a transaction is open may
    differ. *)
Definition same_rows (s s' : DB) : Prop :=
  db_events s' = db_events s /\ db_products s' = db_products s /\
  db_orders s' = db_orders s /\ db_tickets s' = db_tickets s /\
  forall c, tx_events (tx_of c s') = tx_events (tx_of c s) /\
            tx_products (tx_of c s') = tx_products (tx_of c s) /\
            tx_orders (tx_of c s') = tx_orders (tx_of c s) /\
            tx_tickets (tx_of c s') = tx_tickets (tx_of c s) /\
            tx_updated (tx_of c s') = tx_updated (tx_of c s).

Definition product_of (event : Event.t) (p : products_row) : Product.t :=
  Product.mk (pr_id p) (Event.id event) (pr_slug p) (pr_quota p).

Definition accounted (pid : Z) (tr : list Label) (s : DB) : Prop :=
  count_sold pid (db_tickets s) = credited (ledger pid tr) /\
  forall c, c ∉ failed_in (duty tr) ->
    count_tickets pid (tx_updated (tx_of c s)) = default 0 (pending (ledger pid tr) !! c).

Definition products_row_eqb (p q : products_row) : bool :=
  (pr_id p =? pr_id q) && (pr_event_id p =? pr_event_id q)
  && String.eqb (pr_slug p) (pr_slug q) && (pr_quota p =? pr_quota q).

Definition heldb (c : nat) (k : Call) (s : DB) : bool :=
  match k with
  | EnsureTickets product =>
      existsb (products_row_eqb (product_row product)) (view_products c s)
  | _ => true
  end.

Fixpoint exec (cs : list (nat * Call)) (s : DB) : list Label * DB :=
  match cs with
  | [] => ([], s)
  | (c, k) :: cs' =>
      let os := call c k s in
      let r := exec cs' (snd os) in
      ((c, k, fst os) :: fst r, snd r)
  end.

Fixpoint admissible (cs : list (nat * Call)) (s : DB) : bool :=
  match cs with
  | [] => true
  | (c, k) :: cs' =>
      match fst (call c k s) with
      | Waiting => false
      | _ => heldb c k s && admissible cs' (snd (call c k s))
      end
  end.

(** The sum of the quantities of all [reserve] calls on the product that
    returned, whatever became of their transactions. *)
Fixpoint reserved_total (pid : Z) (tr : list Label) : Z :=
  match tr with
  | [] => 0
  | (_, Reserve _ product quantity, Returned) :: tr' =>
      (if Product.id product =? pid then quantity else 0) + reserved_total pid tr'
  | _ :: tr' => reserved_total pid tr'
  end.

Definition test_event : Event.t := Event.mk 1 "test-event".

Definition test_product : Product.t := Product.mk 1 1 "test-product" 10.

Definition order_1 : Order.t := Order.mk 1 1.

Definition order_2 : Order.t := Order.mk 2 1.

(** Connection 0 creates the event and the product with quota 10 and
    commits. *)
Definition setup : list (nat * Call) :=
  [(0%nat, EventEnsure "test-event");
   (0%nat, ProductEnsure test_event "test-product" 10);
   (0%nat, Commit)].

(** A buyer reserves 3, then asks for 8 more, which fails; the transaction is
    rolled back, as it must be after a failed reservation. *)
Definition buy_3_then_8 : list (nat * Call) :=
  setup ++
  [(1%nat, OrderCreate test_event);
   (1%nat, Reserve order_1 test_product 3);
   (1%nat, Reserve order_1 test_product 8);
   (1%nat, Rollback)].

(** A buyer reserves 3 and commits. *)
Definition buy_3 : list (nat * Call) :=
  setup ++
  [(1%nat, OrderCreate test_event);
   (1%nat, Reserve order_1 test_product 3);
   (1%nat, Commit)].

(** tests/test_concurrent.py up to the second [reserve]: two open
    transactions, the first has reserved 6. *)
Definition two_buyers : list (nat * Call) :=
  setup ++
  [(1%nat, Begin); (2%nat, Begin);
   (1%nat, OrderCreate test_event); (2%nat, OrderCreate test_event);
   (1%nat, Reserve order_1 test_product 6)].

(** tests/test_relaxed.py up to the call that fails: one connection creates
    event, product and order and reserves 3, 3 and 3 of the 10 tickets. *)
Definition relaxed : list (nat * Call) :=
  [(0%nat, EventEnsure "test-event");
   (0%nat, ProductEnsure test_event "test-product" 10);
   (0%nat, OrderCreate test_event);
   (0%nat, Reserve order_1 test_product 3);
   (0%nat, Reserve order_1 test_product 3);
   (0%nat, Reserve order_1 test_product 3)].

(** One buyer has created an order in an open transaction. *)
Definition one_buyer : list (nat * Call) :=
  setup ++ [(1%nat, OrderCreate test_event)].

(** ** Unique keys

    What the unique constraints of [events (slug)] and
    [products (event_id, slug)] and the identity column of [orders] amount
    to, for the committed rows, for the rows of each open transaction and
    between transactions. *)

Definition product_key (p : products_row) : Z * string := (pr_event_id p, pr_slug p).

Record keys_ok (s : DB) (t : Tx) : Prop := mk_keys_ok
  { ko_events : List.NoDup (List.map ev_slug (db_events s ++ tx_events t));
    ko_products : List.NoDup (List.map product_key (db_products s ++ tx_products t));
    ko_orders : List.NoDup (List.map or_id (db_orders s ++ tx_orders t));
    ko_seq_orders : forall o, In o (tx_orders t) -> or_id o < seq_orders s }.

Record Keys (s : DB) : Prop := mk_keys
  { keys_tx : forall c t, db_tx s !! c = Some t -> keys_ok s t;
    keys_sep : forall c1 c2 t1 t2, c1 <> c2 ->
        db_tx s !! c1 = Some t1 -> db_tx s !! c2 = Some t2 ->
        disjoint (List.map ev_slug (tx_events t1)) (List.map ev_slug (tx_events t2)) /\
        disjoint (List.map product_key (tx_products t1))
                 (List.map product_key (tx_products t2)) /\
        disjoint (List.map or_id (tx_orders t1)) (List.map or_id (tx_orders t2));
    keys_events : List.NoDup (List.map ev_slug (db_events s));
    keys_products : List.NoDup (List.map product_key (db_products s));
    keys_orders : List.NoDup (List.map or_id (db_orders s));
    keys_seq_orders : forall o, In o (db_orders s) -> or_id o < seq_orders s }.

(** ** Tickets taken

    Ticket [x] is taken for connection [c]: the open transaction of [c] has
    claimed it, or it is committed with an order. *)
Definition taken (c : nat) (x : Z) (s : DB) : Prop :=
  In x (List.map tk_id (tx_updated (tx_of c s))) \/
  exists r, In r (db_tickets s) /\ tk_id r = x /\ tk_order_id r <> None.

(** Ticket [x] is locked by the open transaction of connection [c]. *)
Definition locked_by (c : nat) (x : Z) (s : DB) : Prop :=
  exists t, db_tx s !! c = Some t /\ In x (tx_locks t).

(** * Properties *)

(** ** The store *)

Lemma tx_of_some c s t : db_tx s !! c = Some t -> tx_of c s = t.
Proof. unfold tx_of. now intros ->. Qed.

Lemma tx_of_none c s : db_tx s !! c = None -> tx_of c s = empty_tx.
Proof. unfold tx_of. now intros ->. Qed.

Lemma tx_of_put c t se sp so st s : tx_of c (put c t se sp so st s) = t.
Proof. unfold tx_of, put. simpl. now rewrite lookup_insert_eq. Qed.

Lemma tx_of_put_ne c c' t se sp so st s :
  c <> c' -> tx_of c' (put c t se sp so st s) = tx_of c' s.
Proof. intros H. unfold tx_of, put. simpl. now rewrite lookup_insert_ne. Qed.

Lemma put_put c t1 t2 se1 sp1 so1 st1 se2 sp2 so2 st2 s :
  put c t2 se2 sp2 so2 st2 (put c t1 se1 sp1 so1 st1 s) = put c t2 se2 sp2 so2 st2 s.
Proof. unfold put. simpl. now rewrite insert_insert_eq. Qed.

Lemma autobegin_put c s :
  autobegin c s =
  put c (tx_of c s) (seq_events s) (seq_products s) (seq_orders s) (seq_tickets s) s.
Proof.
  unfold autobegin, put, tx_of, with_txs. destruct (db_tx s !! c) as [t|] eqn:E; simpl.
  - rewrite insert_id by exact E. now destruct s.
  - reflexivity.
Qed.

Lemma add_event_put c r s :
  add_event c r s =
  put c (tx_add_event r (tx_of c s))
      (seq_events s + 1) (seq_products s) (seq_orders s) (seq_tickets s) s.
Proof. reflexivity. Qed.

Lemma add_product_put c r s :
  add_product c r s =
  put c (tx_add_product r (tx_of c s))
      (seq_events s) (seq_products s + 1) (seq_orders s) (seq_tickets s) s.
Proof. reflexivity. Qed.

Lemma add_order_put c r s :
  add_order c r s =
  put c (tx_add_order r (tx_of c s))
      (seq_events s) (seq_products s) (seq_orders s + 1) (seq_tickets s) s.
Proof. reflexivity. Qed.

Lemma add_tickets_put c rs s :
  add_tickets c rs s =
  put c (tx_add_tickets rs (tx_of c s))
      (seq_events s) (seq_products s) (seq_orders s)
      (seq_tickets s + Z.of_nat (length rs)) s.
Proof. reflexivity. Qed.

Lemma add_updated_put c rs s :
  add_updated c rs s =
  put c (tx_add_updated rs (tx_of c s))
      (seq_events s) (seq_products s) (seq_orders s) (seq_tickets s) s.
Proof. reflexivity. Qed.

Lemma add_locked_put c ids s :
  add_locked c ids s =
  put c (tx_add_locked ids (tx_of c s))
      (seq_events s) (seq_products s) (seq_orders s) (seq_tickets s) s.
Proof. reflexivity. Qed.

Lemma others_spec c s t :
  In t (others c s) <-> exists c', c' <> c /\ db_tx s !! c' = Some t.
Proof.
  unfold others. rewrite in_map_iff. split.
  - intros [[c' t'] [E H]]. simpl in E. subst t'.
    apply filter_In in H as [H1 H2]. simpl in H2.
    apply list_elem_of_In, elem_of_map_to_list in H1.
    exists c'. split; [|exact H1].
    apply negb_true_iff, Nat.eqb_neq in H2. exact H2.
  - intros (c' & Hne & H). exists (c', t). split; [reflexivity|].
    apply filter_In. split.
    + now apply list_elem_of_In, elem_of_map_to_list.
    + simpl. now apply negb_true_iff, Nat.eqb_neq.
Qed.

Lemma locked_elsewhere_spec c s tid :
  locked_elsewhere c s tid = true <->
  exists c' t, c' <> c /\ db_tx s !! c' = Some t /\ In tid (tx_locks t).
Proof.
  unfold locked_elsewhere. rewrite existsb_exists. split.
  - intros (t & Ht & Hl). apply others_spec in Ht as (c' & Hne & Hc').
    apply existsb_exists in Hl as (x & Hx & E). apply Z.eqb_eq in E. subst x.
    eauto.
  - intros (c' & t & Hne & Hc' & Hl). exists t. split.
    + apply others_spec. eauto.
    + apply existsb_exists. exists tid. split; [exact Hl|apply Z.eqb_refl].
Qed.

Lemma others_put c t se sp so st s x :
  In x (others c (put c t se sp so st s)) <-> In x (others c s).
Proof.
  rewrite !others_spec. unfold put. simpl.
  split; intros (c' & Hne & H); exists c'; (split; [exact Hne|]).
  - now rewrite lookup_insert_ne in H by congruence.
  - now rewrite lookup_insert_ne by congruence.
Qed.

Lemma existsb_ext_in {A} (f : A -> bool) (l1 l2 : list A) :
  (forall x, In x l1 <-> In x l2) -> existsb f l1 = existsb f l2.
Proof.
  intros H. apply eq_true_iff_eq. rewrite !existsb_exists.
  split; intros (x & Hx & Hf); exists x; (split; [now apply H|exact Hf]).
Qed.

Lemma locked_elsewhere_put c t se sp so st s tid :
  locked_elsewhere c (put c t se sp so st s) tid = locked_elsewhere c s tid.
Proof. unfold locked_elsewhere. apply existsb_ext_in. intros x. apply others_put. Qed.

(** ** Row versions and counting *)

Lemma find_id_none U x :
  List.find (fun u => tk_id u =? x) U = None <-> ~ In x (List.map tk_id U).
Proof.
  induction U as [|u U IH]; simpl.
  - tauto.
  - destruct (tk_id u =? x) eqn:E.
    + apply Z.eqb_eq in E. split; [discriminate|]. intros H. exfalso. apply H. now left.
    + apply Z.eqb_neq in E. rewrite IH. tauto.
Qed.

Lemma find_id_some U x u :
  List.find (fun u => tk_id u =? x) U = Some u -> In u U /\ tk_id u = x.
Proof.
  intros H. apply find_some in H as [H1 H2]. apply Z.eqb_eq in H2. auto.
Qed.

Lemma new_version_nil r : new_version [] r = r.
Proof. reflexivity. Qed.

Lemma new_version_id U r : tk_id (new_version U r) = tk_id r.
Proof.
  unfold new_version. destruct (List.find _ U) as [u|] eqn:E; [|reflexivity].
  now apply find_id_some in E.
Qed.

Lemma new_version_miss U r : ~ In (tk_id r) (List.map tk_id U) -> new_version U r = r.
Proof. intros H. unfold new_version. apply find_id_none in H. now rewrite H. Qed.

Lemma new_version_cons_ne u U r :
  tk_id u <> tk_id r -> new_version (u :: U) r = new_version U r.
Proof. intros H. unfold new_version. simpl. apply Z.eqb_neq in H. now rewrite H. Qed.

Lemma new_version_cons_eq u U r :
  tk_id u = tk_id r -> new_version (u :: U) r = u.
Proof. intros H. unfold new_version. simpl. apply Z.eqb_eq in H. now rewrite H. Qed.

Lemma map_new_version_ids U l :
  List.map tk_id (List.map (new_version U) l) = List.map tk_id l.
Proof. rewrite map_map. apply map_ext. intros r. apply new_version_id. Qed.

Lemma map_new_version_nil l : List.map (new_version []) l = l.
Proof. rewrite <- (map_id l) at 2. apply map_ext. intros. apply new_version_nil. Qed.

Lemma map_new_version_miss U l :
  disjoint (List.map tk_id l) (List.map tk_id U) -> List.map (new_version U) l = l.
Proof.
  intros H. rewrite <- (map_id l) at 2. apply map_ext_in. intros r Hr.
  apply new_version_miss. apply H. now apply in_map.
Qed.

Lemma map_new_version_cons_ne u U l :
  ~ In (tk_id u) (List.map tk_id l) ->
  List.map (new_version (u :: U)) l = List.map (new_version U) l.
Proof.
  intros H. apply map_ext_in. intros r Hr. apply new_version_cons_ne.
  intros E. apply H. rewrite E. now apply in_map.
Qed.

Lemma NoDup_map_eq {A B} (f : A -> B) (l : list A) x y :
  List.NoDup (List.map f l) -> In x l -> In y l -> f x = f y -> x = y.
Proof.
  induction l as [|a l IH]; simpl; [tauto|].
  intros Hnd Hx Hy E. apply NoDup_cons_iff in Hnd as [Hna Hnd].
  destruct Hx as [->|Hx], Hy as [->|Hy]; auto.
  - exfalso. apply Hna. rewrite E. now apply in_map.
  - exfalso. apply Hna. rewrite <- E. now apply in_map.
Qed.

Lemma NoDup_app_parts {A} (l1 l2 : list A) :
  List.NoDup (l1 ++ l2) <-> List.NoDup l1 /\ List.NoDup l2 /\ disjoint l1 l2.
Proof.
  induction l1 as [|a l1 IH]; simpl.
  - split; [intros H; repeat split; auto using List.NoDup_nil; intros x []|tauto].
  - rewrite !NoDup_cons_iff, IH, in_app_iff. unfold disjoint. simpl. split.
    + intros (Hn & H1 & H2 & H3). repeat split; auto.
      intros x [->|Hx]; auto.
    + intros ((Hn & H1) & H2 & H3). repeat split; auto.
      intros [H|H]; auto. now apply (H3 a); auto.
Qed.

Lemma count_tickets_app pid l1 l2 :
  count_tickets pid (l1 ++ l2) = count_tickets pid l1 + count_tickets pid l2.
Proof. unfold count_tickets. rewrite List.filter_app, List.length_app. lia. Qed.

Lemma count_sold_app pid l1 l2 :
  count_sold pid (l1 ++ l2) = count_sold pid l1 + count_sold pid l2.
Proof. unfold count_sold. rewrite List.filter_app, List.length_app. lia. Qed.

Lemma count_free_app pid l1 l2 :
  count_free pid (l1 ++ l2) = count_free pid l1 + count_free pid l2.
Proof. unfold count_free. rewrite List.filter_app, List.length_app. lia. Qed.

Lemma count_split pid l : count_tickets pid l = count_sold pid l + count_free pid l.
Proof.
  unfold count_tickets, count_sold, count_free.
  induction l as [|r l IH]; simpl; [reflexivity|].
  destruct (tk_product_id r =? pid), (is_free r); simpl; lia.
Qed.

Lemma count_tickets_nonneg pid l : 0 <= count_tickets pid l.
Proof. unfold count_tickets. lia. Qed.

Lemma count_sold_nonneg pid l : 0 <= count_sold pid l.
Proof. unfold count_sold. lia. Qed.

Lemma count_free_nonneg pid l : 0 <= count_free pid l.
Proof. unfold count_free. lia. Qed.

Lemma count_tickets_zero pid l :
  (forall r, In r l -> tk_product_id r <> pid) -> count_tickets pid l = 0.
Proof.
  intros H. unfold count_tickets. induction l as [|r l IH]; simpl; [reflexivity|].
  destruct (tk_product_id r =? pid) eqn:E.
  - apply Z.eqb_eq in E. exfalso. now apply (H r); [left|].
  - apply IH. intros r' Hr'. apply H. now right.
Qed.

Lemma count_sold_zero pid l :
  (forall r, In r l -> tk_order_id r = None) -> count_sold pid l = 0.
Proof.
  intros H. unfold count_sold. induction l as [|r l IH]; simpl; [reflexivity|].
  unfold is_free at 1. rewrite (H r) by now left. simpl. rewrite andb_false_r.
  apply IH. intros r' Hr'. apply H. now right.
Qed.

Lemma count_tickets_new_version U l pid :
  (forall r u, In r l -> In u U -> tk_id u = tk_id r -> tk_product_id u = tk_product_id r) ->
  count_tickets pid (List.map (new_version U) l) = count_tickets pid l.
Proof.
  intros H. unfold count_tickets. f_equal.
  induction l as [|r l IH]; simpl; [reflexivity|].
  assert (E : tk_product_id (new_version U r) = tk_product_id r).
  { unfold new_version. destruct (List.find _ U) as [u|] eqn:F; [|reflexivity].
    apply find_id_some in F as [F1 F2]. apply (H r u); auto. now left. }
  rewrite E. destruct (tk_product_id r =? pid); simpl;
    rewrite IH by (intros; eapply H; eauto; now right); reflexivity.
Qed.

Lemma count_sold_cons pid r l :
  count_sold pid (r :: l) =
  (if (tk_product_id r =? pid) && negb (is_free r) then 1 else 0) + count_sold pid l.
Proof.
  unfold count_sold. simpl.
  destruct ((tk_product_id r =? pid) && negb (is_free r)); simpl; lia.
Qed.

Lemma count_tickets_cons pid r l :
  count_tickets pid (r :: l) =
  (if tk_product_id r =? pid then 1 else 0) + count_tickets pid l.
Proof.
  unfold count_tickets. simpl. destruct (tk_product_id r =? pid); simpl; lia.
Qed.

(** Installing the row versions [U], each of a distinct free row of [base],
    sells exactly the rows of [U]. *)
Lemma count_sold_new_version pid base U :
  List.NoDup (List.map tk_id base) ->
  List.NoDup (List.map tk_id U) ->
  (forall u, In u U ->
     tk_order_id u <> None /\
     In (mk_ticket_row (tk_id u) (tk_product_id u) None) base) ->
  count_sold pid (List.map (new_version U) base) =
  count_sold pid base + count_tickets pid U.
Proof.
  intros Hb. induction U as [|u U IH]; intros HU Hbase.
  - rewrite map_new_version_nil. unfold count_tickets. simpl. lia.
  - simpl in HU. apply List.NoDup_cons_iff in HU as [Hu HU].
    destruct (Hbase u (or_introl eq_refl)) as [Hsold Hin].
    specialize (IH HU (fun u' H' => Hbase u' (or_intror H'))).
    apply in_split in Hin as (l1 & l2 & E).
    set (r0 := mk_ticket_row (tk_id u) (tk_product_id u) None) in *.
    assert (Hnd := Hb). rewrite E, map_app in Hnd. simpl in Hnd.
    apply NoDup_app_parts in Hnd as (_ & Hnd2 & Hd).
    apply List.NoDup_cons_iff in Hnd2 as [Hl2 _].
    assert (Hl1 : ~ In (tk_id u) (List.map tk_id l1)).
    { intros H. apply (Hd _ H). now left. }
    rewrite E in IH |- *. rewrite !map_app in *. simpl in *.
    rewrite (new_version_cons_eq u U r0) by reflexivity.
    rewrite (new_version_miss U r0) in IH by exact Hu.
    rewrite !map_new_version_cons_ne by assumption.
    rewrite !count_sold_app, !count_sold_cons in *.
    rewrite count_tickets_cons.
    unfold is_free in *. simpl in IH.
    destruct (tk_order_id u); [|congruence].
    rewrite ?andb_false_r, ?andb_true_r in *. subst r0. simpl.
    rewrite ?andb_false_r. destruct (tk_product_id u =? pid); lia.
Qed.

Lemma disjoint_sym {A} (l1 l2 : list A) : disjoint l1 l2 -> disjoint l2 l1.
Proof. unfold disjoint. intros H x H2 H1. exact (H x H1 H2). Qed.

Lemma disjoint_nil_l {A} (l : list A) : disjoint [] l.
Proof. intros x []. Qed.

Lemma disjoint_nil_r {A} (l : list A) : disjoint l [].
Proof. intros x _ []. Qed.

Lemma disjoint_app_l {A} (l1 l2 l : list A) :
  disjoint (l1 ++ l2) l <-> disjoint l1 l /\ disjoint l2 l.
Proof.
  unfold disjoint. split.
  - intros H. split; intros x Hx; apply H, in_app_iff; auto.
  - intros [H1 H2] x Hx. apply in_app_iff in Hx as [Hx|Hx]; auto.
Qed.

Lemma disjoint_app_r {A} (l l1 l2 : list A) :
  disjoint l (l1 ++ l2) <-> disjoint l l1 /\ disjoint l l2.
Proof.
  unfold disjoint. split.
  - intros H. split; intros x Hx Hx'; apply (H x Hx), in_app_iff; auto.
  - intros [H1 H2] x Hx Hx'. apply in_app_iff in Hx' as [Hx'|Hx'];
      [exact (H1 x Hx Hx')|exact (H2 x Hx Hx')].
Qed.

(** ** The invariant is kept *)

Lemma tx_ok_seq s s' t :
  db_tickets s' = db_tickets s -> db_products s' = db_products s ->
  seq_tickets s <= seq_tickets s' -> seq_products s <= seq_products s' ->
  tx_ok s t -> tx_ok s' t.
Proof.
  intros E1 E2 L1 L2 [H1 H2 H3 H4 H5 H6 H7 H8 H9].
  constructor; rewrite ?E1, ?E2; auto.
  - intros r Hr. specialize (H8 r Hr). lia.
  - intros p Hp. specialize (H9 p Hp). lia.
Qed.

Lemma inv_tx_of c s : Inv s -> tx_ok s (tx_of c s).
Proof.
  intros H. unfold tx_of. destruct (db_tx s !! c) as [t|] eqn:E; simpl.
  - exact (inv_tx s H c t E).
  - constructor; simpl; try (intros ? []).
    + rewrite app_nil_r. exact (inv_ids s H).
    + constructor.
    + apply disjoint_nil_r.
Qed.

Lemma inv_sep_of c c2 t2 s :
  Inv s -> c2 <> c -> db_tx s !! c2 = Some t2 ->
  disjoint (List.map tk_id (tx_tickets (tx_of c s))) (List.map tk_id (tx_tickets t2)) /\
  disjoint (List.map pr_id (tx_products (tx_of c s))) (List.map pr_id (tx_products t2)) /\
  disjoint (List.map tk_id (tx_updated (tx_of c s))) (tx_locks t2) /\
  disjoint (List.map tk_id (tx_updated t2)) (tx_locks (tx_of c s)).
Proof.
  intros H Hne E2. unfold tx_of. destruct (db_tx s !! c) as [t|] eqn:E; simpl.
  - destruct (inv_sep s H c c2 t t2 (not_eq_sym Hne) E E2) as (A & B & C).
    destruct (inv_sep s H c2 c t2 t Hne E2 E) as (_ & _ & D). auto.
  - repeat split; try apply disjoint_nil_l. apply disjoint_nil_r.
Qed.

Lemma put_inv c t se sp so st s :
  Inv s -> seq_products s <= sp -> seq_tickets s <= st ->
  tx_ok (put c t se sp so st s) t ->
  (forall c2 t2, c2 <> c -> db_tx s !! c2 = Some t2 ->
     disjoint (List.map tk_id (tx_tickets t)) (List.map tk_id (tx_tickets t2)) /\
     disjoint (List.map pr_id (tx_products t)) (List.map pr_id (tx_products t2)) /\
     disjoint (List.map tk_id (tx_updated t)) (tx_locks t2) /\
     disjoint (List.map tk_id (tx_updated t2)) (tx_locks t)) ->
  Inv (put c t se sp so st s).
Proof.
  intros H Lp Lt Hok Hsep. constructor; simpl.
  - intros c' t' E. destruct (decide (c = c')) as [->|Hne].
    + rewrite lookup_insert_eq in E. now inversion E; subst.
    + rewrite lookup_insert_ne in E by exact Hne.
      apply (tx_ok_seq s); auto. exact (inv_tx s H c' t' E).
  - intros c1 c2 t1 t2 Hne E1 E2.
    destruct (decide (c = c1)) as [->|N1].
    + rewrite lookup_insert_eq in E1. inversion E1; subst t1.
      rewrite lookup_insert_ne in E2 by exact Hne.
      destruct (Hsep c2 t2 (not_eq_sym Hne) E2) as (A & B & C & _). auto.
    + rewrite lookup_insert_ne in E1 by exact N1.
      destruct (decide (c = c2)) as [->|N2].
      * rewrite lookup_insert_eq in E2. inversion E2; subst t2.
        destruct (Hsep c1 t1 (not_eq_sym N1) E1) as (A & B & _ & D).
        auto using disjoint_sym.
      * rewrite lookup_insert_ne in E2 by exact N2.
        exact (inv_sep s H c1 c2 t1 t2 Hne E1 E2).
  - exact (inv_ids s H).
  - exact (inv_owner s H).
  - exact (inv_balance s H).
  - intros r Hr. pose proof (inv_seq_tickets s H r Hr). lia.
  - intros p Hp. pose proof (inv_seq_products s H p Hp). lia.
Qed.

Lemma tx_ok_ext s t t' :
  tx_tickets t' = tx_tickets t -> tx_products t' = tx_products t ->
  tx_updated t' = tx_updated t -> tx_ok s t -> tx_ok s t'.
Proof.
  intros E1 E2 E3 [H1 H2 H3 H4 H5 H6 H7 H8 H9].
  constructor; rewrite ?E1, ?E2, ?E3; auto.
Qed.

(** A base row is either untouched by the transaction or a free row that the
    transaction has claimed. *)
Lemma view_row_cases s t b :
  tx_ok s t -> In b (db_tickets s ++ tx_tickets t) ->
  (~ In (tk_id b) (List.map tk_id (tx_updated t)) /\ new_version (tx_updated t) b = b) \/
  (exists u, In u (tx_updated t) /\ new_version (tx_updated t) b = u /\
             tk_id u = tk_id b /\ tk_product_id u = tk_product_id b /\
             tk_order_id b = None /\ tk_order_id u <> None).
Proof.
  intros Hok Hb. unfold new_version.
  destruct (List.find _ (tx_updated t)) as [u|] eqn:F.
  - right. apply find_id_some in F as [Fu Fid]. exists u.
    destruct (ok_upd_base s t Hok u Fu) as [Hs Hin].
    assert (E : mk_ticket_row (tk_id u) (tk_product_id u) None = b).
    { apply (NoDup_map_eq tk_id (db_tickets s ++ tx_tickets t)); auto.
      exact (ok_ids s t Hok). }
    rewrite <- E. simpl. repeat split; auto.
  - left. apply find_id_none in F. auto.
Qed.

Lemma autobegin_inv c s : Inv s -> Inv (autobegin c s).
Proof.
  intros H. rewrite autobegin_put. apply put_inv; auto; try lia.
  - apply (tx_ok_seq s); simpl; auto; try lia. now apply inv_tx_of.
  - intros c2 t2 Hne E. now apply (inv_sep_of c c2 t2 s).
Qed.

Lemma put_same_rows_inv c t se so s :
  Inv s ->
  tx_tickets t = tx_tickets (tx_of c s) -> tx_products t = tx_products (tx_of c s) ->
  tx_updated t = tx_updated (tx_of c s) -> tx_locked t = tx_locked (tx_of c s) ->
  Inv (put c t se (seq_products s) so (seq_tickets s) s).
Proof.
  intros H E1 E2 E3 E4. apply put_inv; auto; try lia.
  - apply (tx_ok_seq s); simpl; auto; try lia.
    apply (tx_ok_ext s (tx_of c s)); auto. now apply inv_tx_of.
  - intros c2 t2 Hne E. unfold tx_locks. rewrite E1, E2, E3, E4.
    now apply (inv_sep_of c c2 t2 s).
Qed.

(** Locking rows that no other transaction has locked. *)
Lemma add_locked_inv c ids s :
  Inv s -> (forall x, In x ids -> locked_elsewhere c s x = false) ->
  Inv (put c (tx_add_locked ids (tx_of c s))
           (seq_events s) (seq_products s) (seq_orders s) (seq_tickets s) s).
Proof.
  intros H Hids. apply put_inv; auto; try lia.
  - apply (tx_ok_seq s); simpl; auto; try lia.
    apply (tx_ok_ext s (tx_of c s)); auto. now apply inv_tx_of.
  - intros c2 t2 Hne E. destruct (inv_sep_of c c2 t2 s H Hne E) as (A & B & C & D).
    simpl. repeat split; auto.
    unfold tx_locks in *. simpl. rewrite app_assoc. apply disjoint_app_r. split; auto.
    intros x Hx Hx'. specialize (Hids x Hx').
    assert (L : locked_elsewhere c s x = true).
    { apply locked_elsewhere_spec. exists c2, t2. repeat split; auto.
      apply in_app_iff. now left. }
    congruence.
Qed.

Lemma rollback_inv c s : Inv s -> Inv (rollback c s).
Proof.
  intros H. constructor; simpl.
  - intros c' t' E. apply lookup_delete_Some in E as [_ E].
    apply (tx_ok_seq s); simpl; auto; try lia. exact (inv_tx s H c' t' E).
  - intros c1 c2 t1 t2 Hne E1 E2.
    apply lookup_delete_Some in E1 as [_ E1]. apply lookup_delete_Some in E2 as [_ E2].
    exact (inv_sep s H c1 c2 t1 t2 Hne E1 E2).
  - exact (inv_ids s H).
  - exact (inv_owner s H).
  - exact (inv_balance s H).
  - exact (inv_seq_tickets s H).
  - exact (inv_seq_products s H).
Qed.

Lemma upd_same_product s t r u :
  tx_ok s t -> In r (db_tickets s ++ tx_tickets t) -> In u (tx_updated t) ->
  tk_id u = tk_id r -> tk_product_id u = tk_product_id r.
Proof.
  intros Hok Hr Hu E. destruct (ok_upd_base s t Hok u Hu) as [_ Hin].
  assert (E' : mk_ticket_row (tk_id u) (tk_product_id u) None = r).
  { apply (NoDup_map_eq tk_id (db_tickets s ++ tx_tickets t)); auto.
    exact (ok_ids s t Hok). }
  now rewrite <- E'.
Qed.

Lemma new_version_product s t b :
  tx_ok s t -> In b (db_tickets s ++ tx_tickets t) ->
  tk_product_id (new_version (tx_updated t) b) = tk_product_id b.
Proof.
  intros Hok Hb. destruct (view_row_cases s t b Hok Hb) as [[_ ->]|(u & _ & -> & _ & E & _)];
    auto.
Qed.

Lemma commit_some c s t :
  db_tx s !! c = Some t ->
  commit c s =
  mk_db (db_events s ++ tx_events t) (db_products s ++ tx_products t)
        (db_orders s ++ tx_orders t)
        (List.map (new_version (tx_updated t)) (db_tickets s ++ tx_tickets t))
        (seq_events s) (seq_products s) (seq_orders s) (seq_tickets s)
        (delete c (db_tx s)).
Proof. intros E. unfold commit. now rewrite E. Qed.

Lemma commit_none c s : db_tx s !! c = None -> commit c s = s.
Proof. intros E. unfold commit. now rewrite E. Qed.

Lemma commit_inv c s : Inv s -> Inv (commit c s).
Proof.
  intros H. destruct (db_tx s !! c) as [t|] eqn:Ec;
    [rewrite (commit_some c s t Ec)|now rewrite commit_none].
  pose proof (inv_tx s H c t Ec) as Hok.
  pose proof (ok_ids s t Hok) as Hids.
  rewrite map_app in Hids. apply NoDup_app_parts in Hids as (Hd1 & Hd2 & Hd3).
  constructor; simpl.
  - intros c' t' E. apply lookup_delete_Some in E as [Hne E].
    pose proof (inv_tx s H c' t' E) as Hok'.
    destruct (inv_sep s H c c' t t' Hne Ec E) as (S1 & S2 & S3).
    destruct (inv_sep s H c' c t' t (not_eq_sym Hne) E Ec) as (_ & _ & S4).
    pose proof (ok_ids s t' Hok') as Hids'.
    rewrite map_app in Hids'. apply NoDup_app_parts in Hids' as (_ & Hd2' & Hd3').
    constructor; simpl.
    + rewrite map_app, map_new_version_ids, map_app.
      apply NoDup_app_parts. split; [|split; [exact Hd2'|]].
      * apply NoDup_app_parts. auto.
      * apply disjoint_app_l. split; [exact Hd3'|exact S1].
    + exact (ok_upd_ids s t' Hok').
    + intros u Hu. destruct (ok_upd_base s t' Hok' u Hu) as [Hs Hin].
      split; [exact Hs|]. apply in_app_iff in Hin as [Hin|Hin];
        apply in_app_iff; [left|now right].
      apply in_map_iff. eexists. split; [|apply in_app_iff; left; exact Hin].
      apply new_version_miss. simpl. intros Hx.
      apply (S4 (tk_id u)); [now apply in_map|].
      unfold tx_locks. apply in_app_iff. now left.
    + exact (ok_new_free s t' Hok').
    + exact (ok_owner s t' Hok').
    + exact (ok_balance s t' Hok').
    + rewrite map_app. apply disjoint_app_l. split; [exact (ok_products s t' Hok')|exact S2].
    + exact (ok_seq_tickets s t' Hok').
    + exact (ok_seq_products s t' Hok').
  - intros c1 c2 t1 t2 Hne E1 E2.
    apply lookup_delete_Some in E1 as [_ E1]. apply lookup_delete_Some in E2 as [_ E2].
    exact (inv_sep s H c1 c2 t1 t2 Hne E1 E2).
  - rewrite map_new_version_ids, map_app. apply NoDup_app_parts. auto.
  - intros r Hr. apply in_map_iff in Hr as (b & <- & Hb).
    rewrite (new_version_product s t b Hok Hb).
    apply in_app_iff in Hb as [Hb|Hb].
    + destruct (inv_owner s H b Hb) as (p & Hp & E). exists p. split; [|exact E].
      apply in_app_iff. now left.
    + destruct (ok_owner s t Hok b Hb) as (p & Hp & E). exists p. split; [|exact E].
      apply in_app_iff. now right.
  - intros p Hp.
    rewrite count_tickets_new_version
      by (intros r u Hr Hu E; exact (upd_same_product s t r u Hok Hr Hu E)).
    rewrite count_tickets_app. apply in_app_iff in Hp as [Hp|Hp].
    + rewrite (inv_balance s H p Hp). rewrite (count_tickets_zero (pr_id p) (tx_tickets t)); [lia|].
      intros r Hr E. destruct (ok_owner s t Hok r Hr) as (q & Hq & Eq).
      apply (ok_products s t Hok (pr_id p)); [now apply in_map|].
      rewrite <- E, <- Eq. now apply in_map.
    + rewrite (ok_balance s t Hok p Hp). rewrite (count_tickets_zero (pr_id p) (db_tickets s)); [lia|].
      intros r Hr E. destruct (inv_owner s H r Hr) as (q & Hq & Eq).
      apply (ok_products s t Hok (pr_id q)); [now apply in_map|].
      rewrite Eq, E. now apply in_map.
  - intros r Hr. apply in_map_iff in Hr as (b & <- & Hb). rewrite new_version_id.
    apply in_app_iff in Hb as [Hb|Hb].
    + exact (inv_seq_tickets s H b Hb).
    + exact (ok_seq_tickets s t Hok b Hb).
  - intros p Hp. apply in_app_iff in Hp as [Hp|Hp].
    + exact (inv_seq_products s H p Hp).
    + exact (ok_seq_products s t Hok p Hp).
Qed.

Lemma NoDup_map_filter {A B} (f : A -> B) (p : A -> bool) l :
  List.NoDup (List.map f l) -> List.NoDup (List.map f (List.filter p l)).
Proof.
  induction l as [|a l IH]; simpl; [auto|]. intros H.
  apply List.NoDup_cons_iff in H as [H1 H2]. destruct (p a); simpl; auto.
  apply List.NoDup_cons_iff. split; auto.
  intros Hin. apply H1. apply in_map_iff in Hin as (x & E & Hx).
  apply filter_In in Hx as [Hx _]. rewrite <- E. now apply in_map.
Qed.

Lemma firstn_In {A} n (l : list A) x : In x (firstn n l) -> In x l.
Proof.
  revert l. induction n as [|n IH]; intros [|a l]; simpl; try tauto.
  intros [->|H]; auto.
Qed.

Lemma NoDup_map_firstn {A B} (f : A -> B) n l :
  List.NoDup (List.map f l) -> List.NoDup (List.map f (firstn n l)).
Proof.
  revert l. induction n as [|n IH]; intros [|a l]; simpl; auto using List.NoDup_nil.
  intros H. apply List.NoDup_cons_iff in H as [H1 H2].
  apply List.NoDup_cons_iff. split; auto.
  intros Hin. apply H1. apply in_map_iff in Hin as (x & E & Hx).
  rewrite <- E. apply in_map. eapply firstn_In; eauto.
Qed.

Lemma view_tickets_ids c s :
  List.map tk_id (view_tickets c s) =
  List.map tk_id (db_tickets s ++ tx_tickets (tx_of c s)).
Proof. unfold view_tickets. apply map_new_version_ids. Qed.

Lemma free_unlocked_in c s pid r :
  In r (free_unlocked c s pid) <->
  In r (view_tickets c s) /\ tk_product_id r = pid /\ tk_order_id r = None /\
  locked_elsewhere c s (tk_id r) = false.
Proof.
  unfold free_unlocked. rewrite filter_In, !andb_true_iff, negb_true_iff, Z.eqb_eq.
  unfold is_free. destruct (tk_order_id r); intuition congruence.
Qed.

Lemma free_view_row s t r :
  tx_ok s t ->
  In r (List.map (new_version (tx_updated t)) (db_tickets s ++ tx_tickets t)) ->
  tk_order_id r = None ->
  In r (db_tickets s ++ tx_tickets t) /\ ~ In (tk_id r) (List.map tk_id (tx_updated t)).
Proof.
  intros Hok Hr Hfree. apply in_map_iff in Hr as (b & E & Hb).
  destruct (view_row_cases s t b Hok Hb) as [[Hn Hv]|(u & _ & Hv & _ & _ & _ & Hs)].
  - rewrite Hv in E. subst b. auto.
  - rewrite Hv in E. subst u. contradiction.
Qed.

Lemma ticket_row_eta r :
  tk_order_id r = None -> mk_ticket_row (tk_id r) (tk_product_id r) None = r.
Proof. destruct r; simpl. now intros ->. Qed.

Lemma not_locked_elsewhere c c2 t2 s x :
  locked_elsewhere c s x = false -> c2 <> c -> db_tx s !! c2 = Some t2 ->
  ~ In x (tx_locks t2).
Proof.
  intros L Hne E Hin.
  assert (L' : locked_elsewhere c s x = true)
    by (apply locked_elsewhere_spec; eauto).
  congruence.
Qed.

(** Claiming free rows that no other transaction has locked. *)
Lemma add_updated_inv c pid oid R s :
  Inv s -> (forall r, In r R -> In r (free_unlocked c s pid)) ->
  List.NoDup (List.map tk_id R) ->
  Inv (put c (tx_add_updated (List.map (set_order oid) R) (tx_of c s))
           (seq_events s) (seq_products s) (seq_orders s) (seq_tickets s) s).
Proof.
  intros H HR Hnd. pose proof (inv_tx_of c s H) as Hok.
  assert (Hids : List.map tk_id (List.map (set_order oid) R) = List.map tk_id R).
  { rewrite map_map. now apply map_ext. }
  assert (Hfree : forall r, In r R ->
            In r (db_tickets s ++ tx_tickets (tx_of c s)) /\
            ~ In (tk_id r) (List.map tk_id (tx_updated (tx_of c s))) /\
            tk_order_id r = None /\ locked_elsewhere c s (tk_id r) = false).
  { intros r Hr. apply HR, free_unlocked_in in Hr as (Hv & _ & Hf & Hl).
    destruct (free_view_row s (tx_of c s) r Hok Hv Hf). auto. }
  apply put_inv; auto; try lia.
  - destruct Hok as [H1 H2 H3 H4 H5 H6 H7 H8 H9]. constructor; simpl; auto.
    + rewrite map_app, Hids. apply NoDup_app_parts. repeat split; auto.
      intros x Hx. apply in_map_iff in Hx as (r & <- & Hr). now apply Hfree.
    + intros u Hu. apply in_app_iff in Hu as [Hu|Hu]; [|now apply H3].
      apply in_map_iff in Hu as (r & <- & Hr). simpl. split; [discriminate|].
      destruct (Hfree r Hr) as (Hb & _ & Hf & _). now rewrite ticket_row_eta.
  - intros c2 t2 Hne E. destruct (inv_sep_of c c2 t2 s H Hne E) as (A & B & C & D).
    simpl. repeat split; auto.
    + rewrite map_app, Hids. apply disjoint_app_l. split; [|exact C].
      intros x Hx. apply in_map_iff in Hx as (r & <- & Hr).
      destruct (Hfree r Hr) as (_ & _ & _ & Hl).
      exact (not_locked_elsewhere c c2 t2 s _ Hl Hne E).
    + unfold tx_locks in *. simpl. rewrite map_app, Hids, <- app_assoc.
      apply disjoint_app_r. split; [|exact D].
      intros x Hx Hx'. apply in_map_iff in Hx' as (r & <- & Hr).
      destruct (Hfree r Hr) as (_ & _ & _ & Hl).
      apply (not_locked_elsewhere c c2 t2 s _ Hl Hne E).
      apply in_app_iff. now left.
Qed.

Lemma fresh_tickets_in pid first n r :
  In r (fresh_tickets pid first n) <->
  exists i, (i < n)%nat /\ r = mk_ticket_row (first + Z.of_nat i) pid None.
Proof.
  unfold fresh_tickets. rewrite in_map_iff. split.
  - intros (i & E & Hi). apply in_seq in Hi. exists i. split; [lia|auto].
  - intros (i & Hi & E). exists i. split; [auto|]. apply in_seq. lia.
Qed.

Lemma fresh_tickets_length pid first n : length (fresh_tickets pid first n) = n.
Proof. unfold fresh_tickets. now rewrite length_map, length_seq. Qed.

Lemma fresh_tickets_ids pid first n :
  List.NoDup (List.map tk_id (fresh_tickets pid first n)).
Proof.
  unfold fresh_tickets. rewrite map_map. simpl.
  apply Finite.Injective_map_NoDup; [|apply List.seq_NoDup].
  intros i j E. lia.
Qed.

Lemma fresh_tickets_count pid first n :
  count_tickets pid (fresh_tickets pid first n) = Z.of_nat n.
Proof.
  unfold count_tickets. f_equal. rewrite <- (fresh_tickets_length pid first n) at 2.
  f_equal. apply forallb_filter_id. apply forallb_forall. intros r Hr.
  apply fresh_tickets_in in Hr as (i & _ & ->). simpl. apply Z.eqb_refl.
Qed.

Lemma db_ticket_product_bound s r :
  Inv s -> In r (db_tickets s) -> tk_product_id r < seq_products s.
Proof.
  intros H Hr. destruct (inv_owner s H r Hr) as (p & Hp & <-).
  exact (inv_seq_products s H p Hp).
Qed.

Lemma tx_ticket_product_bound s t r :
  tx_ok s t -> In r (tx_tickets t) -> tk_product_id r < seq_products s.
Proof.
  intros H Hr. destruct (ok_owner s t H r Hr) as (p & Hp & <-).
  exact (ok_seq_products s t H p Hp).
Qed.

(** Inserting a product row together with all its tickets. *)
Lemma add_product_tickets_inv c eid slug quota n se so s :
  Inv s -> Z.of_nat n = Z.max 0 quota ->
  Inv (put c (tx_add_tickets (fresh_tickets (seq_products s) (seq_tickets s) n)
                (tx_add_product (mk_product_row (seq_products s) eid slug quota)
                                (tx_of c s)))
           se (seq_products s + 1) so (seq_tickets s + Z.of_nat n) s).
Proof.
  intros H Hn. pose proof (inv_tx_of c s H) as Hok.
  set (F := fresh_tickets (seq_products s) (seq_tickets s) n).
  assert (HF : forall r, In r F ->
            seq_tickets s <= tk_id r < seq_tickets s + Z.of_nat n /\
            tk_product_id r = seq_products s /\ tk_order_id r = None).
  { intros r Hr. apply fresh_tickets_in in Hr as (i & Hi & ->). simpl.
    repeat split; auto; lia. }
  assert (HFid : forall x, In x (List.map tk_id F) -> seq_tickets s <= x).
  { intros x Hx. apply in_map_iff in Hx as (r & <- & Hr). now apply HF. }
  apply put_inv; auto; try lia.
  - destruct Hok as [H1 H2 H3 H4 H5 H6 H7 H8 H9]. constructor; simpl.
    + rewrite app_assoc, map_app. apply NoDup_app_parts.
      split; [exact H1|]. split; [apply fresh_tickets_ids|].
      intros x Hx Hx'. apply HFid in Hx'.
      apply in_map_iff in Hx as (r & <- & Hr). apply in_app_iff in Hr as [Hr|Hr].
      * pose proof (inv_seq_tickets s H r Hr). lia.
      * pose proof (H8 r Hr). lia.
    + exact H2.
    + intros u Hu. destruct (H3 u Hu) as [A B]. split; [exact A|].
      rewrite app_assoc. apply in_app_iff. now left.
    + intros r Hr. apply in_app_iff in Hr as [Hr|Hr]; [now apply H4|now apply HF].
    + intros r Hr. apply in_app_iff in Hr as [Hr|Hr].
      * destruct (H5 r Hr) as (p & Hp & E). exists p. split; [|exact E].
        apply in_app_iff. now left.
      * eexists. split; [apply in_app_iff; right; left; reflexivity|]. simpl.
        symmetry. now apply HF.
    + intros p Hp. rewrite count_tickets_app. apply in_app_iff in Hp as [Hp|[<-|[]]].
      * rewrite (H6 p Hp). rewrite (count_tickets_zero (pr_id p) F); [lia|].
        intros r Hr E. apply HF in Hr as (_ & E' & _). pose proof (H9 p Hp). lia.
      * simpl. unfold F. rewrite fresh_tickets_count.
        rewrite count_tickets_zero; [lia|].
        intros r Hr E. destruct (H5 r Hr) as (p & Hp & E'). pose proof (H9 p Hp). lia.
    + rewrite map_app. apply disjoint_app_r. split; [exact H7|].
      intros x Hx [<-|[]]. apply in_map_iff in Hx as (p & E & Hp). simpl in E.
      pose proof (inv_seq_products s H p Hp). lia.
    + intros r Hr. apply in_app_iff in Hr as [Hr|Hr].
      * pose proof (H8 r Hr). lia.
      * apply HF in Hr. lia.
    + intros p Hp. apply in_app_iff in Hp as [Hp|[<-|[]]].
      * pose proof (H9 p Hp). lia.
      * simpl. lia.
  - intros c2 t2 Hne E. destruct (inv_sep_of c c2 t2 s H Hne E) as (A & B & C & D).
    pose proof (inv_tx s H c2 t2 E) as Hok2.
    simpl. repeat split; auto.
    + rewrite map_app. apply disjoint_app_l. split; [exact A|].
      intros x Hx Hx'. apply HFid in Hx. apply in_map_iff in Hx' as (r & <- & Hr).
      pose proof (ok_seq_tickets s t2 Hok2 r Hr). lia.
    + rewrite map_app. apply disjoint_app_l. split; [exact B|].
      intros x [<-|[]] Hx'. apply in_map_iff in Hx' as (p & E' & Hp). simpl in E'.
      pose proof (ok_seq_products s t2 Hok2 p Hp). lia.
Qed.

(** ** What each statement and each call does *)

Lemma tx_of_autobegin c c' s : tx_of c' (autobegin c s) = tx_of c' s.
Proof.
  rewrite autobegin_put. destruct (decide (c = c')) as [->|Hne].
  - apply tx_of_put.
  - now apply tx_of_put_ne.
Qed.

Lemma lookup_autobegin c s : db_tx (autobegin c s) !! c = Some (tx_of c s).
Proof. rewrite autobegin_put. unfold put. simpl. apply lookup_insert_eq. Qed.

Lemma lookup_autobegin_ne c c' s :
  c <> c' -> db_tx (autobegin c s) !! c' = db_tx s !! c'.
Proof. intros H. rewrite autobegin_put. unfold put. simpl. now apply lookup_insert_ne. Qed.

Lemma view_events_autobegin c c' s : view_events c' (autobegin c s) = view_events c' s.
Proof. unfold view_events. rewrite tx_of_autobegin, autobegin_put. reflexivity. Qed.

Lemma view_products_autobegin c c' s :
  view_products c' (autobegin c s) = view_products c' s.
Proof. unfold view_products. rewrite tx_of_autobegin, autobegin_put. reflexivity. Qed.

Lemma view_orders_autobegin c c' s : view_orders c' (autobegin c s) = view_orders c' s.
Proof. unfold view_orders. rewrite tx_of_autobegin, autobegin_put. reflexivity. Qed.

Lemma view_tickets_autobegin c c' s :
  view_tickets c' (autobegin c s) = view_tickets c' s.
Proof. unfold view_tickets. rewrite tx_of_autobegin, autobegin_put. reflexivity. Qed.

Lemma locked_elsewhere_autobegin c s x :
  locked_elsewhere c (autobegin c s) x = locked_elsewhere c s x.
Proof. rewrite autobegin_put. apply locked_elsewhere_put. Qed.

Lemma others_autobegin c s x : In x (others c (autobegin c s)) <-> In x (others c s).
Proof. rewrite autobegin_put. apply others_put. Qed.

Lemma free_unlocked_autobegin c s pid :
  free_unlocked c (autobegin c s) pid = free_unlocked c s pid.
Proof.
  unfold free_unlocked. rewrite view_tickets_autobegin.
  apply filter_ext. intros r. now rewrite locked_elsewhere_autobegin.
Qed.

Lemma autobegin_idem c s : autobegin c (autobegin c s) = autobegin c s.
Proof. unfold autobegin at 1. now rewrite lookup_autobegin. Qed.

Lemma seqs_autobegin c s :
  seq_events (autobegin c s) = seq_events s /\
  seq_products (autobegin c s) = seq_products s /\
  seq_orders (autobegin c s) = seq_orders s /\
  seq_tickets (autobegin c s) = seq_tickets s.
Proof. rewrite autobegin_put. simpl. auto. Qed.

(** The state after [Ticket.reserve] has claimed the rows [R]. *)
Lemma add_updated_autobegin c rs s :
  add_updated c rs (autobegin c s) =
  put c (tx_add_updated rs (tx_of c s))
      (seq_events s) (seq_products s) (seq_orders s) (seq_tickets s) s.
Proof.
  rewrite add_updated_put, tx_of_autobegin. rewrite autobegin_put at 5.
  rewrite put_put. destruct (seqs_autobegin c s) as (-> & -> & -> & ->). reflexivity.
Qed.

Lemma add_locked_autobegin c ids s :
  add_locked c ids (autobegin c s) =
  put c (tx_add_locked ids (tx_of c s))
      (seq_events s) (seq_products s) (seq_orders s) (seq_tickets s) s.
Proof.
  rewrite add_locked_put, tx_of_autobegin. rewrite autobegin_put at 5.
  rewrite put_put. destruct (seqs_autobegin c s) as (-> & -> & -> & ->). reflexivity.
Qed.

Lemma add_event_autobegin c r s :
  add_event c r (autobegin c s) =
  put c (tx_add_event r (tx_of c s))
      (seq_events s + 1) (seq_products s) (seq_orders s) (seq_tickets s) s.
Proof.
  rewrite add_event_put, tx_of_autobegin. rewrite autobegin_put at 5.
  rewrite put_put. destruct (seqs_autobegin c s) as (-> & -> & -> & ->). reflexivity.
Qed.

Lemma add_order_autobegin c r s :
  add_order c r (autobegin c s) =
  put c (tx_add_order r (tx_of c s))
      (seq_events s) (seq_products s) (seq_orders s + 1) (seq_tickets s) s.
Proof.
  rewrite add_order_put, tx_of_autobegin. rewrite autobegin_put at 5.
  rewrite put_put. destruct (seqs_autobegin c s) as (-> & -> & -> & ->). reflexivity.
Qed.

Lemma add_product_autobegin c r s :
  add_product c r (autobegin c s) =
  put c (tx_add_product r (tx_of c s))
      (seq_events s) (seq_products s + 1) (seq_orders s) (seq_tickets s) s.
Proof.
  rewrite add_product_put, tx_of_autobegin. rewrite autobegin_put at 5.
  rewrite put_put. destruct (seqs_autobegin c s) as (-> & -> & -> & ->). reflexivity.
Qed.

Lemma reserve_eq c order product quantity s :
  Ticket.reserve c order product quantity s =
  if quantity <? 0 then (Raise InvalidRowCountInLimitClause, autobegin c s)
  else
    let R := firstn (Z.to_nat quantity) (free_unlocked c s (Product.id product)) in
    match R with
    | [] => (if 0 <? quantity then Raise NotEnoughTickets else Ok [], autobegin c s)
    | _ :: _ =>
        if order_known c (Order.id order) s
        then (if Z.of_nat (length R) <? quantity then Raise NotEnoughTickets
              else Ok (List.map (ticket_of order product) (List.map tk_id R)),
              claimed c (Order.id order) R s)
        else (Raise ForeignKeyViolation, autobegin c s)
    end.
Proof.
  unfold Ticket.reserve, bind, execute, update_reserved_returning_id.
  rewrite free_unlocked_autobegin, view_orders_autobegin.
  destruct (quantity <? 0); [reflexivity|]. simpl.
  destruct (firstn (Z.to_nat quantity) (free_unlocked c s (Product.id product)))
    as [|r R] eqn:E.
  - change (Z.of_nat (length (@nil Z))) with 0.
    destruct (0 <? quantity); reflexivity.
  - unfold order_known. destruct (existsb _ (view_orders c s)); cbn [negb];
      [|reflexivity].
    rewrite add_updated_autobegin, length_map. unfold claimed.
    destruct (Z.of_nat (length (r :: R)) <? quantity); reflexivity.
Qed.

Lemma event_ensure_eq c slug s :
  Event.ensure c slug s =
  if existsb (same_event_key slug) (view_events c s)
  then (Raise TypeError, autobegin c s)
  else if event_pending_elsewhere c slug s then (Blocked, autobegin c s)
  else (Ok (Event.mk (seq_events s) slug),
        put c (tx_add_event (mk_event_row (seq_events s) slug) (tx_of c s))
            (seq_events s + 1) (seq_products s) (seq_orders s) (seq_tickets s) s).
Proof.
  unfold Event.ensure, ensure_row, bind, execute, insert_on_conflict_do_nothing.
  cbn [List.map fst kwarg List.find String.eqb Ascii.eqb Bool.eqb option_map snd].
  rewrite bool_decide_eq_true_2 by reflexivity. cbn [negb].
  rewrite view_events_autobegin.
  destruct (existsb (same_event_key slug) (view_events c s)); [reflexivity|].
  unfold event_pending_elsewhere.
  rewrite (existsb_ext_in _ (others c (autobegin c s)) (others c s))
    by (intros x; apply others_autobegin).
  destruct (existsb _ (others c s)); [reflexivity|].
  destruct (seqs_autobegin c s) as (-> & _).
  cbn. now rewrite add_event_autobegin.
Qed.

Lemma get_row_state c table_name kwargs s :
  snd (get_row c table_name kwargs s) = autobegin c s.
Proof.
  unfold get_row, bind, execute, select_where_limit_2.
  destruct (negb _ || _); [reflexivity|].
  destruct (1 <? length _)%nat; [reflexivity|].
  destruct (firstn 2 _); reflexivity.
Qed.

Lemma bind_state_const {A B} (m : M A) (k : A -> M B) s s1 :
  snd (m s) = s1 -> (forall a s', snd (k a s') = s') -> snd (bind m k s) = s1.
Proof.
  unfold bind. intros E Hk. destruct (m s) as [[a|e|] s']; simpl in *; subst; auto.
Qed.

Lemma event_of_row_state row s : snd (Event.of_row row s) = s.
Proof.
  unfold Event.of_row.
  destruct row as [| | |[|[] [|[] [|]]]]; reflexivity.
Qed.

Lemma product_of_row_state row s : snd (Product.of_row row s) = s.
Proof.
  unfold Product.of_row.
  destruct row as [| | |[|[] [|[] [|[] [|[] [|]]]]]]; reflexivity.
Qed.

Lemma event_get_state c slug s : snd (Event.get c slug s) = autobegin c s.
Proof.
  unfold Event.get. apply bind_state_const.
  - apply get_row_state.
  - intros. apply event_of_row_state.
Qed.

Lemma product_get_state c event slug s : snd (Product.get c event slug s) = autobegin c s.
Proof.
  unfold Product.get. apply bind_state_const.
  - apply get_row_state.
  - intros. apply product_of_row_state.
Qed.

Lemma count_free_eq c product s :
  Ticket.count_free c product s =
  (Ok (count_free (Product.id product) (view_tickets c s)), autobegin c s).
Proof.
  unfold Ticket.count_free, bind, execute, select_count_free, ret, count_free.
  now rewrite view_tickets_autobegin.
Qed.

Lemma order_create_eq c event s :
  Order.create c event s =
  if event_known c (Event.id event) s
  then (Ok (Order.mk (seq_orders s) (Event.id event)),
        put c (tx_add_order (mk_order_row (seq_orders s) (Event.id event)) (tx_of c s))
            (seq_events s) (seq_products s) (seq_orders s + 1) (seq_tickets s) s)
  else (Raise ForeignKeyViolation, autobegin c s).
Proof.
  unfold Order.create, bind, execute, insert_order_returning_id, event_known.
  rewrite view_events_autobegin.
  destruct (existsb _ (view_events c s)); cbn [negb]; [|reflexivity].
  destruct (seqs_autobegin c s) as (_ & _ & -> & _).
  now rewrite add_order_autobegin.
Qed.

Lemma availability_eq c event s :
  Product.get_products_with_availability c event s =
  (Ok (List.map (fun pt => (Product.mk (pr_id (fst pt)) (Event.id event)
                                       (pr_slug (fst pt)) (pr_quota (fst pt)),
                            match snd pt with Some _ => true | None => false end))
                (probe c (Event.id event) s)),
   put c (tx_add_locked (probe_locks (probe c (Event.id event) s)) (tx_of c s))
       (seq_events s) (seq_products s) (seq_orders s) (seq_tickets s) s).
Proof.
  unfold Product.get_products_with_availability, bind, execute,
    select_products_available, ret.
  rewrite view_products_autobegin.
  assert (E : List.map (fun p => (p, hd_error (free_unlocked c (autobegin c s) (pr_id p))))
                (List.filter (fun p => pr_event_id p =? Event.id event) (view_products c s))
              = probe c (Event.id event) s).
  { unfold probe. apply map_ext. intros p. now rewrite free_unlocked_autobegin. }
  rewrite E. rewrite add_locked_autobegin. rewrite map_map. reflexivity.
Qed.

Lemma ensure_tickets_eq c self s :
  Product.ensure_tickets c self s =
  let count := count_tickets (Product.id self) (view_tickets c s) in
  if count =? Product.quota self then (Ok tt, autobegin c s)
  else if count >? Product.quota self then (Raise NotImplementedError, autobegin c s)
  else if product_known c (Product.id self) s
  then (Ok tt,
        put c (tx_add_tickets
                 (fresh_tickets (Product.id self) (seq_tickets s)
                                (Z.to_nat (Product.quota self - count)))
                 (tx_of c s))
            (seq_events s) (seq_products s) (seq_orders s)
            (seq_tickets s + Z.of_nat (Z.to_nat (Product.quota self - count))) s)
  else (Raise ForeignKeyViolation, autobegin c s).
Proof.
  unfold Product.ensure_tickets, bind, execute, select_count_tickets.
  rewrite view_tickets_autobegin. fold (count_tickets (Product.id self) (view_tickets c s)).
  cbv zeta.
  set (count := count_tickets (Product.id self) (view_tickets c s)).
  destruct (count =? Product.quota self) eqn:E1; [reflexivity|].
  destruct (count >? Product.quota self) eqn:E2; [reflexivity|].
  unfold insert_tickets_generate_series. rewrite autobegin_idem.
  apply Z.eqb_neq in E1. rewrite Z.gtb_ltb in E2. apply Z.ltb_ge in E2.
  destruct (seqs_autobegin c s) as (_ & _ & _ & ->).
  destruct (Z.to_nat (Product.quota self - count)) as [|n] eqn:En; [lia|].
  rewrite <- En. unfold fresh_tickets at 1. rewrite En. cbn [seq List.map].
  rewrite view_products_autobegin. unfold product_known.
  destruct (existsb _ (view_products c s)); cbn [negb]; [|reflexivity].
  rewrite add_tickets_put, tx_of_autobegin.
  destruct (seqs_autobegin c s) as (-> & -> & -> & ->).
  rewrite autobegin_put at 1. rewrite put_put.
  now rewrite fresh_tickets_length.
Qed.

Lemma product_ensure_eq c event slug quota s :
  Product.ensure c event slug quota s =
  if existsb (same_product_key (Event.id event) slug) (view_products c s)
  then (Raise TypeError, autobegin c s)
  else if product_pending_elsewhere c (Event.id event) slug s
  then (Blocked, autobegin c s)
  else if event_known c (Event.id event) s
  then
    let product := Product.mk (seq_products s) (Event.id event) slug quota in
    match Product.ensure_tickets c product
            (put c (tx_add_product (product_row product) (tx_of c s))
                 (seq_events s) (seq_products s + 1) (seq_orders s) (seq_tickets s) s)
    with
    | (Ok _, s2) => (Ok product, s2)
    | (Raise e, s2) => (Raise e, s2)
    | (Blocked, s2) => (Blocked, s2)
    end
  else (Raise ForeignKeyViolation, autobegin c s).
Proof.
  unfold Product.ensure, ensure_row, bind at 1 2 3, execute at 1,
    insert_on_conflict_do_nothing.
  cbn [List.map fst kwarg List.find String.eqb Ascii.eqb Bool.eqb option_map snd].
  rewrite bool_decide_eq_true_2 by reflexivity. cbn [negb].
  rewrite view_products_autobegin, view_events_autobegin.
  destruct (existsb (same_product_key (Event.id event) slug) (view_products c s));
    [reflexivity|].
  unfold product_pending_elsewhere.
  rewrite (existsb_ext_in _ (others c (autobegin c s)) (others c s))
    by (intros x; apply others_autobegin).
  destruct (existsb _ (others c s)); [reflexivity|].
  unfold event_known. destruct (existsb _ (view_events c s)); cbn [negb]; [|reflexivity].
  destruct (seqs_autobegin c s) as (_ & -> & _).
  cbn -[Product.ensure_tickets add_product]. rewrite add_product_autobegin.
  unfold bind, product_row. cbn -[Product.ensure_tickets].
  destruct (Product.ensure_tickets _ _ _) as [[[]|e|] s2]; reflexivity.
Qed.

Lemma tx_add_tickets_nil t : tx_add_tickets [] t = t.
Proof. destruct t. unfold tx_add_tickets. simpl. now rewrite app_nil_r. Qed.

Lemma view_tickets_count_fresh c s pid :
  Inv s -> seq_products s <= pid -> count_tickets pid (view_tickets c s) = 0.
Proof.
  intros H Hp. pose proof (inv_tx_of c s H) as Hok. unfold view_tickets.
  rewrite count_tickets_new_version
    by (intros r u Hr Hu E; exact (upd_same_product s _ r u Hok Hr Hu E)).
  apply count_tickets_zero. intros r Hr E. apply in_app_iff in Hr as [Hr|Hr].
  - pose proof (db_ticket_product_bound s r H Hr). lia.
  - pose proof (tx_ticket_product_bound s _ r Hok Hr). lia.
Qed.

(** In a well-formed store a new product has no ticket yet, so
    [Product.ensure] inserts the product row with [max 0 quota] tickets. *)
Lemma product_ensure_inv_eq c event slug quota s :
  Inv s ->
  Product.ensure c event slug quota s =
  if existsb (same_product_key (Event.id event) slug) (view_products c s)
  then (Raise TypeError, autobegin c s)
  else if product_pending_elsewhere c (Event.id event) slug s
  then (Blocked, autobegin c s)
  else if event_known c (Event.id event) s
  then
    let product := Product.mk (seq_products s) (Event.id event) slug quota in
    (if quota <? 0 then Raise NotImplementedError else Ok product,
     put c (tx_add_tickets
              (fresh_tickets (seq_products s) (seq_tickets s) (Z.to_nat quota))
              (tx_add_product (product_row product) (tx_of c s)))
         (seq_events s) (seq_products s + 1) (seq_orders s)
         (seq_tickets s + Z.of_nat (Z.to_nat quota)) s)
  else (Raise ForeignKeyViolation, autobegin c s).
Proof.
  intros H. rewrite product_ensure_eq.
  destruct (existsb _ (view_products c s)); [reflexivity|].
  destruct (product_pending_elsewhere _ _ _ _); [reflexivity|].
  destruct (event_known _ _ _); [|reflexivity]. cbv zeta.
  set (product := Product.mk (seq_products s) (Event.id event) slug quota).
  set (s1 := put c (tx_add_product (product_row product) (tx_of c s)) _ _ _ _ s).
  rewrite ensure_tickets_eq. cbv zeta.
  assert (Hv : view_tickets c s1 = view_tickets c s).
  { unfold view_tickets, s1. now rewrite tx_of_put. }
  rewrite Hv. change (Product.id product) with (seq_products s).
  rewrite (view_tickets_count_fresh c s (seq_products s) H) by lia.
  change (Product.quota product) with quota.
  assert (Hab : autobegin c s1 = s1).
  { unfold autobegin, s1, put. simpl. now rewrite lookup_insert_eq. }
  rewrite Hab.
  destruct (0 =? quota) eqn:E0.
  - apply Z.eqb_eq in E0. subst quota. simpl. unfold fresh_tickets. simpl.
    rewrite tx_add_tickets_nil, Z.add_0_r. reflexivity.
  - apply Z.eqb_neq in E0. destruct (0 >? quota) eqn:E1.
    + rewrite Z.gtb_ltb in E1. rewrite E1. apply Z.ltb_lt in E1.
      replace (Z.to_nat quota) with 0%nat by lia. unfold fresh_tickets. simpl.
      rewrite tx_add_tickets_nil, Z.add_0_r. reflexivity.
    + rewrite Z.gtb_ltb in E1. rewrite E1.
      assert (K : product_known c (seq_products s) s1 = true).
      { unfold product_known, view_products, s1. rewrite tx_of_put. simpl.
        rewrite !existsb_app. simpl. rewrite Z.eqb_refl.
        now rewrite ?orb_true_r, ?orb_true_l. }
      rewrite K. unfold s1. rewrite tx_of_put, put_put. simpl.
      rewrite Z.sub_0_r. reflexivity.
Qed.

Lemma outcome_state {A} (r : Result A * DB) : snd (outcome r) = snd r.
Proof. destruct r as [[a|e|] s]; reflexivity. Qed.

Lemma held_product_count c product s :
  Inv s -> In (product_row product) (view_products c s) ->
  count_tickets (Product.id product) (view_tickets c s) = Z.max 0 (Product.quota product).
Proof.
  intros H Hin. pose proof (inv_tx_of c s H) as Hok. unfold view_tickets.
  rewrite count_tickets_new_version
    by (intros r u Hr Hu E; exact (upd_same_product s _ r u Hok Hr Hu E)).
  rewrite count_tickets_app. apply in_app_iff in Hin as [Hp|Hp].
  - change (Product.id product) with (pr_id (product_row product)).
    rewrite (inv_balance s H _ Hp).
    rewrite (count_tickets_zero _ (tx_tickets (tx_of c s))); [simpl; lia|].
    intros r Hr E. destruct (ok_owner s _ Hok r Hr) as (q & Hq & Eq).
    apply (ok_products s _ Hok (pr_id (product_row product))); [now apply in_map|].
    rewrite <- E, <- Eq. now apply in_map.
  - change (Product.id product) with (pr_id (product_row product)).
    rewrite (ok_balance s _ Hok _ Hp).
    rewrite (count_tickets_zero _ (db_tickets s)); [simpl; lia|].
    intros r Hr E. destruct (inv_owner s H r Hr) as (q & Hq & Eq).
    apply (ok_products s _ Hok (pr_id q)); [now apply in_map|].
    rewrite Eq, E. now apply in_map.
Qed.

(** On a product object the connection holds, [ensure_tickets] finds the
    tickets already there. *)
Lemma ensure_tickets_held_eq c product s :
  Inv s -> In (product_row product) (view_products c s) ->
  Product.ensure_tickets c product s =
  (if Product.quota product <? 0 then Raise NotImplementedError else Ok tt,
   autobegin c s).
Proof.
  intros H Hin. rewrite ensure_tickets_eq. cbv zeta.
  rewrite (held_product_count c product s H Hin).
  destruct (Product.quota product <? 0) eqn:E.
  - apply Z.ltb_lt in E.
    replace (0 `max` Product.quota product =? Product.quota product) with false
      by (symmetry; apply Z.eqb_neq; lia).
    replace (0 `max` Product.quota product >? Product.quota product) with true
      by (symmetry; rewrite Z.gtb_ltb; apply Z.ltb_lt; lia).
    reflexivity.
  - apply Z.ltb_ge in E.
    replace (0 `max` Product.quota product =? Product.quota product) with true
      by (symmetry; apply Z.eqb_eq; lia).
    reflexivity.
Qed.

Lemma probe_locks_free c event_id s x :
  In x (probe_locks (probe c event_id s)) -> locked_elsewhere c s x = false.
Proof.
  unfold probe_locks, probe. rewrite in_flat_map. intros ([p o] & Hin & Hx).
  apply in_map_iff in Hin as (p' & E & _). inversion E; subst. simpl in Hx.
  destruct (free_unlocked c s (pr_id p)) as [|r l] eqn:F; simpl in Hx; [tauto|].
  destruct Hx as [<-|[]].
  assert (Hr : In r (free_unlocked c s (pr_id p))) by (rewrite F; now left).
  now apply free_unlocked_in in Hr.
Qed.

Lemma free_unlocked_ids c s pid :
  Inv s -> List.NoDup (List.map tk_id (free_unlocked c s pid)).
Proof.
  intros H. unfold free_unlocked. apply NoDup_map_filter.
  rewrite view_tickets_ids. exact (ok_ids s _ (inv_tx_of c s H)).
Qed.

Lemma call_inv c k s o s' :
  Inv s -> held c k s -> call c k s = (o, s') -> Inv s'.
Proof.
  intros H Hh E. assert (Es : s' = snd (call c k s)) by now rewrite E.
  subst s'. clear E. destruct k; unfold call; rewrite outcome_state.
  - unfold begin_. cbn [snd]. now apply autobegin_inv.
  - unfold commit_. cbn [snd]. now apply commit_inv.
  - unfold rollback_. cbn [snd]. now apply rollback_inv.
  - rewrite event_ensure_eq.
    destruct (existsb _ _); [now apply autobegin_inv|].
    destruct (event_pending_elsewhere _ _ _); [now apply autobegin_inv|].
    now apply put_same_rows_inv.
  - rewrite event_get_state. now apply autobegin_inv.
  - rewrite order_create_eq. destruct (event_known _ _ _); [|now apply autobegin_inv].
    now apply put_same_rows_inv.
  - rewrite (product_ensure_inv_eq c event slug quota s H).
    destruct (existsb _ _); [now apply autobegin_inv|].
    destruct (product_pending_elsewhere _ _ _ _); [now apply autobegin_inv|].
    destruct (event_known _ _ _); [|now apply autobegin_inv].
    cbv zeta. cbn [snd]. apply add_product_tickets_inv; [exact H|simpl; lia].
  - rewrite product_get_state. now apply autobegin_inv.
  - simpl in Hh. rewrite (ensure_tickets_held_eq c product s H Hh).
    now apply autobegin_inv.
  - rewrite availability_eq. apply add_locked_inv; [exact H|].
    intros x. apply probe_locks_free.
  - rewrite reserve_eq. destruct (quantity <? 0); [now apply autobegin_inv|].
    cbv zeta. destruct (firstn _ _) as [|r R] eqn:F; [now apply autobegin_inv|].
    destruct (order_known _ _ _); [|now apply autobegin_inv].
    cbn [snd]. rewrite <- F. apply (add_updated_inv c (Product.id product)); [exact H| |].
    + intros x Hx. eapply firstn_In; eauto.
    + apply NoDup_map_firstn. now apply free_unlocked_ids.
  - rewrite count_free_eq. now apply autobegin_inv.
Qed.

Lemma init_inv : Inv init_db.
Proof.
  constructor; simpl.
  - intros c t E. now rewrite lookup_empty in E.
  - intros c1 c2 t1 t2 _ E. now rewrite lookup_empty in E.
  - constructor.
  - intros r [].
  - intros p [].
  - intros r [].
  - intros p [].
Qed.

Lemma step_inv s l s' : Inv s -> step s l s' -> Inv s'.
Proof. intros H St. destruct St as [c k o s' E _ Hh]. exact (call_inv c k s o s' H Hh E). Qed.

Lemma run_inv s0 tr s : Inv s0 -> run s0 tr s -> Inv s.
Proof. intros H R. induction R; eauto using step_inv. Qed.

Lemma reachable_inv s : reachable s -> Inv s.
Proof. intros [tr R]. exact (run_inv init_db tr s init_inv R). Qed.

(** ** Reservation *)

Lemma new_version_app_miss L U b :
  ~ In (tk_id b) (List.map tk_id L) -> new_version (L ++ U) b = new_version U b.
Proof.
  induction L as [|x L IH]; simpl; intros H; [reflexivity|].
  rewrite new_version_cons_ne by (intros E; apply H; now left).
  apply IH. intros Hin. apply H. now right.
Qed.

Lemma new_version_app_hit L U x b :
  List.NoDup (List.map tk_id L) -> In x L -> tk_id x = tk_id b ->
  new_version (L ++ U) b = x.
Proof.
  induction L as [|y L IH]; simpl; intros Hnd Hin E; [tauto|].
  apply List.NoDup_cons_iff in Hnd as [Hy Hnd]. destruct Hin as [->|Hin].
  - now apply new_version_cons_eq.
  - rewrite new_version_cons_ne; [now apply IH|].
    intros E'. apply Hy. rewrite E', <- E. now apply in_map.
Qed.

Lemma view_tickets_claimed c oid R s :
  view_tickets c (claimed c oid R s) =
  List.map (new_version (List.map (set_order oid) R ++ tx_updated (tx_of c s)))
           (db_tickets s ++ tx_tickets (tx_of c s)).
Proof. unfold view_tickets, claimed. now rewrite tx_of_put. Qed.

Lemma view_tickets_put_ne c c' t se sp so st s :
  c <> c' -> view_tickets c' (put c t se sp so st s) = view_tickets c' s.
Proof. intros H. unfold view_tickets. now rewrite tx_of_put_ne. Qed.

Lemma length_firstn_Z {A} (n : Z) (l : list A) :
  0 <= n -> Z.of_nat (length (firstn (Z.to_nat n) l)) = Z.min n (Z.of_nat (length l)).
Proof. intros H. rewrite length_firstn. lia. Qed.

(** C10: a reservation of zero tickets returns the empty list whatever the
    stock of the product is, and does not raise; the ticket rows, committed
    and as seen by every connection, are what they were. *)
Theorem reserve_zero (c : nat) (order : Order.t) (product : Product.t) (s : DB) :
  fst (Ticket.reserve c order product 0 s) = Ok [] /\
  db_tickets (snd (Ticket.reserve c order product 0 s)) = db_tickets s /\
  forall c', view_tickets c' (snd (Ticket.reserve c order product 0 s))
             = view_tickets c' s.
Proof.
  rewrite reserve_eq. simpl. repeat split.
  - now rewrite autobegin_put.
  - intros c'. apply view_tickets_autobegin.
Qed.

(** C2: for a quantity [N >= 0] and an order the connection can see,
    [reserve] raises [NotEnoughTickets] exactly when fewer than [N] free
    tickets of the product are not locked by another transaction; otherwise
    it returns [N] tickets with distinct ids, each the id of a ticket of the
    product that was free and not locked elsewhere, and that now carries the
    order's id. *)
Theorem reserve_spec (c : nat) (order : Order.t) (product : Product.t)
    (N : Z) (s : DB) :
  reachable s -> 0 <= N -> order_known c (Order.id order) s = true ->
  let avail := free_unlocked c s (Product.id product) in
  let r := fst (Ticket.reserve c order product N s) in
  let s' := snd (Ticket.reserve c order product N s) in
  (r = Raise NotEnoughTickets <-> Z.of_nat (length avail) < N) /\
  (N <= Z.of_nat (length avail) ->
   exists ts, r = Ok ts /\ Z.of_nat (length ts) = N /\
     List.NoDup (List.map Ticket.id ts) /\
     forall t, In t ts ->
       Ticket.product_id t = Product.id product /\
       Ticket.order_id t = Order.id order /\
       In (mk_ticket_row (Ticket.id t) (Product.id product) None) (view_tickets c s) /\
       locked_elsewhere c s (Ticket.id t) = false /\
       In (mk_ticket_row (Ticket.id t) (Product.id product) (Some (Order.id order)))
          (view_tickets c s')).
Proof.
  intros Hreach HN Hord avail r s'. apply reachable_inv in Hreach as H.
  pose proof (inv_tx_of c s H) as Hok.
  subst r s'. rewrite reserve_eq.
  replace (N <? 0) with false by (symmetry; apply Z.ltb_ge; lia).
  cbv zeta. fold avail. pose proof (length_firstn_Z N avail HN) as HL.
  destruct (firstn (Z.to_nat N) avail) as [|r0 R0] eqn:F.
  - simpl in HL. destruct (0 <? N) eqn:E; simpl.
    + apply Z.ltb_lt in E. split; [split; [lia|reflexivity]|]. lia.
    + apply Z.ltb_ge in E. assert (N = 0) by lia. subst N.
      split; [split; [discriminate|lia]|]. intros _. exists []. simpl.
      split; [reflexivity|]. split; [reflexivity|]. split; [constructor|].
      intros t [].
  - rewrite Hord. rewrite <- F in *. clear F r0 R0.
    set (R := firstn (Z.to_nat N) avail) in *.
    destruct (Z.of_nat (length R) <? N) eqn:E; simpl.
    + apply Z.ltb_lt in E. split; [split; [lia|reflexivity]|]. lia.
    + apply Z.ltb_ge in E. split; [split; [discriminate|lia]|]. intros _.
      assert (HR : forall x, In x R -> In x avail) by (intros x; apply firstn_In).
      assert (Hnd : List.NoDup (List.map tk_id R)).
      { apply NoDup_map_firstn. now apply free_unlocked_ids. }
      eexists. split; [reflexivity|]. rewrite !length_map. split; [lia|].
      split.
      { rewrite map_map. simpl. now rewrite map_id. }
      intros t Ht. apply in_map_iff in Ht as (i & <- & Hi).
      apply in_map_iff in Hi as (x & <- & Hx). simpl.
      assert (Hx' := HR x Hx). apply free_unlocked_in in Hx' as (Hv & Hp & Hf & Hl).
      repeat split; auto.
      * rewrite <- Hp. now rewrite ticket_row_eta.
      * rewrite view_tickets_claimed.
        destruct (free_view_row s (tx_of c s) x Hok Hv Hf) as [Hb _].
        apply in_map_iff. exists x. split; [|exact Hb].
        rewrite (new_version_app_hit _ _ (set_order (Order.id order) x)).
        -- unfold set_order. now rewrite Hp.
        -- rewrite map_map. simpl. exact Hnd.
        -- now apply in_map.
        -- reflexivity.
Qed.

Lemma rollback_put c t s :
  rollback c (put c t (seq_events s) (seq_products s) (seq_orders s) (seq_tickets s) s)
  = rollback c s.
Proof. unfold rollback, put, with_txs. simpl. now rewrite delete_insert_eq. Qed.

Lemma rollback_idle c s : db_tx s !! c = None -> rollback c s = s.
Proof.
  intros E. unfold rollback, with_txs. rewrite delete_id by exact E. now destruct s.
Qed.

Lemma rollback_autobegin c s : rollback c (autobegin c s) = rollback c s.
Proof. rewrite autobegin_put. apply rollback_put. Qed.

Lemma view_tickets_rollback_ne c c' s :
  c' <> c -> view_tickets c' (rollback c s) = view_tickets c' s.
Proof.
  intros H. unfold view_tickets, tx_of, rollback. simpl.
  now rewrite lookup_delete_ne by congruence.
Qed.

Lemma reserve_state c order product N s :
  exists t, snd (Ticket.reserve c order product N s) =
            put c t (seq_events s) (seq_products s) (seq_orders s) (seq_tickets s) s.
Proof.
  rewrite reserve_eq. destruct (N <? 0); [eexists; simpl; apply autobegin_put|].
  cbv zeta. destruct (firstn _ _); [eexists; simpl; apply autobegin_put|].
  destruct (order_known _ _ _); [|eexists; simpl; apply autobegin_put].
  eexists. reflexivity.
Qed.

Lemma count_free_new_version pid base U :
  List.NoDup (List.map tk_id base) ->
  List.NoDup (List.map tk_id U) ->
  (forall u, In u U ->
     tk_order_id u <> None /\
     In (mk_ticket_row (tk_id u) (tk_product_id u) None) base) ->
  count_free pid (List.map (new_version U) base) =
  count_free pid base - count_tickets pid U.
Proof.
  intros H1 H2 H3.
  pose proof (count_sold_new_version pid base U H1 H2 H3) as S.
  assert (T : count_tickets pid (List.map (new_version U) base) = count_tickets pid base).
  { apply count_tickets_new_version. intros r u Hr Hu E.
    destruct (H3 u Hu) as [_ Hin].
    assert (E' : mk_ticket_row (tk_id u) (tk_product_id u) None = r)
      by (apply (NoDup_map_eq tk_id base); auto).
    now rewrite <- E'. }
  rewrite !count_split in T. lia.
Qed.

Lemma view_count_free c pid s :
  Inv s ->
  count_free pid (view_tickets c s) =
  count_free pid (db_tickets s ++ tx_tickets (tx_of c s))
  - count_tickets pid (tx_updated (tx_of c s)).
Proof.
  intros H. pose proof (inv_tx_of c s H) as Hok. unfold view_tickets.
  apply count_free_new_version.
  - exact (ok_ids s _ Hok).
  - exact (ok_upd_ids s _ Hok).
  - exact (ok_upd_base s _ Hok).
Qed.

(** C5, amended: when [reserve] raises [NotEnoughTickets] and the caller's
    transaction is rolled back, the state is the one a rollback without the
    attempt gives: the whole transaction is undone, not the attempt alone.
    It is the state before the attempt when the attempt opened the
    transaction.  The free tickets of the product that the caller counts
    afterwards are those it counted before the attempt, plus the tickets of
    the product its transaction had claimed before the attempt, less the
    free ones it had inserted; every other connection sees the tickets, and
    counts the free ones, as before the attempt. *)
Theorem failed_reserve_rolled_back (c : nat) (order : Order.t)
    (product : Product.t) (N : Z) (s : DB) :
  reachable s ->
  fst (Ticket.reserve c order product N s) = Raise NotEnoughTickets ->
  let s' := snd (Ticket.reserve c order product N s) in
  rollback c s' = rollback c s /\
  (db_tx s !! c = None -> rollback c s' = s) /\
  fst (Ticket.count_free c product (rollback c s'))
  = Ok (count_free (Product.id product) (view_tickets c s)
        + count_tickets (Product.id product) (tx_updated (tx_of c s))
        - count_free (Product.id product) (tx_tickets (tx_of c s))) /\
  (forall c', c' <> c ->
     view_tickets c' (rollback c s') = view_tickets c' s /\
     fst (Ticket.count_free c' product (rollback c s'))
     = fst (Ticket.count_free c' product s)).
Proof.
  intros Hreach _ s'. apply reachable_inv in Hreach as H.
  destruct (reserve_state c order product N s) as [t E].
  assert (R : rollback c s' = rollback c s).
  { subst s'. rewrite E. apply rollback_put. }
  rewrite R. split; [reflexivity|]. split; [apply rollback_idle|]. split.
  - rewrite count_free_eq. cbn [fst]. f_equal.
    assert (V : view_tickets c (rollback c s) = db_tickets s).
    { unfold view_tickets, tx_of, rollback, with_txs. cbn [db_tx db_tickets].
      rewrite lookup_delete_eq. cbn. rewrite app_nil_r. apply map_new_version_nil. }
    rewrite V, (view_count_free c _ s H), count_free_app. lia.
  - intros c' Hne. rewrite !count_free_eq. cbn [fst].
    rewrite view_tickets_rollback_ne by exact Hne. auto.
Qed.

(** ** Quota reconciliation *)

Lemma same_rows_autobegin c s : same_rows s (autobegin c s).
Proof.
  unfold same_rows. rewrite autobegin_put at 1 2 3 4. simpl. repeat split;
    now rewrite tx_of_autobegin.
Qed.

Lemma same_rows_views s s' c :
  same_rows s s' ->
  view_events c s' = view_events c s /\ view_products c s' = view_products c s /\
  view_orders c s' = view_orders c s /\ view_tickets c s' = view_tickets c s.
Proof.
  intros (E1 & E2 & E3 & E4 & Ht). destruct (Ht c) as (T1 & T2 & T3 & T4 & T5).
  unfold view_events, view_products, view_orders, view_tickets.
  now rewrite E1, E2, E3, E4, T1, T2, T3, T4, T5.
Qed.

(** C6: [ensure_tickets] compares the number [C] of ticket rows of the product
    with the quota [T] of the object.  When [C = T] it returns and every row
    is as before; when [C > T] it raises [NotImplementedError] (the spec's
    UnsupportedShrink) and every row is as before; when [C < T], on a product
    whose row exists, it returns after inserting exactly [T - C] rows of the
    product with a null order id into the caller's transaction, and no
    committed row, row version or row of another transaction changes. *)
Theorem ensure_tickets_cases (c : nat) (self : Product.t) (s : DB) :
  let C := count_tickets (Product.id self) (view_tickets c s) in
  let T := Product.quota self in
  let r := fst (Product.ensure_tickets c self s) in
  let s' := snd (Product.ensure_tickets c self s) in
  (C = T -> r = Ok tt /\ same_rows s s') /\
  (C > T -> r = Raise NotImplementedError /\ same_rows s s') /\
  (C < T -> product_known c (Product.id self) s = true ->
   exists new,
     r = Ok tt /\ Z.of_nat (length new) = T - C /\
     (forall t, In t new ->
        tk_product_id t = Product.id self /\ tk_order_id t = None) /\
     tx_tickets (tx_of c s') = tx_tickets (tx_of c s) ++ new /\
     tx_updated (tx_of c s') = tx_updated (tx_of c s) /\
     db_tickets s' = db_tickets s /\
     (forall c', c' <> c -> tx_of c' s' = tx_of c' s)).
Proof.
  intros C T r s'. subst r s'. rewrite ensure_tickets_eq. cbv zeta. fold C T.
  split; [|split].
  - intros E. rewrite E, Z.eqb_refl. split; [reflexivity|apply same_rows_autobegin].
  - intros Hgt.
    replace (C =? T) with false by (symmetry; apply Z.eqb_neq; lia).
    replace (C >? T) with true by (symmetry; rewrite Z.gtb_ltb; apply Z.ltb_lt; lia).
    split; [reflexivity|apply same_rows_autobegin].
  - intros Hlt Hk.
    replace (C =? T) with false by (symmetry; apply Z.eqb_neq; lia).
    replace (C >? T) with false by (symmetry; rewrite Z.gtb_ltb; apply Z.ltb_ge; lia).
    rewrite Hk.
    exists (fresh_tickets (Product.id self) (seq_tickets s) (Z.to_nat (T - C))).
    split; [reflexivity|]. simpl.
    rewrite fresh_tickets_length, tx_of_put. simpl.
    split; [lia|]. split.
    { intros t Ht. apply fresh_tickets_in in Ht as (i & _ & ->). auto. }
    repeat split. intros c' Hne. apply tx_of_put_ne. congruence.
Qed.

(** ** Availability probe *)

Lemma hd_error_some_iff {A} (l : list A) :
  (match hd_error l with Some _ => true | None => false end) = true <->
  exists x, In x l.
Proof.
  destruct l as [|a l]; simpl.
  - split; [discriminate|intros [x []]].
  - split; [intros _; exists a; now left|reflexivity].
Qed.

(** C8: the probe returns one entry per product row of the event that the
    connection sees, in order, and the flag of a product is true exactly when
    the connection sees a ticket of that product with a null order id that no
    other transaction has locked. *)
Theorem availability_spec (c : nat) (event : Event.t) (s : DB) :
  exists rows,
    fst (Product.get_products_with_availability c event s) = Ok rows /\
    List.map fst rows =
      List.map (product_of event)
        (List.filter (fun p => pr_event_id p =? Event.id event) (view_products c s)) /\
    forall p b, In (p, b) rows ->
      (b = true <->
       exists t, In t (view_tickets c s) /\ tk_product_id t = Product.id p /\
                 tk_order_id t = None /\ locked_elsewhere c s (tk_id t) = false).
Proof.
  rewrite availability_eq. eexists. split; [reflexivity|]. split.
  - unfold probe. rewrite !map_map. reflexivity.
  - intros p b Hin. apply in_map_iff in Hin as ([pr o] & E & Hpt).
    unfold probe in Hpt. apply in_map_iff in Hpt as (pr' & E' & _).
    inversion E'; subst pr' o. clear E'. simpl in E. inversion E; subst p b. clear E.
    simpl. rewrite hd_error_some_iff. split.
    + intros [t Ht]. apply free_unlocked_in in Ht. exists t. tauto.
    + intros (t & H1 & H2 & H3 & H4). exists t. apply free_unlocked_in. tauto.
Qed.

Lemma commit_put_locked c ids s :
  commit c (put c (tx_add_locked ids (tx_of c s))
              (seq_events s) (seq_products s) (seq_orders s) (seq_tickets s) s)
  = commit c s.
Proof.
  unfold commit at 1. unfold put at 1. cbn [db_tx]. rewrite lookup_insert_eq.
  cbn. rewrite delete_insert_eq.
  destruct (db_tx s !! c) as [t|] eqn:E.
  - rewrite (commit_some c s t E). now rewrite (tx_of_some c s t E).
  - rewrite (commit_none c s E), (tx_of_none c s E). simpl.
    rewrite !app_nil_r, map_new_version_nil, delete_id by exact E. now destruct s.
Qed.

(** C9: the probe changes no row and no row version, committed or pending,
    of any table, and no transaction of another connection; what it adds is
    row locks held by the caller's transaction, and they end with it: the
    probe followed by commit, or by rollback, gives the state that commit, or
    rollback, gives without the probe, which is the state before the probe
    when the probe was the whole transaction. *)
Theorem availability_frame (c : nat) (event : Event.t) (s : DB) :
  let s' := snd (Product.get_products_with_availability c event s) in
  same_rows s s' /\
  (forall c', c' <> c -> tx_of c' s' = tx_of c' s) /\
  rollback c s' = rollback c s /\
  commit c s' = commit c s /\
  (db_tx s !! c = None -> rollback c s' = s /\ commit c s' = s).
Proof.
  intros s'. subst s'. rewrite availability_eq. cbn [snd].
  assert (R : rollback c (put c (tx_add_locked (probe_locks (probe c (Event.id event) s))
                                   (tx_of c s))
                             (seq_events s) (seq_products s) (seq_orders s)
                             (seq_tickets s) s) = rollback c s) by apply rollback_put.
  rewrite R, commit_put_locked.
  split; [|split; [|split; [reflexivity|split; [reflexivity|]]]].
  - unfold same_rows. simpl. do 4 (split; [reflexivity|]).
    intros c'. destruct (decide (c = c')) as [->|Hne].
    + rewrite tx_of_put. simpl. auto.
    + rewrite tx_of_put_ne by exact Hne. auto.
  - intros c' Hne. apply tx_of_put_ne. congruence.
  - intros E. split; [now apply rollback_idle|now apply commit_none].
Qed.

(** ** Once sold, always sold *)

(** Every call but [reserve], [commit] and [rollback] leaves the caller's row
    versions alone and at most adds rows to its transaction. *)
Lemma call_put_form c k s :
  Inv s -> held c k s ->
  k <> Commit -> k <> Rollback -> (forall o p n, k <> Reserve o p n) ->
  exists t se sp so st X,
    snd (call c k s) = put c t se sp so st s /\
    tx_updated t = tx_updated (tx_of c s) /\
    tx_tickets t = tx_tickets (tx_of c s) ++ X.
Proof.
  intros H Hh N1 N2 N3.
  assert (A : exists t se sp so st X,
            autobegin c s = put c t se sp so st s /\
            tx_updated t = tx_updated (tx_of c s) /\
            tx_tickets t = tx_tickets (tx_of c s) ++ X).
  { exists (tx_of c s), (seq_events s), (seq_products s), (seq_orders s),
      (seq_tickets s), []. rewrite app_nil_r. split; [apply autobegin_put|auto]. }
  destruct k; try congruence;
    try (exfalso; now apply (N3 order product quantity));
    unfold call; rewrite outcome_state.
  - exact A.
  - rewrite event_ensure_eq.
    destruct (existsb _ _); [exact A|].
    destruct (event_pending_elsewhere _ _ _); [exact A|].
    do 5 eexists. exists []. cbn [snd]. split; [reflexivity|]. simpl.
    now rewrite app_nil_r.
  - rewrite event_get_state. exact A.
  - rewrite order_create_eq. destruct (event_known _ _ _); [|exact A].
    do 5 eexists. exists []. cbn [snd]. split; [reflexivity|]. simpl.
    now rewrite app_nil_r.
  - rewrite (product_ensure_inv_eq c event slug quota s H).
    destruct (existsb _ _); [exact A|].
    destruct (product_pending_elsewhere _ _ _ _); [exact A|].
    destruct (event_known _ _ _); [|exact A].
    do 6 eexists. cbv zeta. cbn [snd]. split; [reflexivity|]. simpl. auto.
  - rewrite product_get_state. exact A.
  - simpl in Hh. rewrite (ensure_tickets_held_eq c product s H Hh). exact A.
  - rewrite availability_eq.
    do 5 eexists. exists []. cbn [snd]. split; [reflexivity|]. simpl.
    now rewrite app_nil_r.
  - rewrite count_free_eq. exact A.
Qed.

Lemma view_tickets_put c t se sp so st s :
  view_tickets c (put c t se sp so st s) =
  List.map (new_version (tx_updated t)) (db_tickets s ++ tx_tickets t).
Proof. unfold view_tickets. now rewrite tx_of_put. Qed.

Lemma sold_in_view_claimed c pid oid R s t :
  Inv s -> (forall r, In r R -> In r (free_unlocked c s pid)) ->
  In t (view_tickets c s) -> tk_order_id t <> None ->
  In t (view_tickets c (claimed c oid R s)).
Proof.
  intros H HR Ht Hs. pose proof (inv_tx_of c s H) as Hok.
  rewrite view_tickets_claimed. unfold view_tickets in Ht.
  apply in_map_iff in Ht as (b & E & Hb). apply in_map_iff. exists b.
  split; [|exact Hb]. rewrite new_version_app_miss; [exact E|].
  intros Hin. apply in_map_iff in Hin as (y & Ey & Hy).
  apply in_map_iff in Hy as (r & <- & Hr). simpl in Ey.
  apply HR, free_unlocked_in in Hr as (Hv & _ & Hf & _).
  destruct (free_view_row s (tx_of c s) r Hok Hv Hf) as [Hrb Hru].
  assert (r = b).
  { apply (NoDup_map_eq tk_id (db_tickets s ++ tx_tickets (tx_of c s))); auto.
    exact (ok_ids s _ Hok). }
  subst b. rewrite new_version_miss in E by exact Hru. subst t. contradiction.
Qed.

Lemma view_tickets_commit_self c s : view_tickets c (commit c s) = view_tickets c s.
Proof.
  destruct (db_tx s !! c) as [t|] eqn:E.
  - rewrite (commit_some c s t E). unfold view_tickets, tx_of. simpl.
    rewrite lookup_delete_eq, E. simpl.
    now rewrite app_nil_r, map_new_version_nil.
  - now rewrite commit_none.
Qed.

Lemma sold_in_view_commit c c' s t :
  Inv s -> c' <> c -> In t (view_tickets c' s) -> tk_order_id t <> None ->
  In t (view_tickets c' (commit c s)).
Proof.
  intros H Hne Ht Hs. destruct (db_tx s !! c) as [tc|] eqn:Ec;
    [|now rewrite commit_none].
  pose proof (inv_tx s H c tc Ec) as Hok.
  rewrite (commit_some c s tc Ec). unfold view_tickets, tx_of in *. simpl.
  rewrite lookup_delete_ne by congruence.
  destruct (db_tx s !! c') as [t'|] eqn:Ec'; simpl in *.
  - pose proof (inv_tx s H c' t' Ec') as Hok'.
    destruct (inv_sep s H c c' tc t' (not_eq_sym Hne) Ec Ec') as (_ & _ & S3).
    apply in_map_iff in Ht as (b & E & Hb). apply in_app_iff in Hb as [Hb|Hb].
    + assert (Hbc : In b (db_tickets s ++ tx_tickets tc)) by (apply in_app_iff; auto).
      destruct (view_row_cases s tc b Hok Hbc) as [[_ Hv]|(u & Hu & Hv & Hid & _ & Hf & _)].
      * apply in_map_iff. exists b. split; [exact E|].
        apply in_app_iff. left. apply in_map_iff. exists b. split; [exact Hv|].
        apply in_app_iff. now left.
      * exfalso. rewrite new_version_miss in E.
        -- subst t. contradiction.
        -- intros Hin. apply (S3 (tk_id u)); [now apply in_map|].
           unfold tx_locks. apply in_app_iff. left. now rewrite Hid.
    + apply in_map_iff. exists b. split; [exact E|]. apply in_app_iff. now right.
  - rewrite app_nil_r in *. rewrite map_new_version_nil in *.
    assert (Hbc : In t (db_tickets s ++ tx_tickets tc)) by (apply in_app_iff; auto).
    destruct (view_row_cases s tc t Hok Hbc) as [[_ Hv]|(u & _ & _ & _ & _ & Hf & _)];
      [|contradiction].
    apply in_map_iff. exists t. split; [exact Hv|]. apply in_app_iff. now left.
Qed.

Lemma sold_committed_kept c s t :
  Inv s -> In t (db_tickets s) -> tk_order_id t <> None -> In t (db_tickets (commit c s)).
Proof.
  intros H Ht Hs. destruct (db_tx s !! c) as [tc|] eqn:Ec;
    [|now rewrite commit_none].
  pose proof (inv_tx s H c tc Ec) as Hok. rewrite (commit_some c s tc Ec). simpl.
  assert (Hbc : In t (db_tickets s ++ tx_tickets tc)) by (apply in_app_iff; auto).
  destruct (view_row_cases s tc t Hok Hbc) as [[_ Hv]|(u & _ & _ & _ & _ & Hf & _)];
    [|contradiction].
  apply in_map_iff. exists t. split; [exact Hv|exact Hbc].
Qed.

Lemma call_cases k :
  k = Commit \/ k = Rollback \/ (exists o p n, k = Reserve o p n) \/
  (k <> Commit /\ k <> Rollback /\ forall o p n, k <> Reserve o p n).
Proof.
  destruct k; eauto 8;
    right; right; right; repeat split; try discriminate; intros; discriminate.
Qed.

Lemma db_tickets_call c k s :
  k <> Commit -> Inv s -> held c k s -> db_tickets (snd (call c k s)) = db_tickets s.
Proof.
  intros N H Hh.
  destruct (call_cases k) as [->|[->|[(o & p & n & ->)|(N1 & N2 & N3)]]].
  - congruence.
  - reflexivity.
  - unfold call. rewrite outcome_state.
    destruct (reserve_state c o p n s) as [t E]. now rewrite E.
  - destruct (call_put_form c k s H Hh N1 N2 N3) as (t & se & sp & so & st & X & E & _).
    now rewrite E.
Qed.

(** C7: no step of any connection changes a sold ticket.  Along every
    interleaving, a committed ticket row whose order id is set is still there,
    unchanged, after any call, commit and rollback included; and a ticket that
    a connection sees with an order id it sees unchanged after any call of any
    connection, the connection's own [rollback] apart, which returns the
    tickets its unfinished transaction had claimed. *)
Theorem sold_ticket_kept (s s' : DB) (c : nat) (k : Call) (o : Outcome) :
  reachable s -> step s (c, k, o) s' ->
  (forall t, In t (db_tickets s) -> tk_order_id t <> None -> In t (db_tickets s')) /\
  (forall c' t, k <> Rollback \/ c' <> c ->
     In t (view_tickets c' s) -> tk_order_id t <> None -> In t (view_tickets c' s')).
Proof.
  intros Hreach St. apply reachable_inv in Hreach as H.
  inversion St as [c0 k0 o0 s0 E _ Hh]; subst c0 k0 o0 s0.
  assert (Es : s' = snd (call c k s)) by now rewrite E.
  clear E St. subst s'.
  destruct (call_cases k) as [->|[->|[(od & p & n & ->)|(N1 & N2 & N3)]]].
  - unfold call. rewrite outcome_state. cbn [commit_ snd]. split.
    + intros t Ht Hs. now apply sold_committed_kept.
    + intros c' t _ Ht Hs. destruct (decide (c' = c)) as [->|Hne].
      * now rewrite view_tickets_commit_self.
      * now apply sold_in_view_commit.
  - unfold call. rewrite outcome_state. cbn [rollback_ snd]. split.
    + intros t Ht _. exact Ht.
    + intros c' t [Hor|Hne] Ht _; [congruence|].
      now rewrite view_tickets_rollback_ne.
  - split.
    + intros t Ht _. rewrite db_tickets_call; auto; discriminate.
    + intros c' t _ Ht Hs. unfold call. rewrite outcome_state.
      destruct (decide (c' = c)) as [->|Hne].
      * rewrite reserve_eq.
        destruct (n <? 0); [cbn [snd]; now rewrite view_tickets_autobegin|].
        cbv zeta. destruct (firstn _ _) as [|r R] eqn:F;
          [cbn [snd]; now rewrite view_tickets_autobegin|].
        destruct (order_known _ _ _);
          [|cbn [snd]; now rewrite view_tickets_autobegin].
        cbn [snd]. apply (sold_in_view_claimed c (Product.id p)); auto.
        intros x Hx. rewrite <- F in Hx. eapply firstn_In; eauto.
      * destruct (reserve_state c od p n s) as [tx E'].
        rewrite E', view_tickets_put_ne by congruence. exact Ht.
  - destruct (call_put_form c k s H Hh N1 N2 N3)
      as (tx & se & sp & so & st & X & E' & Eu & Et).
    rewrite E'. split.
    + intros t Ht _. exact Ht.
    + intros c' t _ Ht Hs. destruct (decide (c' = c)) as [->|Hne].
      * rewrite view_tickets_put, Eu, Et, app_assoc, map_app.
        apply in_app_iff. now left.
      * rewrite view_tickets_put_ne by congruence. exact Ht.
Qed.

(** ** No overselling *)

Lemma sold_le_quota s p :
  Inv s -> In p (db_products s) ->
  count_sold (pr_id p) (db_tickets s) <= Z.max 0 (pr_quota p).
Proof.
  intros H Hp. rewrite <- (inv_balance s H p Hp), count_split.
  pose proof (count_free_nonneg (pr_id p) (db_tickets s)). lia.
Qed.

Lemma count_sold_commit pid c s :
  Inv s ->
  count_sold pid (db_tickets (commit c s)) =
  count_sold pid (db_tickets s) + count_tickets pid (tx_updated (tx_of c s)).
Proof.
  intros H. destruct (db_tx s !! c) as [t|] eqn:E.
  - pose proof (inv_tx s H c t E) as Hok.
    rewrite (commit_some c s t E), (tx_of_some c s t E). simpl.
    rewrite count_sold_new_version.
    + rewrite count_sold_app.
      rewrite (count_sold_zero pid (tx_tickets t)) by exact (ok_new_free s t Hok). lia.
    + exact (ok_ids s t Hok).
    + exact (ok_upd_ids s t Hok).
    + exact (ok_upd_base s t Hok).
  - rewrite (commit_none c s E), (tx_of_none c s E). unfold count_tickets. simpl. lia.
Qed.

Lemma tx_of_commit_self c s : tx_of c (commit c s) = empty_tx.
Proof.
  destruct (db_tx s !! c) as [t|] eqn:E.
  - rewrite (commit_some c s t E). unfold tx_of. simpl. now rewrite lookup_delete_eq.
  - rewrite (commit_none c s E). now apply tx_of_none.
Qed.

Lemma tx_of_commit_ne c c' s : c' <> c -> tx_of c' (commit c s) = tx_of c' s.
Proof.
  intros Hne. destruct (db_tx s !! c) as [t|] eqn:E.
  - rewrite (commit_some c s t E). unfold tx_of. simpl.
    now rewrite lookup_delete_ne by congruence.
  - now rewrite (commit_none c s E).
Qed.

Lemma tx_of_rollback_self c s : tx_of c (rollback c s) = empty_tx.
Proof. unfold tx_of, rollback. simpl. now rewrite lookup_delete_eq. Qed.

Lemma tx_of_rollback_ne c c' s : c' <> c -> tx_of c' (rollback c s) = tx_of c' s.
Proof.
  intros Hne. unfold tx_of, rollback. simpl. now rewrite lookup_delete_ne by congruence.
Qed.

Lemma ledger_snoc pid tr l : ledger pid (tr ++ [l]) = post pid (ledger pid tr) l.
Proof. unfold ledger. now rewrite fold_left_app. Qed.

Lemma duty_snoc tr l : duty (tr ++ [l]) = duty_step (duty tr) l.
Proof. unfold duty. now rewrite fold_left_app. Qed.

Lemma kept_step d l : kept (duty_step d l) = true -> kept d = true.
Proof.
  destruct l as [[c k] o]. destruct k; simpl; auto.
  - intros H. now apply andb_true_iff in H.
  - destruct o; auto.
Qed.

Lemma disciplined_snoc tr l : disciplined (tr ++ [l]) = true -> disciplined tr = true.
Proof. unfold disciplined. rewrite duty_snoc. apply kept_step. Qed.

Lemma count_tickets_set_order pid oid R :
  count_tickets pid (List.map (set_order oid) R) = count_tickets pid R.
Proof.
  unfold count_tickets. f_equal. induction R as [|r R IH]; simpl; [reflexivity|].
  destruct (tk_product_id r =? pid); simpl; now rewrite IH.
Qed.

Lemma count_tickets_same_product pid pid' R :
  (forall r, In r R -> tk_product_id r = pid') ->
  count_tickets pid R = if pid' =? pid then Z.of_nat (length R) else 0.
Proof.
  intros HR. destruct (pid' =? pid) eqn:E.
  - apply Z.eqb_eq in E. subst pid'. unfold count_tickets. f_equal. f_equal.
    apply forallb_filter_id. apply forallb_forall. intros r Hr.
    apply Z.eqb_eq. now apply HR.
  - apply Z.eqb_neq in E. apply count_tickets_zero. intros r Hr. rewrite (HR r Hr).
    exact E.
Qed.

Lemma accounted_step pid tr s l s' :
  Inv s -> accounted pid tr s -> step s l s' ->
  kept (duty_step (duty tr) l) = true -> accounted pid (tr ++ [l]) s'.
Proof.
  intros H [A1 A2] St Hk. unfold accounted. rewrite ledger_snoc, duty_snoc.
  destruct St as [c k o s' E Hw Hh].
  assert (Es : s' = snd (call c k s)) by now rewrite E.
  destruct (call_cases k) as [->|[->|[(od & p & n & ->)|(N1 & N2 & N3)]]].
  - (* commit *)
    simpl in Hk. apply andb_true_iff in Hk as [_ Hc].
    apply negb_true_iff, bool_decide_eq_false in Hc.
    unfold call in Es. rewrite outcome_state in Es. cbn [commit_ snd] in Es. subst s'.
    simpl. split.
    + rewrite count_sold_commit by exact H. rewrite A1, (A2 c Hc). reflexivity.
    + intros c' Hc'. destruct (decide (c' = c)) as [->|Hne].
      * rewrite tx_of_commit_self, lookup_delete_eq. reflexivity.
      * rewrite tx_of_commit_ne, lookup_delete_ne by congruence.
        apply A2. set_solver.
  - (* rollback *)
    unfold call in Es. rewrite outcome_state in Es. cbn [rollback_ snd] in Es. subst s'.
    simpl. split; [exact A1|].
    intros c' Hc'. destruct (decide (c' = c)) as [->|Hne].
    + rewrite tx_of_rollback_self, lookup_delete_eq. reflexivity.
    + rewrite tx_of_rollback_ne, lookup_delete_ne by congruence.
      apply A2. set_solver.
  - (* reserve *)
    clear Es. unfold call in E. rewrite reserve_eq in E.
    assert (Hother : forall c' t se sp so st, c' <> c ->
              tx_of c' (put c t se sp so st s) = tx_of c' s).
    { intros. apply tx_of_put_ne. congruence. }
    destruct (n <? 0) eqn:En.
    { simpl in E. inversion E; subst o s'. simpl. split; [now rewrite autobegin_put|].
      intros c' Hc'. rewrite tx_of_autobegin. apply A2. set_solver. }
    apply Z.ltb_ge in En. cbv zeta in E.
    pose proof (length_firstn_Z n (free_unlocked c s (Product.id p)) En) as HL.
    assert (HR : forall r, In r (firstn (Z.to_nat n) (free_unlocked c s (Product.id p))) ->
                   tk_product_id r = Product.id p).
    { intros r Hr. apply firstn_In, free_unlocked_in in Hr. tauto. }
    destruct (firstn _ _) as [|r0 R0] eqn:F.
    { destruct (0 <? n) eqn:E0; simpl in E; inversion E; subst o s'; simpl.
      - split; [now rewrite autobegin_put|].
        intros c' Hc'. rewrite tx_of_autobegin. apply A2. set_solver.
      - apply Z.ltb_ge in E0. assert (n = 0) by lia. subst n.
        destruct (Product.id p =? pid); simpl.
        + split; [now rewrite autobegin_put|].
          intros c' Hc'. rewrite tx_of_autobegin.
          destruct (decide (c' = c)) as [->|Hne].
          * rewrite lookup_insert_eq. simpl. rewrite (A2 c Hc'). lia.
          * rewrite lookup_insert_ne by congruence. now apply A2.
        + split; [now rewrite autobegin_put|].
          intros c' Hc'. rewrite tx_of_autobegin. now apply A2. }
    destruct (order_known _ _ _).
    2:{ simpl in E. inversion E; subst o s'. simpl. split; [now rewrite autobegin_put|].
        intros c' Hc'. rewrite tx_of_autobegin. apply A2. set_solver. }
    rewrite <- F in *. clear F r0 R0.
    set (R := firstn (Z.to_nat n) (free_unlocked c s (Product.id p))) in *.
    destruct (Z.of_nat (length R) <? n) eqn:EL; simpl in E; inversion E; subst o s'.
    { simpl. split; [exact A1|]. intros c' Hc'. unfold claimed.
      rewrite Hother by set_solver. apply A2. set_solver. }
    apply Z.ltb_ge in EL. unfold claimed.
    assert (Hcnt : count_tickets pid
                     (tx_updated (tx_add_updated (List.map (set_order (Order.id od)) R)
                                                (tx_of c s)))
                   = (if Product.id p =? pid then n else 0)
                     + count_tickets pid (tx_updated (tx_of c s))).
    { simpl. rewrite count_tickets_app, count_tickets_set_order.
      rewrite (count_tickets_same_product pid (Product.id p) R HR).
      destruct (Product.id p =? pid); lia. }
    simpl post. simpl duty_step. destruct (Product.id p =? pid) eqn:Ep; simpl.
    + split; [exact A1|]. intros c' Hc'. destruct (decide (c' = c)) as [->|Hne].
      * rewrite tx_of_put, lookup_insert_eq. simpl in *. rewrite Hcnt, (A2 c Hc'). lia.
      * rewrite Hother, lookup_insert_ne by congruence. now apply A2.
    + split; [exact A1|]. intros c' Hc'. destruct (decide (c' = c)) as [->|Hne].
      * rewrite tx_of_put. simpl in *. rewrite Hcnt, (A2 c Hc'). lia.
      * rewrite Hother by congruence. now apply A2.
  - (* any other call *)
    destruct (call_put_form c k s H Hh N1 N2 N3)
      as (tx & se & sp & so & st & X & E' & Eu & Et).
    assert (Ep : post pid (ledger pid tr) (c, k, o) = ledger pid tr).
    { destruct k; try reflexivity; try congruence;
        exfalso; now apply (N3 order product quantity). }
    assert (Ed : duty_step (duty tr) (c, k, o) = duty tr).
    { destruct k; try reflexivity; try congruence;
        exfalso; now apply (N3 order product quantity). }
    rewrite Ep, Ed. subst s'. rewrite E'. split; [exact A1|].
    intros c' Hc'. destruct (decide (c' = c)) as [->|Hne].
    + rewrite tx_of_put, Eu. now apply A2.
    + rewrite tx_of_put_ne by congruence. now apply A2.
Qed.

Lemma accounted_run pid tr s :
  run init_db tr s -> disciplined tr = true -> accounted pid tr s.
Proof.
  intros R. induction R as [|tr l s s' R IH St]; intros Hd.
  - split; [reflexivity|]. intros c _. unfold tx_of. simpl.
    rewrite !lookup_empty. reflexivity.
  - apply (accounted_step pid tr s l s').
    + exact (run_inv init_db tr s init_inv R).
    + apply IH. now apply disciplined_snoc in Hd.
    + exact St.
    + unfold disciplined in Hd. now rewrite duty_snoc in Hd.
Qed.

(** ** Running a script of calls *)

Lemma products_row_eqb_eq p q : products_row_eqb p q = true -> p = q.
Proof.
  unfold products_row_eqb. rewrite !andb_true_iff, !Z.eqb_eq, String.eqb_eq.
  destruct p, q; simpl. intros [[[-> ->] ->] ->]. reflexivity.
Qed.

Lemma heldb_held c k s : heldb c k s = true -> held c k s.
Proof.
  destruct k; simpl; auto. intros H. apply existsb_exists in H as (q & Hq & E).
  apply products_row_eqb_eq in E. now subst q.
Qed.

Lemma run_cons s0 l s1 tr s : step s0 l s1 -> run s1 tr s -> run s0 (l :: tr) s.
Proof.
  intros St R. induction R as [|tr l' s s' R IH St'].
  - apply (run_snoc s0 [] l s0 s1); [constructor|exact St].
  - rewrite app_comm_cons. eapply run_snoc; eauto.
Qed.

Lemma exec_run cs s0 :
  admissible cs s0 = true -> run s0 (fst (exec cs s0)) (snd (exec cs s0)).
Proof.
  revert s0. induction cs as [|[c k] cs IH]; intros s0 H; simpl.
  - constructor.
  - simpl in H. destruct (call c k s0) as [o s1] eqn:E. simpl in *.
    assert (Ho : o <> Waiting) by (intros ->; discriminate).
    assert (H' : heldb c k s0 && admissible cs s1 = true) by (destruct o; auto; congruence).
    apply andb_true_iff in H' as [Hh Ha].
    apply (run_cons s0 (c, k, o) s1).
    + constructor; auto. now apply heldb_held.
    + now apply IH.
Qed.

Lemma step_of_call c k s :
  fst (call c k s) <> Waiting -> held c k s ->
  step s (c, k, fst (call c k s)) (snd (call c k s)).
Proof. intros Hw Hh. constructor; auto. now destruct (call c k s). Qed.

Lemma exec_reachable cs :
  admissible cs init_db = true -> reachable (snd (exec cs init_db)).
Proof. intros H. exists (fst (exec cs init_db)). now apply exec_run. Qed.

(** ** Scenarios (after tests/test_relaxed.py and tests/test_concurrent.py) *)

Example setup_state :
  db_events (snd (exec setup init_db)) = [mk_event_row 1 "test-event"] /\
  db_products (snd (exec setup init_db)) = [mk_product_row 1 1 "test-product" 10] /\
  db_tickets (snd (exec setup init_db)) = fresh_tickets 1 1 10 /\
  quiescent (snd (exec setup init_db)).
Proof. vm_compute. auto. Qed.

(** tests/test_concurrent.py: with 6 of the 10 tickets claimed by the open
    transaction of connection 1, a reservation of 7 by connection 2 fails;
    after connection 1 commits and connection 2 rolls back, 4 tickets are
    free. *)
Example test_concurrent :
  let s := snd (exec two_buyers init_db) in
  fst (Ticket.reserve 2 order_2 test_product 7 s) = Raise NotEnoughTickets /\
  fst (Ticket.count_free 0 test_product
         (rollback 2 (commit 1 (snd (Ticket.reserve 2 order_2 test_product 7 s)))))
  = Ok 4.
Proof. vm_compute. auto. Qed.

(** tests/test_relaxed.py.  The test wraps the failing call in
    [aconn.transaction()]; here the work done so far is committed and the
    failing call runs in a transaction of its own, rolled back after it.
    The fourth reservation of 3 fails, one ticket is free and the product is
    available; after the last ticket is reserved it is not. *)
Example test_relaxed :
  let s := commit 0 (snd (exec relaxed init_db)) in
  let failed := Ticket.reserve 0 order_1 test_product 3 s in
  let s1 := rollback 0 (snd failed) in
  let last := Ticket.reserve 0 order_1 test_product 1
                (snd (Product.get_products_with_availability 0 test_event
                        (snd (Ticket.count_free 0 test_product s1)))) in
  fst failed = Raise NotEnoughTickets /\
  fst (Ticket.count_free 0 test_product s1) = Ok 1 /\
  fst (Product.get_products_with_availability 0 test_event
         (snd (Ticket.count_free 0 test_product s1)))
  = Ok [(test_product, true)] /\
  fst last = Ok [Ticket.mk 10 1 1] /\
  fst (Product.get_products_with_availability 0 test_event (snd last))
  = Ok [(test_product, false)].
Proof. vm_compute. auto 10. Qed.

(** C1, the claim as stated, fails: a buyer reserves 3 tickets, then fails to
    reserve 8 more and rolls back; no transaction is open any more, no ticket
    is sold, and the [reserve] calls that returned add up to 3. *)
Lemma returned_reserve_rolled_back :
  ~ (forall tr s p,
       run init_db tr s -> quiescent s -> In p (db_products s) ->
       count_sold (pr_id p) (db_tickets s) <= pr_quota p /\
       count_sold (pr_id p) (db_tickets s) = reserved_total (pr_id p) tr).
Proof.
  intros H.
  destruct (H (fst (exec buy_3_then_8 init_db)) (snd (exec buy_3_then_8 init_db))
              (mk_product_row 1 1 "test-product" 10)) as [_ E].
  - apply exec_run. vm_compute. reflexivity.
  - vm_compute. reflexivity.
  - vm_compute. auto.
  - vm_compute in E. discriminate.
Qed.

(** C1, amended: along every interleaving of calls, commits and rollbacks
    in which [ensure_tickets] is only called on [Product] objects equal to a
    product row the calling connection sees (the premise [held] of [step],
    hence of [run]), the committed tickets of a product that carry an order
    id are at most its quota [Q] (none when [Q] is negative); and when no
    transaction in which a [reserve] call raised is committed, their number
    is the sum of the quantities of the [reserve] calls on the product that
    returned in transactions that were committed. *)
Theorem no_overselling (tr : list Label) (s : DB) (p : products_row) :
  run init_db tr s -> In p (db_products s) ->
  count_sold (pr_id p) (db_tickets s) <= Z.max 0 (pr_quota p) /\
  (disciplined tr = true ->
   count_sold (pr_id p) (db_tickets s) = credit (pr_id p) tr).
Proof.
  intros R Hp. split.
  - apply sold_le_quota; [|exact Hp]. exact (run_inv init_db tr s init_inv R).
  - intros Hd. exact (proj1 (accounted_run (pr_id p) tr s R Hd)).
Qed.

(** C1 at work: a buyer reserves 3 and commits. *)
Lemma no_overselling_witness :
  count_sold 1 (db_tickets (snd (exec buy_3 init_db))) <= Z.max 0 10 /\
  (disciplined (fst (exec buy_3 init_db)) = true ->
   count_sold 1 (db_tickets (snd (exec buy_3 init_db)))
   = credit 1 (fst (exec buy_3 init_db))).
Proof.
  apply (no_overselling (fst (exec buy_3 init_db)) (snd (exec buy_3 init_db))
           (mk_product_row 1 1 "test-product" 10)).
  - apply exec_run. vm_compute. reflexivity.
  - vm_compute. auto.
Defined.

Example buy_3_counts :
  count_sold 1 (db_tickets (snd (exec buy_3 init_db))) = 3 /\
  credit 1 (fst (exec buy_3 init_db)) = 3 /\
  disciplined (fst (exec buy_3 init_db)) = true /\
  credit 1 (fst (exec buy_3_then_8 init_db)) = 0 /\
  disciplined (fst (exec buy_3_then_8 init_db)) = true.
Proof. vm_compute. auto. Qed.

(** Why the interleavings of [run] call [ensure_tickets] only on [Product]
    objects equal to a row the connection sees: the method trusts the quota
    of the object it is called on.  Called on an object with quota 15 for
    the product stored with quota 10, it inserts 5 more tickets, and 15 are
    then sold. *)
Example reconcile_past_stored_quota :
  let grown := Product.mk 1 1 "test-product" 15 in
  let s := snd (exec (setup ++ [(1%nat, EnsureTickets grown);
                                (1%nat, OrderCreate test_event);
                                (1%nat, Reserve order_1 grown 15);
                                (1%nat, Commit)]) init_db) in
  heldb 1 (EnsureTickets grown) (snd (exec setup init_db)) = false /\
  In (mk_product_row 1 1 "test-product" 10) (db_products s) /\
  count_sold 1 (db_tickets s) = 15.
Proof. vm_compute. auto. Qed.

(** ** Idempotent ensure *)

(** C3 on the code: the first [Event.ensure] inserts the row and returns it;
    a second call with the same slug finds the conflict, and its follow-up
    lookup raises [TypeError]; one row exists, but the second caller does not
    receive it. *)
Theorem event_ensure_twice :
  let first := Event.ensure 0 "e" init_db in
  let second := Event.ensure 0 "e" (snd first) in
  fst first = Ok (Event.mk 1 "e") /\
  fst second = Raise TypeError /\
  view_events 0 (snd second) = [mk_event_row 1 "e"].
Proof. vm_compute. auto. Qed.

(** The same for any slug the connection already sees, in any state. *)
Lemma event_ensure_existing c slug s :
  existsb (same_event_key slug) (view_events c s) = true ->
  fst (Event.ensure c slug s) = Raise TypeError.
Proof. intros H. rewrite event_ensure_eq, H. reflexivity. Qed.

(** C4, the claim as stated, fails: after [Product.ensure] with quota 10, a
    second call on the same event and slug with quota 15 raises [TypeError]
    (the lookup of C3) before any reconciliation; the product keeps quota 10
    and its 10 tickets. *)
Lemma product_ensure_twice :
  let s0 := snd (Event.ensure 0 "e" init_db) in
  let first := Product.ensure 0 (Event.mk 1 "e") "p" 10 s0 in
  let second := Product.ensure 0 (Event.mk 1 "e") "p" 15 (snd first) in
  fst first = Ok (Product.mk 1 1 "p" 10) /\
  fst second = Raise TypeError /\
  view_products 0 (snd second) = [mk_product_row 1 1 "p" 10] /\
  count_tickets 1 (view_tickets 0 (snd second)) = 10 /\
  count_tickets 1 (view_tickets 0 (snd second)) <> 15.
Proof. vm_compute. repeat split; discriminate. Qed.

(** On a key the connection already sees, [Product.ensure] changes no row,
    whatever quota it is given. *)
Lemma product_ensure_existing c event slug quota s :
  existsb (same_product_key (Event.id event) slug) (view_products c s) = true ->
  snd (Product.ensure c event slug quota s) = autobegin c s.
Proof. intros H. rewrite product_ensure_eq, H. reflexivity. Qed.

(** C4, amended: when [Product.ensure] has returned a product for quota [q1],
    the product has exactly [q1] tickets, and a second call on the same event
    and slug, with any quota [q2], inserts no ticket and changes no row: the
    product still has exactly [q1] tickets (10 after quotas 10 and 15, not 15
    and not 25). *)
Theorem product_ensure_again (c : nat) (event : Event.t) (slug : string)
    (q1 q2 : Z) (s : DB) (p : Product.t) :
  reachable s ->
  fst (Product.ensure c event slug q1 s) = Ok p ->
  let s1 := snd (Product.ensure c event slug q1 s) in
  let s2 := snd (Product.ensure c event slug q2 s1) in
  count_tickets (Product.id p) (view_tickets c s1) = q1 /\
  same_rows s1 s2 /\
  count_tickets (Product.id p) (view_tickets c s2) = q1.
Proof.
  intros Hreach Hok s1 s2. apply reachable_inv in Hreach as H.
  assert (H1 : Inv s1).
  { apply (call_inv c (ProductEnsure event slug q1) s
             (fst (call c (ProductEnsure event slug q1) s)) s1 H I).
    unfold call, s1. now destruct (Product.ensure c event slug q1 s) as [[a|e|] s']. }
  assert (Hrow : In (product_row p) (view_products c s1) /\
                 Product.quota p = q1 /\ 0 <= q1 /\
                 existsb (same_product_key (Event.id event) slug) (view_products c s1)
                 = true).
  { subst s1 s2. rewrite (product_ensure_inv_eq c event slug q1 s H) in *.
    destruct (existsb _ (view_products c s)); [discriminate|].
    destruct (product_pending_elsewhere _ _ _ _); [discriminate|].
    destruct (event_known _ _ _); [|discriminate].
    cbv zeta in *. cbn [fst snd] in *.
    destruct (q1 <? 0) eqn:Eq; [discriminate|]. apply Z.ltb_ge in Eq.
    inversion Hok; subst p. clear Hok.
    unfold view_products. rewrite tx_of_put. simpl.
    repeat split; auto.
    - apply in_app_iff. right. apply in_app_iff. right. now left.
    - rewrite !existsb_app. simpl. unfold same_product_key at 3. simpl.
      rewrite Z.eqb_refl, String.eqb_refl. simpl.
      now rewrite ?orb_true_r. }
  destruct Hrow as (Hin & Hq & Hpos & Hkey).
  assert (C1 : count_tickets (Product.id p) (view_tickets c s1) = q1).
  { rewrite (held_product_count c p s1 H1 Hin). lia. }
  assert (E2 : s2 = autobegin c s1) by now apply product_ensure_existing.
  split; [exact C1|]. rewrite E2. split; [apply same_rows_autobegin|].
  now rewrite view_tickets_autobegin.
Qed.

(** C4 at work: quotas 10 and 15. *)
Lemma product_ensure_again_witness :
  let s := snd (Event.ensure 0 "e" init_db) in
  let s1 := snd (Product.ensure 0 (Event.mk 1 "e") "p" 10 s) in
  let s2 := snd (Product.ensure 0 (Event.mk 1 "e") "p" 15 s1) in
  reachable s /\
  fst (Product.ensure 0 (Event.mk 1 "e") "p" 10 s) = Ok (Product.mk 1 1 "p" 10) /\
  count_tickets 1 (view_tickets 0 s2) = 10.
Proof.
  intros s s1 s2.
  assert (H1 : reachable s).
  { apply (exec_reachable [(0%nat, EventEnsure "e")]). vm_compute. reflexivity. }
  assert (H2 : fst (Product.ensure 0 (Event.mk 1 "e") "p" 10 s)
               = Ok (Product.mk 1 1 "p" 10)) by (vm_compute; reflexivity).
  split; [exact H1|]. split; [exact H2|].
  exact (proj2 (proj2 (product_ensure_again 0 (Event.mk 1 "e") "p" 10 15 s
                         (Product.mk 1 1 "p" 10) H1 H2))).
Defined.

(** ** The theorems at work on the scenarios *)

(** C2 at work: the first reservation of 3 of the 10 tickets. *)
Lemma reserve_spec_witness :
  let s := snd (exec one_buyer init_db) in
  reachable s /\ 0 <= 3 /\ order_known 1 (Order.id order_1) s = true /\
  (fst (Ticket.reserve 1 order_1 test_product 3 s) = Raise NotEnoughTickets <->
   Z.of_nat (length (free_unlocked 1 s (Product.id test_product))) < 3) /\
  fst (Ticket.reserve 1 order_1 test_product 3 s)
  = Ok [Ticket.mk 1 1 1; Ticket.mk 2 1 1; Ticket.mk 3 1 1].
Proof.
  intros s.
  assert (H1 : reachable s) by (apply exec_reachable; vm_compute; reflexivity).
  assert (H2 : 0 <= 3) by lia.
  assert (H3 : order_known 1 (Order.id order_1) s = true) by (vm_compute; reflexivity).
  repeat split; auto.
  - exact (proj1 (proj1 (reserve_spec 1 order_1 test_product 3 s H1 H2 H3))).
  - exact (proj2 (proj1 (reserve_spec 1 order_1 test_product 3 s H1 H2 H3))).
Defined.

(** C5 at work: the failed reservation of tests/test_concurrent.py. *)
Lemma failed_reserve_rolled_back_witness :
  let s := snd (exec two_buyers init_db) in
  let s' := snd (Ticket.reserve 2 order_2 test_product 7 s) in
  fst (Ticket.reserve 2 order_2 test_product 7 s) = Raise NotEnoughTickets /\
  rollback 2 s' = rollback 2 s /\
  fst (Ticket.count_free 2 test_product (rollback 2 s'))
  = Ok (count_free 1 (view_tickets 2 s) + count_tickets 1 (tx_updated (tx_of 2 s))
        - count_free 1 (tx_tickets (tx_of 2 s))).
Proof.
  intros s s'.
  assert (H0 : reachable s) by (apply exec_reachable; vm_compute; reflexivity).
  assert (H : fst (Ticket.reserve 2 order_2 test_product 7 s) = Raise NotEnoughTickets)
    by (vm_compute; reflexivity).
  split; [exact H|].
  destruct (failed_reserve_rolled_back 2 order_2 test_product 7 s H0 H) as (A & _ & B & _).
  split; [exact A|exact B].
Defined.

(** C5, the claim as stated, fails: a buyer has reserved 3 of the 10 tickets
    and counts 7 free ones; the same transaction then fails to reserve 8 and
    is rolled back.  The rollback takes the 3 reserved tickets back as well:
    the buyer counts 10 free tickets, and the state is not the one before
    the attempt. *)
Lemma rollback_undoes_earlier_reserve :
  ~ (forall c order product N s,
       reachable s ->
       fst (Ticket.reserve c order product N s) = Raise NotEnoughTickets ->
       rollback c (snd (Ticket.reserve c order product N s)) = s /\
       fst (Ticket.count_free c product
              (rollback c (snd (Ticket.reserve c order product N s))))
       = fst (Ticket.count_free c product s)).
Proof.
  intros H.
  destruct (H 1%nat order_1 test_product 8
              (snd (exec (one_buyer ++ [(1%nat, Reserve order_1 test_product 3)]) init_db)))
    as [_ E].
  - apply exec_reachable. vm_compute. reflexivity.
  - vm_compute. reflexivity.
  - vm_compute in E. discriminate.
Qed.

(** C6 at work: a product object with quota 15 on a product of 10 tickets. *)
Lemma ensure_tickets_cases_witness :
  let s := snd (exec setup init_db) in
  let self := Product.mk 1 1 "test-product" 15 in
  count_tickets 1 (view_tickets 0 s) < 15 /\
  product_known 0 1 s = true /\
  exists new,
    fst (Product.ensure_tickets 0 self s) = Ok tt /\
    Z.of_nat (length new) = 15 - count_tickets 1 (view_tickets 0 s) /\
    tx_tickets (tx_of 0 (snd (Product.ensure_tickets 0 self s)))
    = tx_tickets (tx_of 0 s) ++ new.
Proof.
  intros s self.
  assert (H1 : count_tickets 1 (view_tickets 0 s) < 15) by (vm_compute; reflexivity).
  assert (H2 : product_known 0 1 s = true) by (vm_compute; reflexivity).
  split; [exact H1|]. split; [exact H2|].
  destruct (ensure_tickets_cases 0 self s) as (_ & _ & H3).
  destruct (H3 H1 H2) as (new & A & B & _ & C & _).
  exists new. auto.
Defined.

(** C7 at work: a second buyer reserves after the first has committed. *)
Lemma sold_ticket_kept_witness :
  let s := snd (exec buy_3 init_db) in
  let k := Reserve order_2 test_product 7 in
  reachable s /\ step s (2%nat, k, fst (call 2 k s)) (snd (call 2 k s)) /\
  forall t, In t (db_tickets s) -> tk_order_id t <> None ->
            In t (db_tickets (snd (call 2 k s))).
Proof.
  intros s k.
  assert (H1 : reachable s) by (apply exec_reachable; vm_compute; reflexivity).
  assert (H2 : step s (2%nat, k, fst (call 2 k s)) (snd (call 2 k s))).
  { apply step_of_call; [vm_compute; discriminate|exact I]. }
  split; [exact H1|]. split; [exact H2|].
  exact (proj1 (sold_ticket_kept s (snd (call 2 k s)) 2 k (fst (call 2 k s)) H1 H2)).
Defined.

(** C8 at work: the probe of a second connection while the first holds 6
    tickets. *)
Lemma availability_spec_witness :
  let s := snd (exec two_buyers init_db) in
  exists rows,
    fst (Product.get_products_with_availability 2 test_event s) = Ok rows /\
    List.map fst rows = [test_product].
Proof.
  intros s. destruct (availability_spec 2 test_event s) as (rows & A & B & _).
  exists rows. split; [exact A|]. rewrite B. vm_compute. reflexivity.
Defined.

(** C9 at work: a probe on a connection with no open transaction opens one
    and locks a ticket; commit, or rollback, gives back the state before. *)
Lemma availability_frame_witness :
  let s := snd (exec setup init_db) in
  let s' := snd (Product.get_products_with_availability 1 test_event s) in
  db_tx s !! 1%nat = None /\ s' <> s /\ rollback 1 s' = s /\ commit 1 s' = s.
Proof.
  intros s s'.
  assert (H : db_tx s !! 1%nat = None) by (vm_compute; reflexivity).
  split; [exact H|]. split.
  - intros E. assert (E' : db_tx s' !! 1%nat = db_tx s !! 1%nat) by now rewrite E.
    vm_compute in E'. discriminate.
  - exact (proj2 (proj2 (proj2 (proj2 (availability_frame 1 test_event s)))) H).
Defined.

(** * Further properties of the code *)

(** ** Keys stay unique *)

Lemma keys_ok_seq s s' t :
  db_events s' = db_events s -> db_products s' = db_products s ->
  db_orders s' = db_orders s -> seq_orders s <= seq_orders s' ->
  keys_ok s t -> keys_ok s' t.
Proof.
  intros E1 E2 E3 L [H1 H2 H3 H4]. constructor; rewrite ?E1, ?E2, ?E3; auto.
  intros o Ho. specialize (H4 o Ho). lia.
Qed.

Lemma keys_ok_ext s t t' :
  tx_events t' = tx_events t -> tx_products t' = tx_products t ->
  tx_orders t' = tx_orders t -> keys_ok s t -> keys_ok s t'.
Proof.
  intros E1 E2 E3 [H1 H2 H3 H4]. constructor; rewrite ?E1, ?E2, ?E3; auto.
Qed.

Lemma keys_tx_of c s : Keys s -> keys_ok s (tx_of c s).
Proof.
  intros H. unfold tx_of. destruct (db_tx s !! c) as [t|] eqn:E; simpl.
  - exact (keys_tx s H c t E).
  - constructor; simpl; rewrite ?app_nil_r.
    + exact (keys_events s H).
    + exact (keys_products s H).
    + exact (keys_orders s H).
    + intros o [].
Qed.

Lemma keys_sep_of c c2 t2 s :
  Keys s -> c2 <> c -> db_tx s !! c2 = Some t2 ->
  disjoint (List.map ev_slug (tx_events (tx_of c s))) (List.map ev_slug (tx_events t2)) /\
  disjoint (List.map product_key (tx_products (tx_of c s)))
           (List.map product_key (tx_products t2)) /\
  disjoint (List.map or_id (tx_orders (tx_of c s))) (List.map or_id (tx_orders t2)).
Proof.
  intros H Hne E2. unfold tx_of. destruct (db_tx s !! c) as [t|] eqn:E; simpl.
  - exact (keys_sep s H c c2 t t2 (not_eq_sym Hne) E E2).
  - repeat split; apply disjoint_nil_l.
Qed.

Lemma put_keys c t se sp so st s :
  Keys s -> seq_orders s <= so ->
  keys_ok (put c t se sp so st s) t ->
  (forall c2 t2, c2 <> c -> db_tx s !! c2 = Some t2 ->
     disjoint (List.map ev_slug (tx_events t)) (List.map ev_slug (tx_events t2)) /\
     disjoint (List.map product_key (tx_products t))
              (List.map product_key (tx_products t2)) /\
     disjoint (List.map or_id (tx_orders t)) (List.map or_id (tx_orders t2))) ->
  Keys (put c t se sp so st s).
Proof.
  intros H L Hok Hsep. constructor; simpl.
  - intros c' t' E. destruct (decide (c = c')) as [->|Hne].
    + rewrite lookup_insert_eq in E. now inversion E; subst.
    + rewrite lookup_insert_ne in E by exact Hne.
      apply (keys_ok_seq s); auto. exact (keys_tx s H c' t' E).
  - intros c1 c2 t1 t2 Hne E1 E2.
    destruct (decide (c = c1)) as [->|N1].
    + rewrite lookup_insert_eq in E1. inversion E1; subst t1.
      rewrite lookup_insert_ne in E2 by exact Hne.
      exact (Hsep c2 t2 (not_eq_sym Hne) E2).
    + rewrite lookup_insert_ne in E1 by exact N1.
      destruct (decide (c = c2)) as [->|N2].
      * rewrite lookup_insert_eq in E2. inversion E2; subst t2.
        destruct (Hsep c1 t1 (not_eq_sym N1) E1) as (A & B & C).
        auto using disjoint_sym.
      * rewrite lookup_insert_ne in E2 by exact N2.
        exact (keys_sep s H c1 c2 t1 t2 Hne E1 E2).
  - exact (keys_events s H).
  - exact (keys_products s H).
  - exact (keys_orders s H).
  - intros o Ho. pose proof (keys_seq_orders s H o Ho). lia.
Qed.

(** A change that leaves the events, products and orders of the transaction
    as they are. *)
Lemma put_same_keys c t se sp st s :
  Keys s ->
  tx_events t = tx_events (tx_of c s) -> tx_products t = tx_products (tx_of c s) ->
  tx_orders t = tx_orders (tx_of c s) ->
  Keys (put c t se sp (seq_orders s) st s).
Proof.
  intros H E1 E2 E3. apply put_keys; auto; try lia.
  - apply (keys_ok_seq s); simpl; auto; try lia.
    apply (keys_ok_ext s (tx_of c s)); auto. now apply keys_tx_of.
  - intros c2 t2 Hne E. rewrite E1, E2, E3. now apply (keys_sep_of c c2 t2 s).
Qed.

Lemma existsb_false_not_in {A B} (f : A -> B) (p : A -> bool) (k : B) (l : list A) :
  (forall x, p x = true <-> f x = k) ->
  existsb p l = false -> ~ In k (List.map f l).
Proof.
  intros Hp E Hin. apply in_map_iff in Hin as (x & Hx & Hl).
  assert (T : existsb p l = true) by (apply existsb_exists; exists x; split; auto; now apply Hp).
  congruence.
Qed.

Lemma same_event_key_iff slug r : same_event_key slug r = true <-> ev_slug r = slug.
Proof. unfold same_event_key. apply String.eqb_eq. Qed.

Lemma same_product_key_iff eid slug r :
  same_product_key eid slug r = true <-> product_key r = (eid, slug).
Proof.
  unfold same_product_key, product_key. rewrite andb_true_iff, Z.eqb_eq, String.eqb_eq.
  split; [intros [-> ->]; reflexivity|intros E; inversion E; auto].
Qed.

Lemma pending_elsewhere_false {A B} (f : A -> B) (p : A -> bool) (g : Tx -> list A)
    (k : B) c c2 t2 s :
  (forall x, p x = true <-> f x = k) ->
  existsb (fun t => existsb p (g t)) (others c s) = false ->
  c2 <> c -> db_tx s !! c2 = Some t2 -> ~ In k (List.map f (g t2)).
Proof.
  intros Hp E Hne E2 Hin. apply in_map_iff in Hin as (x & Hx & Hl).
  assert (T : existsb (fun t => existsb p (g t)) (others c s) = true).
  { apply existsb_exists. exists t2. split; [apply others_spec; eauto|].
    apply existsb_exists. exists x. split; auto. now apply Hp. }
  congruence.
Qed.

Lemma add_event_keys c slug s :
  Keys s ->
  existsb (same_event_key slug) (view_events c s) = false ->
  event_pending_elsewhere c slug s = false ->
  Keys (put c (tx_add_event (mk_event_row (seq_events s) slug) (tx_of c s))
            (seq_events s + 1) (seq_products s) (seq_orders s) (seq_tickets s) s).
Proof.
  intros H Hv Hp. pose proof (keys_tx_of c s H) as Hok.
  apply put_keys; auto; try lia.
  - destruct Hok as [H1 H2 H3 H4]. constructor; simpl; auto.
    rewrite app_assoc, map_app. simpl. apply NoDup_app_parts.
    split; [exact H1|]. split; [repeat constructor; intros []|].
    intros x Hx [<-|[]].
    exact (existsb_false_not_in ev_slug _ slug _ (same_event_key_iff slug) Hv Hx).
  - intros c2 t2 Hne E. destruct (keys_sep_of c c2 t2 s H Hne E) as (A & B & C).
    simpl. repeat split; auto. rewrite map_app. apply disjoint_app_l. split; [exact A|].
    intros x [<-|[]].
    exact (pending_elsewhere_false ev_slug _ tx_events slug c c2 t2 s
             (same_event_key_iff slug) Hp Hne E).
Qed.

Lemma add_order_keys c eid s :
  Keys s ->
  Keys (put c (tx_add_order (mk_order_row (seq_orders s) eid) (tx_of c s))
            (seq_events s) (seq_products s) (seq_orders s + 1) (seq_tickets s) s).
Proof.
  intros H. pose proof (keys_tx_of c s H) as Hok.
  apply put_keys; auto; try lia.
  - destruct Hok as [H1 H2 H3 H4]. constructor; simpl; auto.
    + rewrite app_assoc, map_app. simpl. apply NoDup_app_parts.
      split; [exact H3|]. split; [repeat constructor; intros []|].
      intros x Hx [<-|[]]. apply in_map_iff in Hx as (o & Eo & Ho).
      apply in_app_iff in Ho as [Ho|Ho].
      * pose proof (keys_seq_orders s H o Ho). lia.
      * pose proof (H4 o Ho). lia.
    + intros o Ho. apply in_app_iff in Ho as [Ho|[<-|[]]].
      * pose proof (H4 o Ho). lia.
      * simpl. lia.
  - intros c2 t2 Hne E. destruct (keys_sep_of c c2 t2 s H Hne E) as (A & B & C).
    simpl. repeat split; auto. rewrite map_app. apply disjoint_app_l. split; [exact C|].
    intros x [<-|[]] Hx. apply in_map_iff in Hx as (o & Eo & Ho). simpl in Eo.
    pose proof (ko_seq_orders s t2 (keys_tx s H c2 t2 E) o Ho). lia.
Qed.

Lemma add_product_keys c eid slug quota rs st s :
  Keys s ->
  existsb (same_product_key eid slug) (view_products c s) = false ->
  product_pending_elsewhere c eid slug s = false ->
  Keys (put c (tx_add_tickets rs
                 (tx_add_product (mk_product_row (seq_products s) eid slug quota)
                                 (tx_of c s)))
            (seq_events s) (seq_products s + 1) (seq_orders s) st s).
Proof.
  intros H Hv Hp. pose proof (keys_tx_of c s H) as Hok.
  apply put_keys; auto; try lia.
  - destruct Hok as [H1 H2 H3 H4]. constructor; simpl; auto.
    rewrite app_assoc, map_app. simpl. apply NoDup_app_parts.
    split; [exact H2|]. split; [repeat constructor; intros []|].
    intros x Hx [<-|[]].
    exact (existsb_false_not_in product_key _ (eid, slug) _
             (same_product_key_iff eid slug) Hv Hx).
  - intros c2 t2 Hne E. destruct (keys_sep_of c c2 t2 s H Hne E) as (A & B & C).
    simpl. repeat split; auto. rewrite map_app. apply disjoint_app_l. split; [exact B|].
    intros x [<-|[]].
    exact (pending_elsewhere_false product_key _ tx_products (eid, slug) c c2 t2 s
             (same_product_key_iff eid slug) Hp Hne E).
Qed.

Lemma NoDup_app3 {A} (l l1 l2 : list A) :
  List.NoDup (l ++ l1) -> List.NoDup (l ++ l2) -> disjoint l1 l2 ->
  List.NoDup ((l ++ l1) ++ l2).
Proof.
  intros H1 H2 D. apply NoDup_app_parts. split; [exact H1|].
  apply NoDup_app_parts in H2 as (_ & H2 & D2). split; [exact H2|].
  apply disjoint_app_l. auto.
Qed.

Lemma commit_keys c s : Keys s -> Keys (commit c s).
Proof.
  intros H. destruct (db_tx s !! c) as [t|] eqn:Ec;
    [rewrite (commit_some c s t Ec)|now rewrite commit_none].
  pose proof (keys_tx s H c t Ec) as [K1 K2 K3 K4].
  constructor; simpl; auto.
  - intros c' t' E. apply lookup_delete_Some in E as [Hne E].
    pose proof (keys_tx s H c' t' E) as [K1' K2' K3' K4'].
    destruct (keys_sep s H c c' t t' Hne Ec E) as (S1 & S2 & S3).
    constructor; simpl; auto.
    + rewrite !map_app in *. now apply NoDup_app3.
    + rewrite !map_app in *. now apply NoDup_app3.
    + rewrite !map_app in *. now apply NoDup_app3.
  - intros c1 c2 t1 t2 Hne E1 E2.
    apply lookup_delete_Some in E1 as [_ E1]. apply lookup_delete_Some in E2 as [_ E2].
    exact (keys_sep s H c1 c2 t1 t2 Hne E1 E2).
  - intros o Ho. apply in_app_iff in Ho as [Ho|Ho].
    + exact (keys_seq_orders s H o Ho).
    + exact (K4 o Ho).
Qed.

Lemma rollback_keys c s : Keys s -> Keys (rollback c s).
Proof.
  intros H. constructor; simpl.
  - intros c' t' E. apply lookup_delete_Some in E as [_ E].
    apply (keys_ok_seq s); simpl; auto; try lia. exact (keys_tx s H c' t' E).
  - intros c1 c2 t1 t2 Hne E1 E2.
    apply lookup_delete_Some in E1 as [_ E1]. apply lookup_delete_Some in E2 as [_ E2].
    exact (keys_sep s H c1 c2 t1 t2 Hne E1 E2).
  - exact (keys_events s H).
  - exact (keys_products s H).
  - exact (keys_orders s H).
  - exact (keys_seq_orders s H).
Qed.

Lemma autobegin_keys c s : Keys s -> Keys (autobegin c s).
Proof. intros H. rewrite autobegin_put. now apply put_same_keys. Qed.

Lemma call_keys c k s o s' :
  Inv s -> Keys s -> held c k s -> call c k s = (o, s') -> Keys s'.
Proof.
  intros H K Hh E. assert (Es : s' = snd (call c k s)) by now rewrite E.
  subst s'. clear E. destruct k; unfold call; rewrite outcome_state.
  - unfold begin_. cbn [snd]. now apply autobegin_keys.
  - unfold commit_. cbn [snd]. now apply commit_keys.
  - unfold rollback_. cbn [snd]. now apply rollback_keys.
  - rewrite event_ensure_eq.
    destruct (existsb _ _) eqn:E1; [now apply autobegin_keys|].
    destruct (event_pending_elsewhere _ _ _) eqn:E2; [now apply autobegin_keys|].
    now apply add_event_keys.
  - rewrite event_get_state. now apply autobegin_keys.
  - rewrite order_create_eq. destruct (event_known _ _ _); [|now apply autobegin_keys].
    now apply add_order_keys.
  - rewrite (product_ensure_inv_eq c event slug quota s H).
    destruct (existsb _ _) eqn:E1; [now apply autobegin_keys|].
    destruct (product_pending_elsewhere _ _ _ _) eqn:E2; [now apply autobegin_keys|].
    destruct (event_known _ _ _); [|now apply autobegin_keys].
    cbv zeta. cbn [snd]. now apply add_product_keys.
  - rewrite product_get_state. now apply autobegin_keys.
  - simpl in Hh. rewrite (ensure_tickets_held_eq c product s H Hh).
    now apply autobegin_keys.
  - rewrite availability_eq. now apply put_same_keys.
  - rewrite reserve_eq. destruct (quantity <? 0); [now apply autobegin_keys|].
    cbv zeta. destruct (firstn _ _) as [|r R] eqn:F; [now apply autobegin_keys|].
    destruct (order_known _ _ _); [|now apply autobegin_keys].
    cbn [snd]. unfold claimed. now apply put_same_keys.
  - rewrite count_free_eq. now apply autobegin_keys.
Qed.

Lemma init_keys : Keys init_db.
Proof.
  constructor; simpl.
  - intros c t E. now rewrite lookup_empty in E.
  - intros c1 c2 t1 t2 _ E. now rewrite lookup_empty in E.
  - constructor.
  - constructor.
  - constructor.
  - intros o [].
Qed.

Lemma run_keys tr s : run init_db tr s -> Keys s.
Proof.
  intros R. induction R as [|tr l s s' R IH St]; [exact init_keys|].
  destruct St as [c k o s' E _ Hh].
  exact (call_keys c k s o s' (run_inv init_db tr s init_inv R) IH Hh E).
Qed.

Lemma reachable_keys s : reachable s -> Keys s.
Proof. intros [tr R]. exact (run_keys tr s R). Qed.

(** ** Lookups *)

Lemma filter_map_comm {A B} (f : A -> B) (p : B -> bool) (l : list A) :
  List.filter p (List.map f l) = List.map f (List.filter (fun x => p (f x)) l).
Proof.
  induction l as [|a l IH]; simpl; [reflexivity|].
  destruct (p (f a)); simpl; now rewrite IH.
Qed.

Lemma event_get_eq c slug s :
  Event.get c slug s =
  (match List.filter (same_event_key slug) (view_events c s) with
   | [] => Raise KeyError
   | [r] => Ok (Event.mk (ev_id r) (ev_slug r))
   | _ :: _ :: _ => Raise MultipleRowsReturned
   end, autobegin c s).
Proof.
  unfold Event.get, get_row, bind, execute, select_where_limit_2.
  cbn [columns List.map fst known_columns forallb existsb String.eqb Ascii.eqb
       Bool.eqb orb andb negb length Nat.eqb select_star].
  rewrite view_events_autobegin, filter_map_comm.
  rewrite (filter_ext (fun x => where_matches ["id"; "slug"] [("slug", VStr slug)]
                                  (events_tuple x))
                      (same_event_key slug))
    by (intros r; unfold where_matches, same_event_key; cbn; apply andb_true_r).
  destruct (List.filter (same_event_key slug) (view_events c s)) as [|r [|r' l]];
    reflexivity.
Qed.

Lemma product_get_eq c event slug s :
  Product.get c event slug s =
  (match List.filter (same_product_key (Event.id event) slug) (view_products c s) with
   | [] => Raise KeyError
   | [r] => Ok (Product.mk (pr_id r) (pr_event_id r) (pr_slug r) (pr_quota r))
   | _ :: _ :: _ => Raise MultipleRowsReturned
   end, autobegin c s).
Proof.
  unfold Product.get, get_row, bind, execute, select_where_limit_2.
  cbn [columns List.map fst known_columns forallb existsb String.eqb Ascii.eqb
       Bool.eqb orb andb negb length Nat.eqb select_star].
  rewrite view_products_autobegin, filter_map_comm.
  rewrite (filter_ext (fun x => where_matches ["id"; "event_id"; "slug"; "quota"]
                                  [("event_id", VInt (Event.id event));
                                   ("slug", VStr slug)]
                                  (products_tuple x))
                      (same_product_key (Event.id event) slug))
    by (intros r; unfold where_matches, same_product_key; cbn;
        now rewrite andb_true_r).
  destruct (List.filter _ (view_products c s)) as [|r [|r' l]]; reflexivity.
Qed.

(** At most one element of a list without repeated keys has a given key. *)
Lemma filter_unique {A B} (f : A -> B) (p : A -> bool) (k : B) (l : list A) :
  (forall x, p x = true <-> f x = k) -> List.NoDup (List.map f l) ->
  List.filter p l = [] \/ exists x, List.filter p l = [x].
Proof.
  intros Hp. induction l as [|a l IH]; simpl; intros Hnd; [now left|].
  apply List.NoDup_cons_iff in Hnd as [Ha Hnd]. destruct (p a) eqn:E.
  - right. exists a. f_equal. apply Hp in E.
    destruct (List.filter p l) as [|y l'] eqn:F; [reflexivity|exfalso].
    assert (Hy : In y (List.filter p l)) by (rewrite F; now left).
    apply filter_In in Hy as [Hy Py]. apply Hp in Py.
    apply Ha. rewrite E, <- Py. now apply in_map.
  - now apply IH.
Qed.

Lemma filter_nil_iff {A} (p : A -> bool) (l : list A) :
  List.filter p l = [] <-> forall x, In x l -> p x = false.
Proof.
  split.
  - intros E x Hx. destruct (p x) eqn:P; [|reflexivity].
    assert (H : In x (List.filter p l)) by now apply filter_In.
    rewrite E in H. destruct H.
  - intros H. induction l as [|a l IH]; simpl; [reflexivity|].
    rewrite (H a) by now left. apply IH. intros x Hx. apply H. now right.
Qed.

Lemma view_events_keys c s : Keys s -> List.NoDup (List.map ev_slug (view_events c s)).
Proof. intros H. exact (ko_events s _ (keys_tx_of c s H)). Qed.

Lemma view_products_keys c s :
  Keys s -> List.NoDup (List.map product_key (view_products c s)).
Proof. intros H. exact (ko_products s _ (keys_tx_of c s H)). Qed.

Lemma view_orders_keys c s : Keys s -> List.NoDup (List.map or_id (view_orders c s)).
Proof. intros H. exact (ko_orders s _ (keys_tx_of c s H)). Qed.

Lemma event_get_keys c slug s :
  Keys s ->
  (fst (Event.get c slug s) = Raise KeyError <->
   ~ In slug (List.map ev_slug (view_events c s))) /\
  (forall id, In (mk_event_row id slug) (view_events c s) ->
     fst (Event.get c slug s) = Ok (Event.mk id slug)) /\
  fst (Event.get c slug s) <> Raise MultipleRowsReturned.
Proof.
  intros K. rewrite event_get_eq. cbn [fst].
  destruct (filter_unique ev_slug (same_event_key slug) slug (view_events c s)
              (same_event_key_iff slug) (view_events_keys c s K)) as [E|[x E]];
    rewrite E.
  - split; [|split; [|discriminate]].
    + split; [intros _|reflexivity]. intros Hin.
      apply in_map_iff in Hin as (r & Er & Hr).
      pose proof (proj1 (filter_nil_iff _ _) E r Hr) as F.
      apply same_event_key_iff in Er. congruence.
    + intros id Hin. pose proof (proj1 (filter_nil_iff _ _) E _ Hin) as F.
      unfold same_event_key in F. simpl in F. rewrite String.eqb_refl in F.
      discriminate.
  - assert (Hx : In x (List.filter (same_event_key slug) (view_events c s)))
      by (rewrite E; now left).
    apply filter_In in Hx as [Hx Px]. apply same_event_key_iff in Px.
    split; [|split; [|discriminate]].
    + split; [discriminate|]. intros Hn. exfalso. apply Hn. rewrite <- Px.
      now apply in_map.
    + intros id Hin.
      assert (Hy : In (mk_event_row id slug)
                      (List.filter (same_event_key slug) (view_events c s))).
      { apply filter_In. split; [exact Hin|]. now apply same_event_key_iff. }
      rewrite E in Hy. destruct Hy as [->|[]]. reflexivity.
Qed.

(** X1: [Event.get] (through [get_row]) raises [KeyError] exactly when the
    connection sees no event with the slug, returns the event when it sees
    one, never raises [MultipleRowsReturned] in a state the code can reach,
    and changes no row. *)
Theorem event_get_spec (c : nat) (slug : string) (s : DB) :
  reachable s ->
  (fst (Event.get c slug s) = Raise KeyError <->
   ~ In slug (List.map ev_slug (view_events c s))) /\
  (forall id, In (mk_event_row id slug) (view_events c s) ->
     fst (Event.get c slug s) = Ok (Event.mk id slug)) /\
  fst (Event.get c slug s) <> Raise MultipleRowsReturned /\
  same_rows s (snd (Event.get c slug s)).
Proof.
  intros Hreach. destruct (event_get_keys c slug s (reachable_keys s Hreach))
    as (A & B & C).
  repeat split; try apply A; auto.
  all: rewrite event_get_state; apply same_rows_autobegin.
Qed.

(** X1 at work: the event of the scenario, and a slug nobody has used. *)
Lemma event_get_spec_witness :
  let s := snd (exec setup init_db) in
  reachable s /\
  fst (Event.get 1 "test-event" s) = Ok test_event /\
  fst (Event.get 1 "other" s) = Raise KeyError.
Proof.
  intros s.
  assert (H : reachable s) by (apply exec_reachable; vm_compute; reflexivity).
  split; [exact H|]. split.
  - apply (proj1 (proj2 (event_get_spec 1 "test-event" s H)) 1).
    vm_compute. auto.
  - apply (proj1 (event_get_spec 1 "other" s H)). vm_compute. intuition discriminate.
Defined.

Lemma view_events_put c t se sp so st s :
  view_events c (put c t se sp so st s) = db_events s ++ tx_events t.
Proof. unfold view_events. now rewrite tx_of_put. Qed.

Lemma view_products_put c t se sp so st s :
  view_products c (put c t se sp so st s) = db_products s ++ tx_products t.
Proof. unfold view_products. now rewrite tx_of_put. Qed.

Lemma view_orders_put c t se sp so st s :
  view_orders c (put c t se sp so st s) = db_orders s ++ tx_orders t.
Proof. unfold view_orders. now rewrite tx_of_put. Qed.

Lemma existsb_false_filter {A} (p : A -> bool) (l : list A) :
  existsb p l = false -> List.filter p l = [].
Proof.
  intros E. apply filter_nil_iff. intros x Hx. destruct (p x) eqn:P; [|reflexivity].
  assert (T : existsb p l = true) by (apply existsb_exists; eauto). congruence.
Qed.

(** X2: insert then look up.  When [Event.ensure] returns an event, it carries
    the slug asked for, and [Event.get] with that slug on the same connection
    returns the same event, in any state. *)
Theorem event_ensure_then_get (c : nat) (slug : string) (s : DB) (e : Event.t) :
  fst (Event.ensure c slug s) = Ok e ->
  Event.slug e = slug /\
  fst (Event.get c slug (snd (Event.ensure c slug s))) = Ok e.
Proof.
  rewrite event_ensure_eq.
  destruct (existsb _ (view_events c s)) eqn:E1; [discriminate|].
  destruct (event_pending_elsewhere _ _ _); [discriminate|].
  cbn [fst snd]. intros E. inversion E; subst e. clear E. split; [reflexivity|].
  rewrite event_get_eq, view_events_put. cbn [fst tx_add_event tx_events].
  rewrite app_assoc, List.filter_app. fold (view_events c s).
  rewrite (existsb_false_filter _ _ E1). cbn.
  unfold same_event_key. cbn. now rewrite String.eqb_refl.
Qed.

(** X2 at work: the first event of an empty store. *)
Lemma event_ensure_then_get_witness :
  fst (Event.ensure 0 "e" init_db) = Ok (Event.mk 1 "e") /\
  fst (Event.get 0 "e" (snd (Event.ensure 0 "e" init_db))) = Ok (Event.mk 1 "e").
Proof.
  assert (H : fst (Event.ensure 0 "e" init_db) = Ok (Event.mk 1 "e"))
    by (vm_compute; reflexivity).
  split; [exact H|].
  exact (proj2 (event_ensure_then_get 0 "e" init_db (Event.mk 1 "e") H)).
Defined.

Lemma product_get_keys c event slug s :
  Keys s ->
  (fst (Product.get c event slug s) = Raise KeyError <->
   ~ In (Event.id event, slug) (List.map product_key (view_products c s))) /\
  (forall id quota,
     In (mk_product_row id (Event.id event) slug quota) (view_products c s) ->
     fst (Product.get c event slug s) = Ok (Product.mk id (Event.id event) slug quota)) /\
  fst (Product.get c event slug s) <> Raise MultipleRowsReturned.
Proof.
  intros K. rewrite product_get_eq. cbn [fst].
  pose proof (same_product_key_iff (Event.id event) slug) as Hiff.
  destruct (filter_unique product_key (same_product_key (Event.id event) slug)
              (Event.id event, slug) (view_products c s) Hiff
              (view_products_keys c s K)) as [E|[x E]];
    rewrite E.
  - split; [|split; [|discriminate]].
    + split; [intros _|reflexivity]. intros Hin.
      apply in_map_iff in Hin as (r & Er & Hr).
      pose proof (proj1 (filter_nil_iff _ _) E r Hr) as F.
      apply Hiff in Er. congruence.
    + intros id quota Hin. pose proof (proj1 (filter_nil_iff _ _) E _ Hin) as F.
      assert (T : same_product_key (Event.id event) slug
                    (mk_product_row id (Event.id event) slug quota) = true)
        by now apply Hiff.
      congruence.
  - assert (Hx : In x (List.filter (same_product_key (Event.id event) slug)
                         (view_products c s)))
      by (rewrite E; now left).
    apply filter_In in Hx as [Hx Px]. apply Hiff in Px.
    split; [|split; [|discriminate]].
    + split; [discriminate|]. intros Hn. exfalso. apply Hn. rewrite <- Px.
      now apply in_map.
    + intros id quota Hin.
      assert (Hy : In (mk_product_row id (Event.id event) slug quota)
                      (List.filter (same_product_key (Event.id event) slug)
                         (view_products c s))).
      { apply filter_In. split; [exact Hin|]. now apply Hiff. }
      rewrite E in Hy. destruct Hy as [->|[]]. reflexivity.
Qed.

(** X3: [Product.get] raises [KeyError] exactly when the connection sees no
    product of the event with the slug, returns the product, with its stored
    quota, when it sees one, never raises [MultipleRowsReturned] in a state
    the code can reach, and changes no row. *)
Theorem product_get_spec (c : nat) (event : Event.t) (slug : string) (s : DB) :
  reachable s ->
  (fst (Product.get c event slug s) = Raise KeyError <->
   ~ In (Event.id event, slug) (List.map product_key (view_products c s))) /\
  (forall id quota,
     In (mk_product_row id (Event.id event) slug quota) (view_products c s) ->
     fst (Product.get c event slug s) = Ok (Product.mk id (Event.id event) slug quota)) /\
  fst (Product.get c event slug s) <> Raise MultipleRowsReturned /\
  same_rows s (snd (Product.get c event slug s)).
Proof.
  intros Hreach. destruct (product_get_keys c event slug s (reachable_keys s Hreach))
    as (A & B & C).
  split; [exact A|]. split; [exact B|]. split; [exact C|].
  rewrite product_get_state. apply same_rows_autobegin.
Qed.

(** X3 at work: the product of the scenario, and a slug nobody has used. *)
Lemma product_get_spec_witness :
  let s := snd (exec setup init_db) in
  reachable s /\
  fst (Product.get 1 test_event "test-product" s) = Ok test_product /\
  fst (Product.get 1 test_event "other" s) = Raise KeyError.
Proof.
  intros s.
  assert (H : reachable s) by (apply exec_reachable; vm_compute; reflexivity).
  split; [exact H|]. split.
  - apply (proj1 (proj2 (product_get_spec 1 test_event "test-product" s H)) 1 10).
    vm_compute. auto.
  - apply (proj1 (product_get_spec 1 test_event "other" s H)).
    vm_compute. intuition discriminate.
Defined.

(** X4: insert then look up.  When [Product.ensure] returns a product, it
    belongs to the event and carries the slug and the quota asked for, and
    [Product.get] on the same connection returns the same product. *)
Theorem product_ensure_then_get (c : nat) (event : Event.t) (slug : string)
    (quota : Z) (s : DB) (p : Product.t) :
  reachable s ->
  fst (Product.ensure c event slug quota s) = Ok p ->
  Product.event_id p = Event.id event /\ Product.slug p = slug /\
  Product.quota p = quota /\
  fst (Product.get c event slug (snd (Product.ensure c event slug quota s))) = Ok p.
Proof.
  intros Hreach. apply reachable_inv in Hreach as H.
  rewrite (product_ensure_inv_eq c event slug quota s H).
  destruct (existsb _ (view_products c s)) eqn:E1; [discriminate|].
  destruct (product_pending_elsewhere _ _ _ _); [discriminate|].
  destruct (event_known _ _ _); [|discriminate].
  cbv zeta. cbn [fst snd]. destruct (quota <? 0); [discriminate|].
  intros E. inversion E; subst p. clear E. repeat split.
  rewrite product_get_eq, view_products_put.
  cbn [fst tx_add_tickets tx_add_product tx_products].
  rewrite app_assoc, List.filter_app. fold (view_products c s).
  rewrite (existsb_false_filter _ _ E1). cbn.
  unfold same_product_key. cbn. now rewrite Z.eqb_refl, String.eqb_refl.
Qed.

(** X4 at work: the product of the scenario. *)
Lemma product_ensure_then_get_witness :
  let s := snd (Event.ensure 0 "test-event" init_db) in
  reachable s /\
  fst (Product.ensure 0 test_event "test-product" 10 s) = Ok test_product /\
  fst (Product.get 0 test_event "test-product"
         (snd (Product.ensure 0 test_event "test-product" 10 s))) = Ok test_product.
Proof.
  intros s.
  assert (H1 : reachable s).
  { apply (exec_reachable [(0%nat, EventEnsure "test-event")]). vm_compute. reflexivity. }
  assert (H2 : fst (Product.ensure 0 test_event "test-product" 10 s) = Ok test_product)
    by (vm_compute; reflexivity).
  split; [exact H1|]. split; [exact H2|].
  exact (proj2 (proj2 (proj2
           (product_ensure_then_get 0 test_event "test-product" 10 s test_product H1 H2)))).
Defined.

(** X5: get-or-create never makes a second row.  In every state the code can
    reach, no two committed events share a slug and no two committed products
    share an event and a slug, and the same holds among the rows any one
    connection sees, its own uncommitted rows included. *)
Theorem keys_unique (s : DB) :
  reachable s ->
  List.NoDup (List.map ev_slug (db_events s)) /\
  List.NoDup (List.map product_key (db_products s)) /\
  forall c, List.NoDup (List.map ev_slug (view_events c s)) /\
            List.NoDup (List.map product_key (view_products c s)).
Proof.
  intros Hreach. pose proof (reachable_keys s Hreach) as K.
  split; [exact (keys_events s K)|]. split; [exact (keys_products s K)|].
  intros c. split; [now apply view_events_keys|now apply view_products_keys].
Qed.

(** X5 at work: after the set-up of the scenario. *)
Lemma keys_unique_witness :
  let s := snd (exec setup init_db) in
  reachable s /\ List.NoDup (List.map ev_slug (db_events s)).
Proof.
  intros s.
  assert (H : reachable s) by (apply exec_reachable; vm_compute; reflexivity).
  split; [exact H|exact (proj1 (keys_unique s H))].
Defined.

(** X6: [Order.create] on an event the connection sees returns an order of
    that event whose id no order the connection sees carries, and adds its
    row, which the connection sees from then on (so a [reserve] for it meets
    the foreign key); on an event the connection does not see it raises
    [ForeignKeyViolation] and changes no row.  The [AssertionError] of the
    source is never raised. *)
Theorem order_create_spec (c : nat) (event : Event.t) (s : DB) :
  reachable s ->
  (event_known c (Event.id event) s = false ->
   fst (Order.create c event s) = Raise ForeignKeyViolation /\
   same_rows s (snd (Order.create c event s))) /\
  (event_known c (Event.id event) s = true ->
   exists o,
     fst (Order.create c event s) = Ok o /\
     Order.event_id o = Event.id event /\
     ~ In (Order.id o) (List.map or_id (view_orders c s)) /\
     view_orders c (snd (Order.create c event s))
     = view_orders c s ++ [mk_order_row (Order.id o) (Event.id event)] /\
     order_known c (Order.id o) (snd (Order.create c event s)) = true).
Proof.
  intros Hreach. pose proof (reachable_keys s Hreach) as K.
  rewrite order_create_eq. split; intros E; rewrite E; cbn [fst snd].
  - split; [reflexivity|apply same_rows_autobegin].
  - eexists. split; [reflexivity|]. cbn [Order.event_id Order.id].
    split; [reflexivity|]. split; [|split].
    + intros Hin. apply in_map_iff in Hin as (o & Eo & Ho).
      apply in_app_iff in Ho as [Ho|Ho].
      * pose proof (keys_seq_orders s K o Ho). lia.
      * pose proof (ko_seq_orders s _ (keys_tx_of c s K) o Ho). lia.
    + rewrite view_orders_put. cbn. now rewrite app_assoc.
    + unfold order_known. rewrite view_orders_put. cbn.
      rewrite !existsb_app. cbn. rewrite Z.eqb_refl. now rewrite ?orb_true_r.
Qed.

(** X6 at work: the first order of the scenario. *)
Lemma order_create_spec_witness :
  let s := snd (exec setup init_db) in
  reachable s /\ event_known 1 (Event.id test_event) s = true /\
  exists o, fst (Order.create 1 test_event s) = Ok o /\
            order_known 1 (Order.id o) (snd (Order.create 1 test_event s)) = true.
Proof.
  intros s.
  assert (H1 : reachable s) by (apply exec_reachable; vm_compute; reflexivity).
  assert (H2 : event_known 1 (Event.id test_event) s = true) by (vm_compute; reflexivity).
  split; [exact H1|]. split; [exact H2|].
  destruct (proj2 (order_create_spec 1 test_event s H1) H2) as (o & A & _ & _ & _ & B).
  exists o. auto.
Defined.

(** ** More on reservations *)

Lemma tx_add_updated_nil t : tx_add_updated [] t = t.
Proof. now destruct t. Qed.

Lemma claimed_nil c oid s : claimed c oid [] s = autobegin c s.
Proof. unfold claimed. simpl. now rewrite tx_add_updated_nil, autobegin_put. Qed.

(** What a [reserve] call that returned has done. *)
Lemma reserve_ok c order product N s ts :
  fst (Ticket.reserve c order product N s) = Ok ts ->
  let R := firstn (Z.to_nat N) (free_unlocked c s (Product.id product)) in
  0 <= N /\ Z.of_nat (length R) = N /\
  ts = List.map (ticket_of order product) (List.map tk_id R) /\
  snd (Ticket.reserve c order product N s) = claimed c (Order.id order) R s.
Proof.
  rewrite reserve_eq. destruct (N <? 0) eqn:E0; [discriminate|].
  apply Z.ltb_ge in E0. cbv zeta.
  pose proof (length_firstn_Z N (free_unlocked c s (Product.id product)) E0) as HL.
  destruct (firstn _ _) as [|r R] eqn:F.
  - destruct (0 <? N) eqn:E1; [discriminate|]. apply Z.ltb_ge in E1.
    cbn [fst snd]. intros E. inversion E. subst ts.
    rewrite claimed_nil. repeat split; auto. simpl. lia.
  - destruct (order_known _ _ _); [|discriminate].
    destruct (Z.of_nat (length (r :: R)) <? N) eqn:E1; [discriminate|].
    apply Z.ltb_ge in E1. cbn [fst snd]. intros E. inversion E. subst ts.
    repeat split; auto. lia.
Qed.

(** What a [reserve] call that raised [NotEnoughTickets] has done. *)
Lemma reserve_failed c order product N s :
  fst (Ticket.reserve c order product N s) = Raise NotEnoughTickets ->
  Z.of_nat (length (free_unlocked c s (Product.id product))) < N /\
  snd (Ticket.reserve c order product N s)
  = claimed c (Order.id order) (free_unlocked c s (Product.id product)) s.
Proof.
  rewrite reserve_eq. destruct (N <? 0) eqn:E0; [discriminate|].
  apply Z.ltb_ge in E0. cbv zeta.
  pose proof (length_firstn_Z N (free_unlocked c s (Product.id product)) E0) as HL.
  destruct (firstn _ _) as [|r R] eqn:F.
  - destruct (0 <? N) eqn:E1; [|discriminate]. apply Z.ltb_lt in E1.
    cbn [fst snd]. intros _. simpl in HL.
    assert (E : free_unlocked c s (Product.id product) = []).
    { destruct (free_unlocked c s (Product.id product)); [reflexivity|].
      simpl in HL. lia. }
    rewrite E, claimed_nil. simpl. auto.
  - destruct (order_known _ _ _); [|discriminate].
    destruct (Z.of_nat (length (r :: R)) <? N) eqn:E1; [|discriminate].
    apply Z.ltb_lt in E1. cbn [fst snd]. intros _.
    assert (Hlen : Z.of_nat (length (free_unlocked c s (Product.id product))) < N) by lia.
    split; [exact Hlen|]. rewrite <- F. f_equal. apply firstn_all2. lia.
Qed.

Lemma claimed_inv c order product N s :
  Inv s ->
  Inv (claimed c (Order.id order)
         (firstn (Z.to_nat N) (free_unlocked c s (Product.id product))) s).
Proof.
  intros H. apply (add_updated_inv c (Product.id product)); [exact H| |].
  - intros x Hx. eapply firstn_In; eauto.
  - apply NoDup_map_firstn. now apply free_unlocked_ids.
Qed.

Lemma firstn_products c s pid n r :
  In r (firstn n (free_unlocked c s pid)) -> tk_product_id r = pid.
Proof. intros Hr. apply firstn_In, free_unlocked_in in Hr. tauto. Qed.

Lemma count_free_claimed c order product N s :
  Inv s ->
  let R := firstn (Z.to_nat N) (free_unlocked c s (Product.id product)) in
  count_free (Product.id product) (view_tickets c (claimed c (Order.id order) R s))
  = count_free (Product.id product) (view_tickets c s) - Z.of_nat (length R).
Proof.
  intros H R. pose proof (claimed_inv c order product N s H) as H'. fold R in H'.
  rewrite (view_count_free c _ _ H'), (view_count_free c _ s H).
  unfold claimed. rewrite tx_of_put. cbn [tx_add_updated tx_tickets tx_updated db_tickets put].
  rewrite count_tickets_app, count_tickets_set_order.
  rewrite (count_tickets_same_product _ (Product.id product) R)
    by (intros r Hr; now apply (firstn_products c s _ (Z.to_nat N))).
  rewrite Z.eqb_refl. lia.
Qed.

(** X7: when [reserve] returns for quantity [N], it returns [N] tickets, and
    [Ticket.count_free] on the same connection has gone down by exactly [N];
    the committed rows are untouched, so what [Ticket.count_free] tells every
    other connection is what it told before. *)
Theorem count_free_after_reserve (c : nat) (order : Order.t) (product : Product.t)
    (N : Z) (s : DB) (ts : list Ticket.t) :
  reachable s ->
  fst (Ticket.reserve c order product N s) = Ok ts ->
  let s' := snd (Ticket.reserve c order product N s) in
  Z.of_nat (length ts) = N /\
  fst (Ticket.count_free c product s')
  = Ok (count_free (Product.id product) (view_tickets c s) - N) /\
  (forall c', c' <> c ->
     fst (Ticket.count_free c' product s') = fst (Ticket.count_free c' product s)).
Proof.
  intros Hreach Hok s'. apply reachable_inv in Hreach as H.
  destruct (reserve_ok c order product N s ts Hok) as (HN & HL & Hts & Hs).
  subst s'. rewrite Hs. split; [|split].
  - rewrite Hts, !length_map. exact HL.
  - rewrite count_free_eq. cbn [fst].
    rewrite (count_free_claimed c order product N s H). cbv zeta. now rewrite HL.
  - intros c' Hne. rewrite !count_free_eq. cbn [fst]. unfold claimed.
    rewrite view_tickets_put_ne by congruence. reflexivity.
Qed.

(** X7 at work: 3 of the 10 tickets. *)
Lemma count_free_after_reserve_witness :
  let s := snd (exec one_buyer init_db) in
  reachable s /\
  fst (Ticket.count_free 1 test_product
         (snd (Ticket.reserve 1 order_1 test_product 3 s)))
  = Ok (count_free 1 (view_tickets 1 s) - 3).
Proof.
  intros s.
  assert (H1 : reachable s) by (apply exec_reachable; vm_compute; reflexivity).
  assert (H2 : fst (Ticket.reserve 1 order_1 test_product 3 s)
               = Ok [Ticket.mk 1 1 1; Ticket.mk 2 1 1; Ticket.mk 3 1 1])
    by (vm_compute; reflexivity).
  split; [exact H1|].
  exact (proj1 (proj2 (count_free_after_reserve 1 order_1 test_product 3 s _ H1 H2))).
Defined.

Lemma map_id_set_order oid R :
  List.map tk_id (List.map (set_order oid) R) = List.map tk_id R.
Proof. rewrite List.map_map. now apply List.map_ext. Qed.

(** What the connection can still claim after it has claimed the rows [R]:
    what it could claim before, less [R]. *)
Lemma free_unlocked_claimed c oid R s pid r :
  List.NoDup (List.map tk_id R) ->
  In r (free_unlocked c (claimed c oid R s) pid) <->
  In r (free_unlocked c s pid) /\ ~ In (tk_id r) (List.map tk_id R).
Proof.
  intros Hnd. rewrite !free_unlocked_in. unfold claimed at 2.
  rewrite locked_elsewhere_put, view_tickets_claimed. unfold view_tickets.
  split.
  - intros (Hv & Hp & Hf & Hl). apply in_map_iff in Hv as (b & Eb & Hb).
    destruct (in_dec Z.eq_dec (tk_id b) (List.map tk_id R)) as [Hin|Hout].
    + exfalso. apply in_map_iff in Hin as (x & Ex & Hx).
      rewrite (new_version_app_hit _ _ (set_order oid x)) in Eb.
      * subst r. discriminate Hf.
      * now rewrite map_id_set_order.
      * now apply in_map.
      * exact Ex.
    + rewrite new_version_app_miss in Eb by now rewrite map_id_set_order.
      repeat split; auto.
      * apply in_map_iff. now exists b.
      * rewrite <- Eb, new_version_id. exact Hout.
  - intros ((Hv & Hp & Hf & Hl) & Hout). apply in_map_iff in Hv as (b & Eb & Hb).
    repeat split; auto. apply in_map_iff. exists b. split; [|exact Hb].
    rewrite new_version_app_miss; [exact Eb|].
    rewrite map_id_set_order. rewrite <- Eb, new_version_id in Hout. exact Hout.
Qed.

(** ** A ticket is handed out once *)

Lemma reserve_state_cases c order product N s :
  exists R, snd (Ticket.reserve c order product N s) = claimed c (Order.id order) R s /\
            (R = [] \/ R = firstn (Z.to_nat N) (free_unlocked c s (Product.id product))).
Proof.
  rewrite reserve_eq. destruct (N <? 0).
  { exists []. rewrite claimed_nil. auto. }
  cbv zeta. destruct (firstn _ _) as [|r R] eqn:F.
  { exists []. rewrite claimed_nil. auto. }
  destruct (order_known _ _ _).
  - exists (r :: R). auto.
  - exists []. rewrite claimed_nil. auto.
Qed.

Lemma updated_open c s x :
  In x (List.map tk_id (tx_updated (tx_of c s))) ->
  exists t, db_tx s !! c = Some t /\ tx_of c s = t.
Proof.
  unfold tx_of. destruct (db_tx s !! c) as [t|]; simpl; [eauto|tauto].
Qed.

Lemma taken_not_free c x s c' pid r :
  Inv s -> taken c x s -> In r (free_unlocked c' s pid) -> tk_id r <> x.
Proof.
  intros H Ht Hr Ex. apply free_unlocked_in in Hr as (Hv & _ & Hf & Hl).
  pose proof (inv_tx_of c' s H) as Hok'.
  destruct (free_view_row s _ r Hok' Hv Hf) as (Hb & Hout).
  destruct Ht as [Hu|(r0 & Hr0 & E0 & Hs)].
  - destruct (decide (c' = c)) as [->|Hne].
    + apply Hout. now rewrite Ex.
    + destruct (updated_open c s x Hu) as (t & Et & Etx).
      assert (L : locked_elsewhere c' s (tk_id r) = true).
      { apply locked_elsewhere_spec. exists c, t. repeat split; auto.
        unfold tx_locks. apply in_or_app. left. rewrite Ex, <- Etx. exact Hu. }
      congruence.
  - assert (E : r0 = r).
    { apply (NoDup_map_eq tk_id (db_tickets s ++ tx_tickets (tx_of c' s))).
      - exact (ok_ids s _ Hok').
      - apply in_or_app. now left.
      - exact Hb.
      - congruence. }
    subst r0. contradiction.
Qed.

Lemma taken_call c x c' k s :
  Inv s -> held c' k s -> ~ (c' = c /\ k = Rollback) ->
  taken c x s -> taken c x (snd (call c' k s)).
Proof.
  intros H Hh Hnr Ht.
  destruct (call_cases k) as [->|[->|[(od & p & n & ->)|(N1 & N2 & N3)]]].
  - unfold call. rewrite outcome_state. cbn [commit_ snd].
    destruct Ht as [Hu|(r0 & Hr0 & E0 & Hs)].
    + destruct (decide (c' = c)) as [->|Hne].
      * right. destruct (updated_open c s x Hu) as (t & Et & Etx).
        rewrite Etx in Hu. pose proof (inv_tx s H c t Et) as Hok.
        apply in_map_iff in Hu as (u & Eu & Hu).
        destruct (ok_upd_base s t Hok u Hu) as (Hsold & Hbase).
        exists u. rewrite (commit_some c s t Et). cbn [db_tickets].
        repeat split; auto. apply in_map_iff.
        exists (mk_ticket_row (tk_id u) (tk_product_id u) None). split; [|exact Hbase].
        rewrite <- (app_nil_r (tx_updated t)).
        apply new_version_app_hit; auto. exact (ok_upd_ids s t Hok).
      * left. now rewrite tx_of_commit_ne by congruence.
    + right. exists r0. repeat split; auto. now apply sold_committed_kept.
  - unfold call. rewrite outcome_state. cbn [rollback_ snd].
    destruct Ht as [Hu|Hc].
    + left. rewrite tx_of_rollback_ne; [exact Hu|]. intros ->. now apply Hnr.
    + right. exact Hc.
  - unfold call. rewrite outcome_state.
    destruct (reserve_state_cases c' od p n s) as (R & E & _). rewrite E.
    destruct Ht as [Hu|Hc].
    + left. unfold claimed. destruct (decide (c' = c)) as [->|Hne].
      * rewrite tx_of_put. cbn [tx_add_updated tx_updated].
        rewrite map_app. apply in_or_app. now right.
      * now rewrite tx_of_put_ne.
    + right. exact Hc.
  - destruct (call_put_form c' k s H Hh N1 N2 N3)
      as (tx & se & sp & so & st & X & E & Eu & _).
    rewrite E. destruct Ht as [Hu|Hc].
    + left. destruct (decide (c' = c)) as [->|Hne].
      * now rewrite tx_of_put, Eu.
      * now rewrite tx_of_put_ne.
    + right. exact Hc.
Qed.

Lemma taken_run c x s0 tr s :
  Inv s0 -> taken c x s0 -> run s0 tr s ->
  (forall o, ~ In (c, Rollback, o) tr) ->
  Inv s /\ taken c x s.
Proof.
  intros H0 T0 R. induction R as [|tr l s s' R IH St]; intros Hnr; [auto|].
  destruct IH as (H & T).
  { intros o Hin. apply (Hnr o). apply in_or_app. now left. }
  split; [eapply step_inv; eauto|].
  inversion St as [c' k o s1 E _ Hh]; subst.
  replace s' with (snd (call c' k s)) by now rewrite E.
  apply taken_call; auto. intros [-> ->].
  apply (Hnr o). apply in_or_app. right. now left.
Qed.

(** X9: a ticket is handed out once.  The tickets a [reserve] call returned
    are returned by no later [reserve] call of any connection, for any order
    and product, whatever calls, commits and rollbacks come in between, as
    long as the connection that reserved them does not roll back. *)
Theorem reserved_once (c1 c2 : nat) (o1 o2 : Order.t) (p1 p2 : Product.t)
    (N1 N2 : Z) (s s2 : DB) (tr : list Label) (ts1 ts2 : list Ticket.t) :
  reachable s ->
  fst (Ticket.reserve c1 o1 p1 N1 s) = Ok ts1 ->
  run (snd (Ticket.reserve c1 o1 p1 N1 s)) tr s2 ->
  (forall o, ~ In (c1, Rollback, o) tr) ->
  fst (Ticket.reserve c2 o2 p2 N2 s2) = Ok ts2 ->
  disjoint (List.map Ticket.id ts1) (List.map Ticket.id ts2).
Proof.
  intros Hreach Hok1 R Hnr Hok2 x Hx1 Hx2. apply reachable_inv in Hreach as H.
  destruct (reserve_ok c1 o1 p1 N1 s ts1 Hok1) as (_ & _ & Hts1 & Hs1).
  destruct (reserve_ok c2 o2 p2 N2 s2 ts2 Hok2) as (_ & _ & Hts2 & _).
  rewrite Hs1 in R.
  assert (Hids : forall o p l, List.map Ticket.id (List.map (ticket_of o p) l) = l).
  { intros o p l. rewrite List.map_map. apply List.map_id. }
  rewrite Hts1, Hids in Hx1. rewrite Hts2, Hids in Hx2.
  destruct (taken_run c1 x _ tr s2 (claimed_inv c1 o1 p1 N1 s H)) as (H2 & T2); auto.
  { left. unfold claimed. rewrite tx_of_put. cbn [tx_add_updated tx_updated].
    rewrite map_app, map_id_set_order. apply in_or_app. now left. }
  apply in_map_iff in Hx2 as (r & Er & Hr). apply firstn_In in Hr.
  exact (taken_not_free c1 x s2 c2 _ r H2 T2 Hr Er).
Qed.

(** X9 at work: the same buyer reserves 3 twice. *)
Lemma reserved_once_witness :
  let s := snd (exec one_buyer init_db) in
  let s1 := snd (Ticket.reserve 1 order_1 test_product 3 s) in
  reachable s /\
  disjoint [1; 2; 3] [4; 5; 6].
Proof.
  intros s s1.
  assert (H1 : reachable s) by (apply exec_reachable; vm_compute; reflexivity).
  assert (H2 : fst (Ticket.reserve 1 order_1 test_product 3 s)
               = Ok [Ticket.mk 1 1 1; Ticket.mk 2 1 1; Ticket.mk 3 1 1])
    by (vm_compute; reflexivity).
  assert (H3 : fst (Ticket.reserve 1 order_1 test_product 3 s1)
               = Ok [Ticket.mk 4 1 1; Ticket.mk 5 1 1; Ticket.mk 6 1 1])
    by (vm_compute; reflexivity).
  split; [exact H1|].
  exact (reserved_once 1 1 order_1 order_1 test_product test_product 3 3 s s1 []
           _ _ H1 H2 (run_nil s1) (fun o (F : In (1%nat, Rollback, o) []) => F) H3).
Defined.

(** X8: a [reserve] call that raises [NotEnoughTickets] has by then claimed
    for the order every ticket of the product it could lock: fewer than asked
    for, all marked with the order in the caller's transaction.  Right after
    the call the connection finds no claimable ticket of the product, and
    [Ticket.count_free] on it has gone down by the number claimed.  As long
    as the caller does not roll back, no [reserve] call of any connection
    returns one of the claimed tickets, whatever calls and commits come in
    between. *)
Theorem failed_reserve_claims_all (c : nat) (order : Order.t) (product : Product.t)
    (N : Z) (s : DB) :
  reachable s ->
  fst (Ticket.reserve c order product N s) = Raise NotEnoughTickets ->
  let s' := snd (Ticket.reserve c order product N s) in
  let avail := free_unlocked c s (Product.id product) in
  Z.of_nat (length avail) < N /\
  (forall r, In r avail -> In (set_order (Order.id order) r) (tx_updated (tx_of c s'))) /\
  free_unlocked c s' (Product.id product) = [] /\
  fst (Ticket.count_free c product s')
  = Ok (count_free (Product.id product) (view_tickets c s) - Z.of_nat (length avail)) /\
  (forall tr s2 c2 o2 p2 N2 ts2,
     run s' tr s2 -> (forall o, ~ In (c, Rollback, o) tr) ->
     fst (Ticket.reserve c2 o2 p2 N2 s2) = Ok ts2 ->
     disjoint (List.map tk_id avail) (List.map Ticket.id ts2)).
Proof.
  intros Hreach Hfail s' avail. apply reachable_inv in Hreach as H.
  destruct (reserve_failed c order product N s Hfail) as (HL & Hs).
  subst s'. rewrite Hs. fold avail.
  assert (Hnd : List.NoDup (List.map tk_id avail)) by now apply free_unlocked_ids.
  assert (Hall : firstn (Z.to_nat N) avail = avail)
    by (apply firstn_all2; unfold avail; lia).
  split; [exact HL|]. split; [|split; [|split]].
  - intros r Hr. unfold claimed. rewrite tx_of_put. cbn [tx_add_updated tx_updated].
    apply in_or_app. left. now apply in_map.
  - apply filter_nil_iff. intros r Hr.
    destruct (_ && _) eqn:E; [|reflexivity]. exfalso.
    assert (Hin : In r (free_unlocked c (claimed c (Order.id order) avail s)
                                      (Product.id product)))
      by (unfold free_unlocked; apply filter_In; split; [exact Hr|exact E]).
    apply (free_unlocked_claimed c _ avail s _ r Hnd) in Hin as (Hin & Hout).
    apply Hout. now apply in_map.
  - rewrite count_free_eq. cbn [fst].
    pose proof (count_free_claimed c order product N s H) as HC. cbv zeta in HC.
    fold avail in HC. rewrite Hall in HC. now rewrite HC.
  - intros tr s2 c2 o2 p2 N2 ts2 R Hnr Hok2 x Hx1 Hx2.
    pose proof (claimed_inv c order product N s H) as H1. fold avail in H1.
    rewrite Hall in H1.
    destruct (taken_run c x _ tr s2 H1) as (H2 & T2); auto.
    { left. unfold claimed. rewrite tx_of_put. cbn [tx_add_updated tx_updated].
      rewrite map_app, map_id_set_order. apply in_or_app. now left. }
    destruct (reserve_ok c2 o2 p2 N2 s2 ts2 Hok2) as (_ & _ & Hts2 & _).
    rewrite Hts2, List.map_map in Hx2. cbn [ticket_of Ticket.id] in Hx2.
    rewrite List.map_id in Hx2.
    apply in_map_iff in Hx2 as (r & Er & Hr). apply firstn_In in Hr.
    exact (taken_not_free c x s2 c2 _ r H2 T2 Hr Er).
Qed.

(** X8 at work: 3 of 10 are taken, 8 more are asked for. *)
Lemma failed_reserve_claims_all_witness :
  let s := snd (exec (one_buyer ++ [(1%nat, Reserve order_1 test_product 3)]) init_db) in
  reachable s /\
  free_unlocked 1 (snd (Ticket.reserve 1 order_1 test_product 8 s)) 1 = [].
Proof.
  intros s.
  assert (H1 : reachable s) by (apply exec_reachable; vm_compute; reflexivity).
  assert (H2 : fst (Ticket.reserve 1 order_1 test_product 8 s) = Raise NotEnoughTickets)
    by (vm_compute; reflexivity).
  split; [exact H1|].
  exact (proj1 (proj2 (proj2 (failed_reserve_claims_all 1 order_1 test_product 8 s H1 H2)))).
Defined.

(** ** Reserve, then commit *)

Lemma sold_committed_in_view c s t :
  Inv s -> In t (db_tickets s) -> tk_order_id t <> None -> In t (view_tickets c s).
Proof.
  intros H Ht Hs. pose proof (inv_tx_of c s H) as Hok.
  assert (Hb : In t (db_tickets s ++ tx_tickets (tx_of c s)))
    by (apply in_or_app; now left).
  unfold view_tickets. apply in_map_iff. exists t. split; [|exact Hb].
  destruct (view_row_cases s _ t Hok Hb) as [[_ Hv]|(u & _ & _ & _ & _ & Hf & _)];
    [exact Hv|contradiction].
Qed.

(** X10: reserve, then commit.  After the commit of the transaction in which
    [reserve] returned, each returned ticket is a committed row of the product
    with the order's id, and every connection sees it so, inside whatever
    transaction it has open. *)
Theorem reserve_commit_durable (c : nat) (order : Order.t) (product : Product.t)
    (N : Z) (s : DB) (ts : list Ticket.t) :
  reachable s ->
  fst (Ticket.reserve c order product N s) = Ok ts ->
  let s2 := snd (commit_ c (snd (Ticket.reserve c order product N s))) in
  forall t, In t ts ->
    let row := mk_ticket_row (Ticket.id t) (Product.id product) (Some (Order.id order)) in
    In row (db_tickets s2) /\ forall c', In row (view_tickets c' s2).
Proof.
  intros Hreach Hok s2 t Ht row. apply reachable_inv in Hreach as H.
  destruct (reserve_ok c order product N s ts Hok) as (_ & _ & Hts & Hs).
  pose proof (claimed_inv c order product N s H) as H1.
  set (R := firstn (Z.to_nat N) (free_unlocked c s (Product.id product))) in *.
  assert (H2 : Inv s2) by (subst s2; cbn [commit_ snd]; rewrite Hs; now apply commit_inv).
  rewrite Hts, List.map_map in Ht. apply in_map_iff in Ht as (r & Et & Hr).
  assert (Hfree : In r (free_unlocked c s (Product.id product)))
    by (eapply firstn_In; exact Hr).
  apply free_unlocked_in in Hfree as (Hv & Hp & Hf & _).
  destruct (free_view_row s _ r (inv_tx_of c s H) Hv Hf) as (Hb & _).
  assert (Erow : row = set_order (Order.id order) r).
  { subst row. rewrite <- Et. unfold set_order, ticket_of. simpl. now rewrite Hp. }
  assert (Hdb : In row (db_tickets s2)).
  { subst s2. cbn [commit_ snd]. rewrite Hs. unfold claimed.
    erewrite commit_some by (unfold put; simpl; apply lookup_insert_eq).
    cbn [db_tickets tx_add_updated tx_updated tx_tickets put].
    apply in_map_iff. exists r. split; [|exact Hb].
    rewrite Erow. apply new_version_app_hit.
    - rewrite map_id_set_order. apply NoDup_map_firstn. now apply free_unlocked_ids.
    - now apply in_map.
    - reflexivity. }
  split; [exact Hdb|]. intros c'.
  apply sold_committed_in_view; [exact H2|exact Hdb|rewrite Erow; discriminate].
Qed.

(** X10 at work: the buyer of 3 commits. *)
Lemma reserve_commit_durable_witness :
  let s := snd (exec one_buyer init_db) in
  reachable s /\
  In (mk_ticket_row 2 1 (Some 1))
     (db_tickets (snd (commit_ 1 (snd (Ticket.reserve 1 order_1 test_product 3 s))))).
Proof.
  intros s.
  assert (H1 : reachable s) by (apply exec_reachable; vm_compute; reflexivity).
  assert (H2 : fst (Ticket.reserve 1 order_1 test_product 3 s)
               = Ok [Ticket.mk 1 1 1; Ticket.mk 2 1 1; Ticket.mk 3 1 1])
    by (vm_compute; reflexivity).
  split; [exact H1|].
  exact (proj1 (reserve_commit_durable 1 order_1 test_product 3 s _ H1 H2
                  (Ticket.mk 2 1 1) (or_intror (or_introl eq_refl)))).
Defined.

(** ** The availability probe and what follows it *)

Lemma free_unlocked_put_locked c ids s pid :
  free_unlocked c (put c (tx_add_locked ids (tx_of c s))
                     (seq_events s) (seq_products s) (seq_orders s) (seq_tickets s) s) pid
  = free_unlocked c s pid.
Proof.
  unfold free_unlocked. rewrite view_tickets_put. cbn [tx_add_locked tx_updated tx_tickets].
  fold (view_tickets c s). apply List.filter_ext. intros r.
  now rewrite locked_elsewhere_put.
Qed.

Lemma probe_put_locked c ids s event_id :
  probe c event_id (put c (tx_add_locked ids (tx_of c s))
                      (seq_events s) (seq_products s) (seq_orders s) (seq_tickets s) s)
  = probe c event_id s.
Proof.
  unfold probe. rewrite view_products_put. cbn [tx_add_locked tx_products].
  fold (view_products c s). apply List.map_ext. intros p.
  now rewrite free_unlocked_put_locked.
Qed.

(** X11: the availability probe takes nothing from the connection that made
    it.  Right after [get_products_with_availability], the same connection
    gets from a second probe (of any event), from [Ticket.reserve] (any
    order, product and quantity) and from [Ticket.count_free] exactly the
    result it would have got without the probe: the tickets the probe locked
    are still the first ones [reserve] takes. *)
Theorem probe_keeps_own_results (c : nat) (event : Event.t) (s : DB) :
  let s' := snd (Product.get_products_with_availability c event s) in
  (forall event',
     fst (Product.get_products_with_availability c event' s')
     = fst (Product.get_products_with_availability c event' s)) /\
  (forall order product N,
     fst (Ticket.reserve c order product N s') = fst (Ticket.reserve c order product N s)) /\
  (forall product,
     fst (Ticket.count_free c product s') = fst (Ticket.count_free c product s)).
Proof.
  intros s'. subst s'. rewrite availability_eq. cbn [snd].
  set (L := probe_locks (probe c (Event.id event) s)).
  split; [|split].
  - intros event'. rewrite !availability_eq. cbn [fst]. now rewrite probe_put_locked.
  - intros order product N. rewrite !reserve_eq. rewrite free_unlocked_put_locked.
    unfold order_known. rewrite view_orders_put. cbn [tx_add_locked tx_orders].
    fold (view_orders c s).
    destruct (N <? 0); [reflexivity|]. cbv zeta.
    destruct (firstn _ _); [reflexivity|].
    destruct (existsb _ _); reflexivity.
  - intros product. rewrite !count_free_eq. cbn [fst]. rewrite view_tickets_put.
    reflexivity.
Qed.

(** Every call but [commit] and [rollback] keeps the caller's transaction
    open and the row locks it holds. *)
Lemma call_locks_form c k s :
  Inv s -> held c k s -> k <> Commit -> k <> Rollback ->
  exists t se sp so st,
    snd (call c k s) = put c t se sp so st s /\
    forall x, In x (tx_locks (tx_of c s)) -> In x (tx_locks t).
Proof.
  intros H Hh N1 N2.
  assert (A : exists t se sp so st,
            autobegin c s = put c t se sp so st s /\
            forall x, In x (tx_locks (tx_of c s)) -> In x (tx_locks t)).
  { exists (tx_of c s), (seq_events s), (seq_products s), (seq_orders s), (seq_tickets s).
    split; [apply autobegin_put|auto]. }
  destruct k; try congruence; unfold call; rewrite outcome_state.
  - exact A.
  - rewrite event_ensure_eq.
    destruct (existsb _ _); [exact A|].
    destruct (event_pending_elsewhere _ _ _); [exact A|].
    do 5 eexists. cbn [snd]. split; [reflexivity|]. auto.
  - rewrite event_get_state. exact A.
  - rewrite order_create_eq. destruct (event_known _ _ _); [|exact A].
    do 5 eexists. cbn [snd]. split; [reflexivity|]. auto.
  - rewrite (product_ensure_inv_eq c event slug quota s H).
    destruct (existsb _ _); [exact A|].
    destruct (product_pending_elsewhere _ _ _ _); [exact A|].
    destruct (event_known _ _ _); [|exact A].
    do 5 eexists. cbv zeta. cbn [snd]. split; [reflexivity|]. auto.
  - rewrite product_get_state. exact A.
  - simpl in Hh. rewrite (ensure_tickets_held_eq c product s H Hh). exact A.
  - rewrite availability_eq.
    do 5 eexists. cbn [snd]. split; [reflexivity|].
    unfold tx_locks. cbn [tx_add_locked tx_updated tx_locked].
    intros x Hx. rewrite !in_app_iff in *. tauto.
  - destruct (reserve_state_cases c order product quantity s) as (R & E & _).
    rewrite E. unfold claimed. do 5 eexists. split; [reflexivity|].
    unfold tx_locks. cbn [tx_add_updated tx_updated tx_locked].
    intros x Hx. rewrite map_app, !in_app_iff in *. tauto.
  - rewrite count_free_eq. exact A.
Qed.

Lemma locked_by_call c x c' k s :
  Inv s -> held c' k s -> ~ (c' = c /\ (k = Commit \/ k = Rollback)) ->
  locked_by c x s -> locked_by c x (snd (call c' k s)).
Proof.
  intros H Hh Hn (t & Et & Hx).
  destruct (call_cases k) as [->|[->|Hk]].
  - assert (Hne : c' <> c) by (intros ->; apply Hn; auto).
    unfold call. rewrite outcome_state. cbn [commit_ snd]. exists t. split; [|exact Hx].
    destruct (db_tx s !! c') as [t'|] eqn:E'.
    + rewrite (commit_some c' s t' E'). cbn [db_tx].
      rewrite lookup_delete_ne by exact Hne. exact Et.
    + rewrite (commit_none c' s E'). exact Et.
  - assert (Hne : c' <> c) by (intros ->; apply Hn; auto).
    unfold call. rewrite outcome_state. cbn [rollback_ snd]. exists t. split; [|exact Hx].
    unfold rollback, with_txs. cbn [db_tx]. rewrite lookup_delete_ne by exact Hne. exact Et.
  - assert (N12 : k <> Commit /\ k <> Rollback).
    { destruct Hk as [(o & p & n & ->)|(N1 & N2 & _)]; [split; discriminate|auto]. }
    destruct (call_locks_form c' k s H Hh (proj1 N12) (proj2 N12))
      as (t' & se & sp & so & st & E & Hincl).
    rewrite E. unfold locked_by, put. cbn [db_tx].
    destruct (decide (c' = c)) as [->|Hne].
    + exists t'. split; [apply lookup_insert_eq|]. apply Hincl.
      rewrite (tx_of_some c s t Et). exact Hx.
    + exists t. split; [|exact Hx]. rewrite lookup_insert_ne by exact Hne. exact Et.
Qed.

Lemma locked_by_run c x s0 tr s :
  Inv s0 -> locked_by c x s0 -> run s0 tr s ->
  (forall o, ~ In (c, Commit, o) tr) -> (forall o, ~ In (c, Rollback, o) tr) ->
  Inv s /\ locked_by c x s.
Proof.
  intros H0 L0 R. induction R as [|tr l s s' R IH St]; intros Hnc Hnr; [auto|].
  destruct IH as (H & L).
  { intros o Hin. apply (Hnc o). apply in_or_app. now left. }
  { intros o Hin. apply (Hnr o). apply in_or_app. now left. }
  split; [eapply step_inv; eauto|].
  inversion St as [c' k o s1 E _ Hh]; subst.
  replace s' with (snd (call c' k s)) by now rewrite E.
  apply locked_by_call; auto. intros [-> [->| ->]].
  - apply (Hnc o). apply in_or_app. right. now left.
  - apply (Hnr o). apply in_or_app. right. now left.
Qed.

Lemma locked_by_not_free c x s c' pid r :
  locked_by c x s -> c' <> c -> In r (free_unlocked c' s pid) -> tk_id r <> x.
Proof.
  intros (t & Et & Hx) Hne Hr Ex. apply free_unlocked_in in Hr as (_ & _ & _ & Hl).
  assert (L : locked_elsewhere c' s (tk_id r) = true).
  { apply locked_elsewhere_spec. exists c, t. split; [congruence|]. split; [exact Et|].
    now rewrite Ex. }
  congruence.
Qed.

(** X12: the availability probe takes a ticket from everybody else.  For
    each product it reports available, the probe has locked one free ticket
    of that product, and while the prober's transaction is open, that is
    until the prober commits or rolls back, no [reserve] call of another
    connection returns that ticket, whatever calls, commits and rollbacks
    of any connection come in between. *)
Theorem probe_hides_ticket (c : nat) (event : Event.t) (s : DB)
    (rows : list (Product.t * bool)) (p : Product.t) :
  reachable s ->
  fst (Product.get_products_with_availability c event s) = Ok rows ->
  In (p, true) rows ->
  let s' := snd (Product.get_products_with_availability c event s) in
  exists t,
    In t (view_tickets c s) /\ tk_product_id t = Product.id p /\ tk_order_id t = None /\
    In (tk_id t) (tx_locks (tx_of c s')) /\
    forall tr s2 c' order product N ts,
      run s' tr s2 ->
      (forall o, ~ In (c, Commit, o) tr) -> (forall o, ~ In (c, Rollback, o) tr) ->
      c' <> c -> fst (Ticket.reserve c' order product N s2) = Ok ts ->
      ~ In (tk_id t) (List.map Ticket.id ts).
Proof.
  intros Hreach. apply reachable_inv in Hreach as H.
  rewrite availability_eq. cbn [fst snd]. intros E Hin. inversion E. subst rows. clear E.
  apply in_map_iff in Hin as ([pr o] & E & Hpt). cbn [fst snd] in E.
  destruct o as [t|]; [|discriminate E]. inversion E. subst p. clear E.
  assert (HL : In (tk_id t) (probe_locks (probe c (Event.id event) s))).
  { unfold probe_locks. apply in_flat_map. exists (pr, Some t). split; [exact Hpt|].
    now left. }
  unfold probe in Hpt. apply in_map_iff in Hpt as (pr' & E' & _).
  inversion E' as [[E1 E2]]. subst pr'. clear E'.
  assert (Ht : In t (free_unlocked c s (pr_id pr))).
  { destruct (free_unlocked c s (pr_id pr)); [discriminate E2|].
    simpl in E2. inversion E2. now left. }
  apply free_unlocked_in in Ht as (Hv & Hp & Hf & _).
  set (s' := put c (tx_add_locked (probe_locks (probe c (Event.id event) s)) (tx_of c s))
               (seq_events s) (seq_products s) (seq_orders s) (seq_tickets s) s).
  assert (HT : In (tk_id t) (tx_locks (tx_of c s'))).
  { unfold s'. rewrite tx_of_put. unfold tx_locks. cbn [tx_add_locked tx_locked].
    apply in_or_app. right. apply in_or_app. now right. }
  assert (H' : Inv s').
  { unfold s'. apply add_locked_inv; [exact H|]. intros x Hx.
    now apply (probe_locks_free c (Event.id event)). }
  assert (L' : locked_by c (tk_id t) s').
  { exists (tx_of c s'). split; [|exact HT].
    unfold s' at 1. unfold put. cbn [db_tx]. rewrite lookup_insert_eq.
    unfold s'. now rewrite tx_of_put. }
  exists t. cbn [Product.id]. split; [exact Hv|]. split; [exact Hp|]. split; [exact Hf|].
  split; [exact HT|].
  intros tr s2 c' order product N ts R Hnc Hnr Hne Hok Hx.
  destruct (locked_by_run c (tk_id t) s' tr s2 H' L' R Hnc Hnr) as (_ & L2).
  destruct (reserve_ok c' order product N s2 ts Hok) as (_ & _ & Hts & _).
  rewrite Hts, List.map_map in Hx. cbn [ticket_of Ticket.id] in Hx.
  rewrite List.map_id in Hx.
  apply in_map_iff in Hx as (r & Er & Hr). apply firstn_In in Hr.
  exact (locked_by_not_free c (tk_id t) s2 c' _ r L2 Hne Hr Er).
Qed.

(** X12 at work: after [setup], connection 1 probes the event. *)
Lemma probe_hides_ticket_witness :
  let s := snd (exec setup init_db) in
  let s' := snd (Product.get_products_with_availability 1 test_event s) in
  exists t,
    In t (view_tickets 1 s) /\ tk_product_id t = 1 /\ tk_order_id t = None /\
    In (tk_id t) (tx_locks (tx_of 1 s')) /\
    forall tr s2 c' order product N ts,
      run s' tr s2 ->
      (forall o, ~ In (1%nat, Commit, o) tr) -> (forall o, ~ In (1%nat, Rollback, o) tr) ->
      c' <> 1%nat -> fst (Ticket.reserve c' order product N s2) = Ok ts ->
      ~ In (tk_id t) (List.map Ticket.id ts).
Proof.
  intros s s'.
  apply (probe_hides_ticket 1 test_event s [(test_product, true)] test_product).
  - apply exec_reachable. vm_compute. reflexivity.
  - vm_compute. reflexivity.
  - now left.
Defined.

(** X17: availability and the free count.  A product that the probe reports
    available has a positive [Ticket.count_free] on the same connection.  The
    converse holds when no other connection has a transaction open; else a
    product with free tickets is reported unavailable when other transactions
    hold locks on all of them. *)
Theorem available_means_free (c : nat) (event : Event.t) (s : DB)
    (rows : list (Product.t * bool)) (p : Product.t) (b : bool) :
  fst (Product.get_products_with_availability c event s) = Ok rows ->
  In (p, b) rows ->
  exists n, fst (Ticket.count_free c p s) = Ok n /\
    (b = true -> 0 < n) /\
    ((forall c', c' <> c -> db_tx s !! c' = None) -> 0 < n -> b = true).
Proof.
  rewrite availability_eq, count_free_eq. cbn [fst]. intros E Hin.
  inversion E. subst rows. clear E.
  apply in_map_iff in Hin as ([pr o] & E & Hpt). cbn [fst snd] in E.
  inversion E as [[E1 E2]]. clear E.
  unfold probe in Hpt. apply in_map_iff in Hpt as (pr' & E' & _).
  inversion E' as [[E3 E4]]. subst pr'. clear E'. cbn [Product.id].
  eexists. split; [reflexivity|]. rewrite hd_error_some_iff.
  assert (P : 0 < count_free (pr_id pr) (view_tickets c s) <->
              exists t, In t (view_tickets c s) /\ tk_product_id t = pr_id pr /\
                        tk_order_id t = None).
  { unfold count_free. split.
    - intros Hpos. destruct (List.filter _ _) as [|t l] eqn:F; [simpl in Hpos; lia|].
      assert (Ht : In t (List.filter
                           (fun t => (tk_product_id t =? pr_id pr) && is_free t)
                           (view_tickets c s))) by (rewrite F; now left).
      apply filter_In in Ht as (Ht & Hc). apply andb_true_iff in Hc as (Hc1 & Hc2).
      exists t. apply Z.eqb_eq in Hc1. unfold is_free in Hc2.
      destruct (tk_order_id t); [discriminate|]. auto.
    - intros (t & Ht & Hp & Hf).
      assert (Hin : In t (List.filter
                            (fun t => (tk_product_id t =? pr_id pr) && is_free t)
                            (view_tickets c s))).
      { apply filter_In. split; [exact Ht|]. unfold is_free. rewrite Hp, Hf, Z.eqb_refl.
        reflexivity. }
      destruct (List.filter _ _); [destruct Hin|]. simpl. lia. }
  split.
  - intros [t Ht]. apply P. apply free_unlocked_in in Ht. exists t. tauto.
  - intros Hidle Hpos. apply P in Hpos as (t & Ht & Hp & Hf). exists t.
    apply free_unlocked_in. repeat split; auto.
    destruct (locked_elsewhere c s (tk_id t)) eqn:L; [|reflexivity].
    apply locked_elsewhere_spec in L as (c' & t' & Hne & Hsome & _).
    rewrite (Hidle c' Hne) in Hsome. discriminate.
Qed.

(** X17 at work: the product of [setup], seen by connection 1. *)
Lemma available_means_free_witness :
  exists n, fst (Ticket.count_free 1 test_product (snd (exec setup init_db))) = Ok n /\
    (true = true -> 0 < n) /\
    ((forall c', c' <> 1%nat -> db_tx (snd (exec setup init_db)) !! c' = None) ->
     0 < n -> true = true).
Proof.
  apply (available_means_free 1 test_event (snd (exec setup init_db))
           [(test_product, true)] test_product true).
  - vm_compute. reflexivity.
  - now left.
Defined.

(** ** Reserving for an order that does not exist *)

(** X16: [reserve] for an order the connection cannot see, and [reserve] of a
    negative quantity.  No row changes.  A negative quantity is refused by
    the engine.  With quantity 0 the call returns the empty list; with a
    positive quantity it raises [NotEnoughTickets] when no ticket of the
    product can be claimed, and the engine's foreign key error otherwise: the
    order is only looked at when there is a ticket to mark. *)
Theorem reserve_unknown_order (c : nat) (order : Order.t) (product : Product.t)
    (N : Z) (s : DB) :
  order_known c (Order.id order) s = false \/ N < 0 ->
  let avail := free_unlocked c s (Product.id product) in
  let r := fst (Ticket.reserve c order product N s) in
  let s' := snd (Ticket.reserve c order product N s) in
  same_rows s s' /\
  (N < 0 -> r = Raise InvalidRowCountInLimitClause) /\
  (N = 0 -> r = Ok []) /\
  (0 < N -> avail = [] -> r = Raise NotEnoughTickets) /\
  (0 < N -> avail <> [] -> r = Raise ForeignKeyViolation).
Proof.
  intros Hor avail r s'. subst r s'. rewrite reserve_eq.
  destruct (N <? 0) eqn:E0.
  { apply Z.ltb_lt in E0. cbn [fst snd].
    split; [apply same_rows_autobegin|]. repeat split; intros; try lia; reflexivity. }
  apply Z.ltb_ge in E0. destruct Hor as [Hord|Hneg]; [|lia].
  cbv zeta. fold avail. rewrite Hord.
  destruct (firstn (Z.to_nat N) avail) as [|r0 R0] eqn:F.
  - cbn [fst snd]. split; [apply same_rows_autobegin|].
    split; [intros; lia|]. split; [|split].
    + intros ->. reflexivity.
    + intros Hpos _. apply Z.ltb_lt in Hpos. now rewrite Hpos.
    + intros Hpos Hne. exfalso. destruct avail as [|a avail']; [now apply Hne|].
      destruct (Z.to_nat N) eqn:En; [lia|]. discriminate F.
  - cbn [fst snd]. split; [apply same_rows_autobegin|].
    split; [intros; lia|]. split; [|split].
    + intros ->. discriminate F.
    + intros _ Hnil. rewrite Hnil in F. destruct (Z.to_nat N); discriminate F.
    + reflexivity.
Qed.

(** X16 at work: order 99 has never been created. *)
Lemma reserve_unknown_order_witness :
  fst (Ticket.reserve 1 (Order.mk 99 1) test_product 2 (snd (exec setup init_db)))
  = Raise ForeignKeyViolation.
Proof.
  assert (H : order_known 1 (Order.id (Order.mk 99 1)) (snd (exec setup init_db)) = false
              \/ 2 < 0) by (left; vm_compute; reflexivity).
  apply (reserve_unknown_order 1 (Order.mk 99 1) test_product 2 _ H).
  - lia.
  - vm_compute. discriminate.
Defined.

(** ** Products and their tickets *)

(** X13: tickets match the quota.  In every state the calls can reach, each
    product row a connection sees has exactly [max 0 quota] ticket rows in
    that connection's view; so on a [Product] built from such a row
    [ensure_tickets] inserts nothing: it returns when the quota is not
    negative and raises [NotImplementedError] when it is, and no row changes
    either way. *)
Theorem tickets_match_quota (c : nat) (product : Product.t) (s : DB) :
  reachable s ->
  In (product_row product) (view_products c s) ->
  count_tickets (Product.id product) (view_tickets c s) = Z.max 0 (Product.quota product) /\
  fst (Product.ensure_tickets c product s)
  = (if Product.quota product <? 0 then Raise NotImplementedError else Ok tt) /\
  same_rows s (snd (Product.ensure_tickets c product s)).
Proof.
  intros Hreach Hin. apply reachable_inv in Hreach as H.
  rewrite (ensure_tickets_held_eq c product s H Hin). cbn [fst snd].
  split; [now apply held_product_count|]. split; [reflexivity|apply same_rows_autobegin].
Qed.

(** X13 at work: the product of [setup]. *)
Lemma tickets_match_quota_witness :
  count_tickets 1 (view_tickets 1 (snd (exec setup init_db))) = 10.
Proof.
  refine (proj1 (tickets_match_quota 1 test_product (snd (exec setup init_db)) _ _)).
  - apply exec_reachable. vm_compute. reflexivity.
  - vm_compute. now left.
Defined.

Lemma count_free_le_tickets pid l : count_free pid l <= count_tickets pid l.
Proof.
  rewrite count_split. unfold count_sold. lia.
Qed.

Lemma count_free_fresh pid first n :
  count_free pid (fresh_tickets pid first n) = Z.of_nat n.
Proof.
  pose proof (count_split pid (fresh_tickets pid first n)) as S.
  rewrite fresh_tickets_count, count_sold_zero in S; [lia|].
  intros r Hr. apply fresh_tickets_in in Hr as (i & _ & ->). reflexivity.
Qed.

(** The free tickets of a product that has just been inserted with its
    tickets. *)
Lemma count_free_new_product c eid slug quota n se so s :
  Inv s -> Z.of_nat n = Z.max 0 quota ->
  count_free (seq_products s)
    (view_tickets c
       (put c (tx_add_tickets (fresh_tickets (seq_products s) (seq_tickets s) n)
                 (tx_add_product (mk_product_row (seq_products s) eid slug quota)
                                 (tx_of c s)))
            se (seq_products s + 1) so (seq_tickets s + Z.of_nat n) s))
  = Z.of_nat n.
Proof.
  intros H Hn. pose proof (inv_tx_of c s H) as Hok.
  rewrite (view_count_free c _ _ (add_product_tickets_inv c eid slug quota n se so s H Hn)).
  rewrite tx_of_put. cbn [tx_add_tickets tx_add_product tx_tickets tx_updated db_tickets put].
  rewrite app_assoc, count_free_app, count_free_fresh.
  assert (B : forall r, In r (db_tickets s ++ tx_tickets (tx_of c s)) ->
                        tk_product_id r <> seq_products s).
  { intros r Hr E. apply in_app_iff in Hr as [Hr|Hr].
    - pose proof (db_ticket_product_bound s r H Hr). lia.
    - pose proof (tx_ticket_product_bound s _ r Hok Hr). lia. }
  assert (Z1 : count_free (seq_products s) (db_tickets s ++ tx_tickets (tx_of c s)) = 0).
  { pose proof (count_free_le_tickets (seq_products s)
                  (db_tickets s ++ tx_tickets (tx_of c s))) as L.
    rewrite (count_tickets_zero _ _ B) in L.
    pose proof (count_free_nonneg (seq_products s)
                  (db_tickets s ++ tx_tickets (tx_of c s))). lia. }
  assert (Z2 : count_tickets (seq_products s) (tx_updated (tx_of c s)) = 0).
  { apply count_tickets_zero. intros u Hu E.
    destruct (ok_upd_base s _ Hok u Hu) as (_ & Hb). apply (B _ Hb). exact E. }
  lia.
Qed.

(** X14: [Product.ensure] for a key that is new to the caller and pending
    nowhere else.  When the event is not visible the engine's foreign key
    error comes up and no row changes.  Otherwise the product row is inserted
    into the caller's transaction, with [max 0 quota] free tickets, whatever
    comes back: the new [Product] when the quota is not negative, and
    [NotImplementedError] when it is, in which case the product row stays
    inserted, without tickets. *)
Theorem product_ensure_new (c : nat) (event : Event.t) (slug : string)
    (quota : Z) (s : DB) :
  reachable s ->
  existsb (same_product_key (Event.id event) slug) (view_products c s) = false ->
  product_pending_elsewhere c (Event.id event) slug s = false ->
  let r := fst (Product.ensure c event slug quota s) in
  let s' := snd (Product.ensure c event slug quota s) in
  (event_known c (Event.id event) s = false ->
     r = Raise ForeignKeyViolation /\ same_rows s s') /\
  (event_known c (Event.id event) s = true ->
     let product := Product.mk (seq_products s) (Event.id event) slug quota in
     r = (if quota <? 0 then Raise NotImplementedError else Ok product) /\
     view_products c s' = view_products c s ++ [product_row product] /\
     fst (Ticket.count_free c product s') = Ok (Z.max 0 quota) /\
     count_tickets (Product.id product) (view_tickets c s') = Z.max 0 quota).
Proof.
  intros Hreach Hnew Hpend r s'. apply reachable_inv in Hreach as H.
  subst r s'. rewrite (product_ensure_inv_eq c event slug quota s H), Hnew, Hpend.
  split.
  - intros E. rewrite E. cbn [fst snd]. split; [reflexivity|apply same_rows_autobegin].
  - intros E. rewrite E. cbv zeta. cbn [fst snd].
    set (product := Product.mk (seq_products s) (Event.id event) slug quota).
    assert (Hn : Z.of_nat (Z.to_nat quota) = Z.max 0 quota) by lia.
    pose proof (add_product_tickets_inv c (Event.id event) slug quota (Z.to_nat quota)
                  (seq_events s) (seq_orders s) s H Hn) as H'.
    assert (Hv : view_products c
                   (put c (tx_add_tickets
                             (fresh_tickets (seq_products s) (seq_tickets s)
                                            (Z.to_nat quota))
                             (tx_add_product (product_row product) (tx_of c s)))
                        (seq_events s) (seq_products s + 1) (seq_orders s)
                        (seq_tickets s + Z.of_nat (Z.to_nat quota)) s)
                 = view_products c s ++ [product_row product]).
    { rewrite view_products_put. cbn [tx_add_tickets tx_add_product tx_products].
      unfold view_products. now rewrite app_assoc. }
    split; [reflexivity|]. split; [exact Hv|]. split.
    + rewrite count_free_eq. cbn [fst]. f_equal. rewrite <- Hn.
      apply (count_free_new_product c (Event.id event) slug quota); auto.
    + assert (Hin : In (product_row product) (view_products c s ++ [product_row product]))
        by (apply in_or_app; right; now left).
      rewrite <- Hv in Hin. exact (held_product_count c product _ H' Hin).
Qed.

(** X14 at work: a second product of the event, with a negative quota. *)
Lemma product_ensure_new_witness :
  let s := snd (exec setup init_db) in
  fst (Product.ensure 1 test_event "other" (-5) s) = Raise NotImplementedError /\
  view_products 1 (snd (Product.ensure 1 test_event "other" (-5) s))
  = view_products 1 s ++ [mk_product_row 2 1 "other" (-5)].
Proof.
  intros s.
  assert (H1 : reachable s) by (apply exec_reachable; vm_compute; reflexivity).
  assert (H2 : existsb (same_product_key (Event.id test_event) "other")
                 (view_products 1 s) = false) by (vm_compute; reflexivity).
  assert (H3 : product_pending_elsewhere 1 (Event.id test_event) "other" s = false)
    by (vm_compute; reflexivity).
  assert (H4 : event_known 1 (Event.id test_event) s = true) by (vm_compute; reflexivity).
  destruct (proj2 (product_ensure_new 1 test_event "other" (-5) s H1 H2 H3) H4)
    as (E1 & E2 & _).
  split; [exact E1|exact E2].
Defined.

(** ** Committed rows stay *)

Lemma committed_call c k s :
  k <> Commit -> Inv s -> held c k s ->
  db_events (snd (call c k s)) = db_events s /\
  db_products (snd (call c k s)) = db_products s /\
  db_orders (snd (call c k s)) = db_orders s /\
  db_tickets (snd (call c k s)) = db_tickets s.
Proof.
  intros N H Hh.
  destruct (call_cases k) as [->|[->|[(o & p & n & ->)|(N1 & N2 & N3)]]].
  - congruence.
  - unfold call. rewrite outcome_state. cbn [rollback_ snd]. unfold rollback. simpl. auto.
  - unfold call. rewrite outcome_state.
    destruct (reserve_state c o p n s) as [t E]. rewrite E. simpl. auto.
  - destruct (call_put_form c k s H Hh N1 N2 N3) as (t & se & sp & so & st & X & E & _).
    rewrite E. simpl. auto.
Qed.

Lemma prefix_same {A} (l : list A) : l `prefix_of` l.
Proof. exists []. now rewrite app_nil_r. Qed.

Lemma prefix_app_r {A} (l m : list A) : l `prefix_of` l ++ m.
Proof. now exists m. Qed.

Lemma prefix_chain {A} (l1 l2 l3 : list A) :
  l1 `prefix_of` l2 -> l2 `prefix_of` l3 -> l1 `prefix_of` l3.
Proof. intros [k1 ->] [k2 ->]. exists (k1 ++ k2). now rewrite app_assoc. Qed.

Lemma committed_step s l s' :
  Inv s -> step s l s' ->
  db_events s `prefix_of` db_events s' /\
  db_products s `prefix_of` db_products s' /\
  db_orders s `prefix_of` db_orders s' /\
  List.map tk_id (db_tickets s) `prefix_of` List.map tk_id (db_tickets s') /\
  List.map tk_product_id (db_tickets s) `prefix_of` List.map tk_product_id (db_tickets s').
Proof.
  intros H St. inversion St as [c k o s1 E _ Hh]; subst.
  replace s' with (snd (call c k s)) by now rewrite E.
  assert (Same : k <> Commit ->
            db_events s `prefix_of` db_events (snd (call c k s)) /\
            db_products s `prefix_of` db_products (snd (call c k s)) /\
            db_orders s `prefix_of` db_orders (snd (call c k s)) /\
            List.map tk_id (db_tickets s)
              `prefix_of` List.map tk_id (db_tickets (snd (call c k s))) /\
            List.map tk_product_id (db_tickets s)
              `prefix_of` List.map tk_product_id (db_tickets (snd (call c k s)))).
  { intros Hk. destruct (committed_call c k s Hk H Hh) as (E1 & E2 & E3 & E4).
    rewrite E1, E2, E3, E4.
    split; [apply prefix_same|]. split; [apply prefix_same|].
    split; [apply prefix_same|]. split; apply prefix_same. }
  destruct (call_cases k) as [->|[Hk|[(od & p & n & Hk)|(Hk & _)]]].
  - clear Same. unfold call. rewrite outcome_state. cbn [commit_ snd].
    destruct (db_tx s !! c) as [t|] eqn:Et.
    + pose proof (inv_tx s H c t Et) as Hok. rewrite (commit_some c s t Et).
      cbn [db_events db_products db_orders db_tickets].
      split; [apply prefix_app_r|]. split; [apply prefix_app_r|].
      split; [apply prefix_app_r|]. split.
      * rewrite map_new_version_ids, List.map_app. apply prefix_app_r.
      * exists (List.map tk_product_id (tx_tickets t)). rewrite <- List.map_app.
        rewrite List.map_map. apply List.map_ext_in. intros b Hb.
        apply (new_version_product s t b Hok Hb).
    + rewrite (commit_none c s Et).
      split; [apply prefix_same|]. split; [apply prefix_same|].
      split; [apply prefix_same|]. split; apply prefix_same.
  - apply Same. subst k. discriminate.
  - apply Same. subst k. discriminate.
  - apply Same. exact Hk.
Qed.

(** X15: committed rows stay.  Along every interleaving of calls, commits and
    rollbacks, the committed events, products and orders are only ever added
    to, at the end and unchanged; no committed ticket is deleted, renumbered
    or moved to another product. *)
Theorem committed_rows_kept (s s' : DB) (tr : list Label) :
  reachable s -> run s tr s' ->
  db_events s `prefix_of` db_events s' /\
  db_products s `prefix_of` db_products s' /\
  db_orders s `prefix_of` db_orders s' /\
  List.map tk_id (db_tickets s) `prefix_of` List.map tk_id (db_tickets s') /\
  List.map tk_product_id (db_tickets s) `prefix_of` List.map tk_product_id (db_tickets s').
Proof.
  intros Hreach R. apply reachable_inv in Hreach as H.
  induction R as [|tr l s1 s2 R IH St].
  - split; [apply prefix_same|]. split; [apply prefix_same|].
    split; [apply prefix_same|]. split; apply prefix_same.
  - destruct IH as (A1 & A2 & A3 & A4 & A5).
    destruct (committed_step s1 l s2 (run_inv s tr s1 H R) St) as (B1 & B2 & B3 & B4 & B5).
    split; [exact (prefix_chain _ _ _ A1 B1)|].
    split; [exact (prefix_chain _ _ _ A2 B2)|].
    split; [exact (prefix_chain _ _ _ A3 B3)|].
    split; [exact (prefix_chain _ _ _ A4 B4)|exact (prefix_chain _ _ _ A5 B5)].
Qed.

(** X15 at work: a buyer of 3 comes after [setup] and commits. *)
Lemma committed_rows_kept_witness :
  let s := snd (exec setup init_db) in
  let tail := [(1%nat, OrderCreate test_event);
               (1%nat, Reserve order_1 test_product 3);
               (1%nat, Commit)] in
  db_products s `prefix_of` db_products (snd (exec tail s)).
Proof.
  intros s tail.
  assert (H1 : reachable s) by (apply exec_reachable; vm_compute; reflexivity).
  assert (H2 : run s (fst (exec tail s)) (snd (exec tail s)))
    by (apply exec_run; vm_compute; reflexivity).
  exact (proj1 (proj2 (committed_rows_kept s _ _ H1 H2))).
Defined.

(** ** [get_row] on any table *)

Lemma select_star_autobegin c c' table_name s :
  select_star c' table_name (autobegin c s) = select_star c' table_name s.
Proof.
  destruct table_name; unfold select_star.
  - now rewrite view_events_autobegin.
  - now rewrite view_products_autobegin.
  - now rewrite view_orders_autobegin.
  - now rewrite view_tickets_autobegin.
Qed.

(** X18: [get_row] by the number of rows that match.  With at least one
    filter, all on columns of the table, [get_row] raises [KeyError] when no
    row the connection sees matches every filter, returns the row when
    exactly one does, and raises [MultipleRowsReturned] when two or more do,
    however many.  Without a filter, or with a filter on an unknown column,
    the statement itself is refused.  No row changes in any case. *)
Theorem get_row_spec (c : nat) (table_name : TableName) (kwargs : Kwargs) (s : DB) :
  let found := List.filter (where_matches (columns table_name) kwargs)
                           (select_star c table_name s) in
  let r := fst (get_row c table_name kwargs s) in
  (kwargs = [] \/ known_columns (columns table_name) (List.map fst kwargs) = false ->
   r = Raise ProgrammingError) /\
  (kwargs <> [] -> known_columns (columns table_name) (List.map fst kwargs) = true ->
   r = match found with
       | [] => Raise KeyError
       | [row] => Ok (VRecord row)
       | _ :: _ :: _ => Raise MultipleRowsReturned
       end) /\
  same_rows s (snd (get_row c table_name kwargs s)).
Proof.
  intros found r. subst r. rewrite get_row_state.
  split; [|split; [|apply same_rows_autobegin]].
  - intros Hbad. unfold get_row, bind, execute, select_where_limit_2.
    destruct Hbad as [->|Hk]; [now rewrite orb_true_r|]. now rewrite Hk.
  - intros Hne Hk. unfold get_row, bind, execute, select_where_limit_2.
    rewrite Hk. destruct kwargs as [|kv kwargs']; [now contradiction Hne|].
    cbn [negb orb length Nat.eqb]. rewrite select_star_autobegin. fold found.
    destruct found as [|r1 [|r2 l]]; reflexivity.
Qed.
